(** * Ralph todo queue and worktree utilities: a shallow embedding

    This development embeds the two utility scripts of the repository,
    [ralph-todos/scripts/todo-utils.ts] and
    [ralph-todos/scripts/worktree-utils.ts], and proves properties of the
    item store, the queue order, the dependency scan and the worktree
    manager.

    Conventions of the embedding.
    - A JavaScript string is a list of code units; the model covers the
      code units 0..255 (one [ascii] each).  Classes such as [\s], [\w],
      [.] and [toLowerCase] are written out for that range.
    - A JavaScript number that the scripts compute is an integer-valued
      double or NaN: [num := option Z], [None] being NaN.  An integer from
      2^53 on is rounded to the nearest double ([to_double]) wherever the
      scripts read, subtract, increment or print it.
    - The object built by [parseFrontmatter] is an association list in
      insertion order; [entries] restores the enumeration order of
      [Object.entries] (array-index keys first).
    - The file system, the clock and the shell are explicit: a state is a
      todos directory that exists, on a case-sensitive file system, given
      as the list of its regular files, which the process may read and
      write; effects are threaded through a state-and-exception monad, and
      shell commands are answered by an abstract world.  A missing
      directory, on which [readdir] fails, is no state of the model, and
      the file functions are modelled on names that are one path segment
      ([plain_name]), the names that [readdir] returns among them. *)

From Stdlib Require Import String Ascii List ZArith NArith Lia Bool Arith.
From Stdlib Require Import Permutation Sorted.
Import ListNotations.

Set Implicit Arguments.

(** ** Strings *)

Definition str := list ascii.

Definition lit (s : string) : str := list_ascii_of_string s.

Definition nl : ascii := "010"%char.
Definition cr : ascii := "013"%char.
Definition dq : ascii := "034"%char.
Definition sq : ascii := "039"%char.

Definition code (c : ascii) : nat := nat_of_ascii c.

Definition ascii_eqb (a b : ascii) : bool := Ascii.eqb a b.

Arguments ascii_eqb : simpl never.

Fixpoint str_eqb (a b : str) : bool :=
  match a, b with
  | [], [] => true
  | x :: a', y :: b' => ascii_eqb x y && str_eqb a' b'
  | _, _ => false
  end.

(** [\s]: WhiteSpace and LineTerminator code units below 256. *)
Definition is_ws (c : ascii) : bool :=
  let n := code c in
  ((9 <=? n) && (n <=? 13)) || (n =? 32) || (n =? 160).

(** Line terminators: what [.] refuses and where [^]/[$] anchor under /m. *)
Definition is_lt (c : ascii) : bool :=
  ascii_eqb c nl || ascii_eqb c cr.

(** [\d] *)
Definition is_digit (c : ascii) : bool :=
  let n := code c in (48 <=? n) && (n <=? 57).

Definition is_lower (c : ascii) : bool :=
  let n := code c in (97 <=? n) && (n <=? 122).

Definition is_upper (c : ascii) : bool :=
  let n := code c in (65 <=? n) && (n <=? 90).

(** [\w] *)
Definition is_word (c : ascii) : bool :=
  is_digit c || is_lower c || is_upper c || (code c =? 95).

(** [[a-z0-9]] *)
Definition is_lower_alnum (c : ascii) : bool :=
  is_lower c || is_digit c.

(** [String.prototype.toLowerCase] on one code unit below 256. *)
Definition lower_char (c : ascii) : ascii :=
  let n := code c in
  if is_upper c then ascii_of_nat (n + 32)
  else if (192 <=? n) && (n <=? 222) && negb (n =? 215)
       then ascii_of_nat (n + 32)
       else c.

Definition toLowerCase (s : str) : str := map lower_char s.

Fixpoint trimStart (s : str) : str :=
  match s with
  | c :: s' => if is_ws c then trimStart s' else s
  | [] => []
  end.

Definition trimEnd (s : str) : str := rev (trimStart (rev s)).

Definition trim (s : str) : str := trimEnd (trimStart s).

Fixpoint startsWith (p s : str) : bool :=
  match p, s with
  | [], _ => true
  | x :: p', y :: s' => ascii_eqb x y && startsWith p' s'
  | _ :: _, [] => false
  end.

Definition endsWith (p s : str) : bool := startsWith (rev p) (rev s).

(** [s.indexOf(c)] for a single character, returned as the two sides of the
    first occurrence: [s.slice(0, i)] and [s.slice(i + 1)]. *)
Fixpoint cut_at (c : ascii) (s : str) : option (str * str) :=
  match s with
  | [] => None
  | x :: s' =>
      if ascii_eqb x c then Some ([], s')
      else match cut_at c s' with
           | Some (a, b) => Some (x :: a, b)
           | None => None
           end
  end.

(** The two sides of the first occurrence of a substring. *)
Fixpoint cut_first (sep s : str) : option (str * str) :=
  if startsWith sep s then Some ([], skipn (length sep) s)
  else match s with
       | [] => None
       | x :: s' =>
           match cut_first sep s' with
           | Some (a, b) => Some (x :: a, b)
           | None => None
           end
       end.

(** [s.includes(sub)] *)
Definition includes (sub s : str) : bool :=
  match cut_first sub s with Some _ => true | None => false end.

(** [s.split(c)] for a one-character separator. *)
Fixpoint split_char (c : ascii) (s : str) : list str :=
  match s with
  | [] => [[]]
  | x :: s' =>
      if ascii_eqb x c then [] :: split_char c s'
      else match split_char c s' with
           | h :: t => (x :: h) :: t
           | [] => [[x]]
           end
  end.

(** [s.split(sep)] for a separator of any positive length: [skip] counts the
    separator characters still to be dropped, [cur] is the piece being read
    (reversed). *)
Fixpoint split_go (sep : str) (skip : nat) (cur : str) (s : str) : list str :=
  match s with
  | [] => [rev cur]
  | x :: s' =>
      match skip with
      | S k => split_go sep k cur s'
      | O =>
          if startsWith sep s
          then rev cur :: split_go sep (length sep - 1) [] s'
          else split_go sep 0 (x :: cur) s'
      end
  end.

Definition split (sep s : str) : list str := split_go sep 0 [] s.

Fixpoint join (sep : str) (l : list str) : str :=
  match l with
  | [] => []
  | [x] => x
  | x :: l' => x ++ sep ++ join sep l'
  end.

(** [s.slice(1, -1)] *)
Definition slice_1_m1 (s : str) : str := removelast (tl s).

(** [s.replace(pat, rep)] with a string pattern: the first occurrence. *)
Definition replace_first (pat rep s : str) : str :=
  match cut_first pat s with
  | Some (a, b) => a ++ rep ++ b
  | None => s
  end.

(** The replace call that deletes one quote character (double or single)
    at the very start and one at the very end of an array element. *)
Definition is_quote (c : ascii) : bool := ascii_eqb c dq || ascii_eqb c sq.

Definition strip_last_quote (s : str) : str :=
  match rev s with
  | c :: _ => if is_quote c then removelast s else s
  | [] => s
  end.

Definition strip_quotes (s : str) : str :=
  match s with
  | c :: s' => if is_quote c then strip_last_quote s' else strip_last_quote s
  | [] => []
  end.

(** ** Numbers *)

(** A number of the scripts: an integer-valued double, or NaN.  The
    integers that the scripts compute are spelled by file names, which hold
    at most 255 bytes, so they stay below the largest double and no
    infinity arises. *)
Definition num := option Z.

Definition two53 : Z := 9007199254740992%Z.

(** The double nearest to a natural number: the number itself below 2^53,
    else its 53 leading bits rounded to nearest, ties to even. *)
Definition to_double (z : Z) : Z :=
  let e := (Z.log2 z - 52)%Z in
  if (e <=? 0)%Z then z
  else
    let q := Z.shiftr z e in
    let r := (z - Z.shiftl q e)%Z in
    let half := Z.shiftl 1 (e - 1) in
    let q' := if (half <? r)%Z || ((r =? half)%Z && Z.odd q)
              then (q + 1)%Z else q in
    Z.shiftl q' e.

(** The double nearest to an integer of either sign. *)
Definition to_number (z : Z) : Z :=
  if (z <? 0)%Z then (- to_double (- z))%Z else to_double z.

(** [a - b]: the difference of two doubles, rounded. *)
Definition num_sub (a b : num) : num :=
  match a, b with
  | Some x, Some y => Some (to_number (x - y))
  | _, _ => None
  end.

Definition digit_val (c : ascii) : Z := Z.of_nat (code c - 48).

Fixpoint digits_go (acc : Z) (s : str) : Z :=
  match s with
  | c :: s' => if is_digit c then digits_go (acc * 10 + digit_val c)%Z s' else acc
  | [] => acc
  end.

(** [parseInt(s)] on the strings the scripts pass to it, which carry neither
    sign, radix prefix nor leading blanks: the double nearest to the value
    of the leading run of digits, NaN when there is none. *)
Definition parseInt (s : str) : num :=
  match s with
  | c :: _ => if is_digit c then Some (to_double (digits_go 0 s)) else None
  | [] => None
  end.

(** The decimal digits of a natural number. *)
Definition digit_char (d : Z) : ascii := ascii_of_nat (48 + Z.to_nat d).

Fixpoint dec_go (fuel : nat) (n : Z) (acc : str) : str :=
  match fuel with
  | O => acc
  | S f =>
      let d := digit_char (n mod 10) in
      if (n <? 10)%Z then d :: acc else dec_go f (n / 10)%Z (d :: acc)
  end.

Definition decimal (n : Z) : str := dec_go (S (Z.to_nat (Z.log2 n))) n [].

(** [Number::toString] of a double [x] from 2^53 on writes the shortest
    digits [s], [k] of them, and the exponent [n] such that [s * 10^(n-k)]
    rounds to [x]; among several [s] the one nearest to [x], the even one in
    a tie. *)
Definition digits_fit (x k : Z) (c : Z * Z) : bool :=
  let '(s, n) := c in
  (10 ^ (k - 1) <=? s)%Z && (s <? 10 ^ k)%Z
  && (to_double (s * 10 ^ (n - k)) =? x)%Z.

Definition digits_dist (x k : Z) (c : Z * Z) : Z :=
  Z.abs (fst c * 10 ^ (snd c - k) - x).

Definition pick_digits (x k : Z) (best : option (Z * Z)) (c : Z * Z)
  : option (Z * Z) :=
  if digits_fit x k c then
    match best with
    | None => Some c
    | Some b =>
        if (digits_dist x k c <? digits_dist x k b)%Z
           || ((digits_dist x k c =? digits_dist x k b)%Z && Z.even (fst c))
        then Some c else Some b
    end
  else best.

(** The digits of length [k], if any; [nd] is the number of decimal digits
    of [x], so that [n] is [nd] or [nd + 1]. *)
Definition shortest_at (x nd k : Z) : option (Z * Z) :=
  let s1 := (x / 10 ^ (nd - k))%Z in
  let s2 := (x / 10 ^ (nd + 1 - k))%Z in
  fold_left (pick_digits x k)
            [(s1, nd); ((s1 + 1)%Z, nd); (s2, (nd + 1)%Z);
             ((s2 + 1)%Z, (nd + 1)%Z)]
            None.

Fixpoint shortest (fuel : nat) (x nd k : Z) : option (Z * Z * Z) :=
  match fuel with
  | O => None
  | S f =>
      match shortest_at x nd k with
      | Some (s, n) => Some (s, n, k)
      | None => shortest f x nd (k + 1)%Z
      end
  end.

(** [String(x)] for a double that is a natural number: its decimal digits
    below 2^53; from there on the shortest digits that give [x] back,
    followed by zeros up to 21 digits and in exponent notation beyond.
    Seventeen digits always give a double back, so the search succeeds. *)
Definition String_of_double (x : Z) : str :=
  if (x <? two53)%Z then decimal x
  else
    match shortest 17 x (Z.of_nat (length (decimal x))) 1 with
    | Some (s, n, k) =>
        if (n <=? 21)%Z then decimal s ++ repeat "0"%char (Z.to_nat (n - k))
        else
          match decimal s with
          | d :: ds =>
              d :: match ds with [] => [] | _ :: _ => "."%char :: ds end
                ++ lit "e+" ++ decimal (n - 1)
          | [] => []
          end
    | None => decimal x
    end.

(** [String(n)] for the number that a natural number [n] is as a double:
    [String(maxNumber + 1)] is [String_of_Z (maxNumber + 1)]. *)
Definition String_of_Z (n : Z) : str := String_of_double (to_double n).

(** [s.padStart(w, "0")] *)
Definition padStart0 (w : nat) (s : str) : str :=
  repeat "0"%char (w - length s) ++ s.

Fixpoint take_while (p : ascii -> bool) (s : str) : str :=
  match s with
  | c :: s' => if p c then c :: take_while p s' else []
  | [] => []
  end.

Fixpoint drop_while (p : ascii -> bool) (s : str) : str :=
  match s with
  | c :: s' => if p c then drop_while p s' else s
  | [] => []
  end.

(** ** Front matter objects *)

(** A front-matter value as [parseFrontmatter] builds it: a string or an
    array of strings. *)
Inductive value : Type :=
| VStr (s : str)
| VArr (l : list str).

(** An object with string keys, in insertion order. *)
Definition obj := list (str * value).

Fixpoint obj_get (k : str) (o : obj) : option value :=
  match o with
  | [] => None
  | (k', v) :: o' => if str_eqb k' k then Some v else obj_get k o'
  end.

Fixpoint obj_put (k : str) (v : value) (o : obj) : obj :=
  match o with
  | [] => [(k, v)]
  | (k', v') :: o' =>
      if str_eqb k' k then (k, v) :: o' else (k', v') :: obj_put k v o'
  end.

Definition proto_key : str := lit "__proto__".

(** [o[k] = v] on an ordinary object.  Assigning a string or an array to
    [__proto__] creates no own property, and none of the properties the
    scripts read is inherited from an array, so the assignment is dropped. *)
Definition obj_set (k : str) (v : value) (o : obj) : obj :=
  if str_eqb k proto_key then o else obj_put k v o.

(** Array-index keys: canonical decimal strings of 0 .. 2^32 - 2. *)
Definition is_array_index (k : str) : bool :=
  match k with
  | [] => false
  | c :: rest =>
      forallb is_digit k
      && (negb (ascii_eqb c "0"%char) || match rest with [] => true | _ => false end)
      && (digits_go 0 k <=? 4294967294)%Z
  end.

Definition is_index_entry (e : str * value) : bool := is_array_index (fst e).

Fixpoint insert_index (e : str * value) (l : obj) : obj :=
  match l with
  | [] => [e]
  | e' :: l' =>
      if (digits_go 0 (fst e) <? digits_go 0 (fst e'))%Z
      then e :: l
      else e' :: insert_index e l'
  end.

(** [Object.entries(o)]: array-index keys in ascending order, then the other
    keys in insertion order. *)
Definition entries (o : obj) : obj :=
  fold_right insert_index [] (filter is_index_entry o)
  ++ filter (fun e => negb (is_index_entry e)) o.

(** ** parseFrontmatter *)

Definition k_status : str := lit "status".
Definition k_priority : str := lit "priority".
Definition k_issue_id : str := lit "issue_id".
Definition k_linear_issue : str := lit "linear_issue".
Definition k_linear_url : str := lit "linear_url".
Definition k_linear_cycle : str := lit "linear_cycle".
Definition k_tags : str := lit "tags".
Definition k_dependencies : str := lit "dependencies".
Definition k_completed_at : str := lit "completed_at".
Definition k_blocked_at : str := lit "blocked_at".
Definition k_blocked_reason : str := lit "blocked_reason".
Definition k_pr_url : str := lit "pr_url".

Definition default_frontmatter : obj :=
  [(k_status, VStr (lit "pending")); (k_priority, VStr (lit "p3"))].

(** The opening line of the block, and its closing line with the newline
    before it. *)
Definition fm_open : str := lit "---" ++ [nl].
Definition fm_close : str := nl :: lit "---" ++ [nl].

(** The match of the front-matter pattern: the content opens with three
    dashes and a newline; group 1 is read lazily up to the first closing
    line of three dashes, group 2 is all that follows it. *)
Definition match_frontmatter (content : str) : option (str * str) :=
  if startsWith fm_open content
  then cut_first fm_close (skipn (length fm_open) content)
  else None.

Definition parse_value (v : str) : value :=
  if startsWith (lit "[") v
  then VArr (map (fun s => strip_quotes (trim s))
                 (split_char ","%char (slice_1_m1 v)))
  else if startsWith [dq] v then VStr (slice_1_m1 v)
  else VStr v.

(** One turn of the loop over the lines of the block. *)
Definition parse_line (fm : obj) (line : str) : obj :=
  match cut_at ":"%char line with
  | None => fm
  | Some (k, v) =>
      let key := trim k in
      let value := trim v in
      match value with
      | [] => fm
      | _ :: _ => obj_set key (parse_value value) fm
      end
  end.

Definition parse_yaml (yamlStr : str) : obj :=
  fold_left parse_line (split_char nl yamlStr) [].

Record parsed : Type := mkParsed { frontmatter : obj; body : str }.

Definition parseFrontmatter (content : str) : parsed :=
  match match_frontmatter content with
  | None => mkParsed default_frontmatter content
  | Some (yamlStr, b) => mkParsed (parse_yaml yamlStr) b
  end.

(** ** serializeFrontmatter *)

Definition quoted (s : str) : str := dq :: s ++ [dq].

Definition ser_value (v : value) : str :=
  match v with
  | VArr l => lit "[" ++ join (lit ", ") (map quoted l) ++ lit "]"
  | VStr s => if includes (lit " ") s then quoted s else s
  end.

Definition ser_line (e : str * value) : str :=
  fst e ++ lit ": " ++ ser_value (snd e).

Definition serializeFrontmatter (fm : obj) : str :=
  join [nl] (map ser_line (entries fm)).

(** The text of a todo file: opening line, serialized front matter, closing
    line, body. *)
Definition render (fm : obj) (b : str) : str :=
  fm_open ++ serializeFrontmatter fm ++ fm_close ++ b.

(** ** extractTitle *)

(** The title pattern tried just after a hash sign: the blank run is taken
    as long as possible and gives characters back until the group finds a
    character that is not a line terminator; the group then runs to the end
    of its line. *)
Definition title_at (s : str) : option str :=
  let w := take_while is_ws s in
  let rest := drop_while is_ws s in
  match w with
  | [] => None
  | _ :: w' =>
      match rest with
      | _ :: _ => Some (take_while (fun c => negb (is_lt c)) rest)
      | [] =>
          match find (fun c => negb (is_lt c)) (rev w') with
          | Some c => Some [c]
          | None => None
          end
      end
  end.

(** The leftmost match of the title pattern under the multi-line flag;
    [at_start] tells whether the position is the start of a line. *)
Fixpoint title_scan (at_start : bool) (s : str) : option str :=
  match s with
  | [] => None
  | c :: s' =>
      match (if at_start && ascii_eqb c "#"%char then title_at s' else None) with
      | Some g => Some g
      | None => title_scan (is_lt c) s'
      end
  end.

Definition extractTitle (content : str) : str :=
  match title_scan true content with
  | Some g => trim g
  | None => lit "Untitled"
  end.

(** ** File names *)

Record fileparts : Type := mkParts {
  fp_number : str;
  fp_status : str;
  fp_priority : str;
  fp_slug : str
}.

Definition md_ext : str := lit ".md".

Definition unknown_parts (filename : str) : fileparts :=
  mkParts (lit "000") (lit "unknown") (lit "p3") filename.

Definition is_tier_digit (c : ascii) : bool :=
  ascii_eqb c "1"%char || ascii_eqb c "2"%char || ascii_eqb c "3"%char.

(** The match of the file-name pattern: digits, dash, word characters,
    dash, p1/p2/p3, dash, slug, extension.  A dash is neither a digit nor a
    word character, so each of the first two groups is the longest run of
    its class; the last group is what precedes the final extension, not
    empty and free of line terminators. *)
Definition parseFilename (filename : str) : fileparts :=
  let ds := take_while is_digit filename in
  match ds, drop_while is_digit filename with
  | _ :: _, "-"%char :: r2 =>
      let st := take_while is_word r2 in
      match st, drop_while is_word r2 with
      | _ :: _, "-"%char :: "p"%char :: d :: "-"%char :: r4 =>
          if is_tier_digit d && endsWith md_ext r4 && (4 <=? length r4)
             && forallb (fun c => negb (is_lt c)) r4
          then mkParts ds st ["p"%char; d] (firstn (length r4 - 3) r4)
          else unknown_parts filename
      | _, _ => unknown_parts filename
      end
  | _, _ => unknown_parts filename
  end.

Definition buildFilename (number status priority slug : str) : str :=
  number ++ lit "-" ++ status ++ lit "-" ++ priority ++ lit "-" ++ slug ++ md_ext.

(** ** Effects: state and exceptions *)

Inductive exn : Type :=
| TypeError                 (* a method called on a value that lacks it *)
| ENOENT (path : str)       (* a file that does not exist *)
| ExitFailure               (* process.exit(1) *)
| CommandFailed (msg : str) (* a shell command that exits with an error *).

Definition result (A : Type) : Type := (exn + A)%type.

Definition M (St A : Type) : Type := St -> result A * St.

Definition ret {St A : Type} (a : A) : M St A := fun s => (inr a, s).

Definition throw {St A : Type} (e : exn) : M St A := fun s => (inl e, s).

Definition bind {St A B : Type} (m : M St A) (f : A -> M St B) : M St B :=
  fun s =>
    match m s with
    | (inl e, s') => (inl e, s')
    | (inr a, s') => f a s'
    end.

Definition try_catch {St A : Type} (m : M St A) (h : exn -> M St A) : M St A :=
  fun s =>
    match m s with
    | (inl e, s') => h e s'
    | (inr a, s') => (inr a, s')
    end.

Definition lift {St A : Type} (r : result A) : M St A := fun s => (r, s).

Declare Scope monad_scope.
Delimit Scope monad_scope with monad.
Notation "x <- m ;; k" := (bind m (fun x => k))
  (at level 61, m at next level, right associativity) : monad_scope.
Notation "m ;;; k" := (bind m (fun _ => k))
  (at level 61, right associativity) : monad_scope.
Open Scope monad_scope.

(** A for-of loop whose body updates an accumulator. *)
Fixpoint for_each {St A B : Type} (l : list A) (acc : B)
         (step : A -> B -> M St B) : M St B :=
  match l with
  | [] => ret acc
  | x :: l' => acc' <- step x acc ;; for_each l' acc' step
  end.

(** ** The todos directory *)

Inductive fs_op : Type :=
| OpReaddir
| OpRead (f : str)
| OpWrite (f content : str)
| OpRename (old new : str)
| OpUnlink (f : str).

(** The directory [TODOS_DIR], which exists: its files, by name, in the
    order in which [readdir] returns them, and the file-system calls made
    so far (oldest first). *)
Record fs : Type := mkFs {
  files : list (str * str);
  trace : list fs_op
}.

Definition log (op : fs_op) (s : fs) : fs :=
  mkFs (files s) (trace s ++ [op]).

Fixpoint lookup (f : str) (d : list (str * str)) : option str :=
  match d with
  | [] => None
  | (g, c) :: d' => if str_eqb g f then Some c else lookup f d'
  end.

(** Writing a file: the content of an existing name is replaced in place.
    Where [readdir] lists a new name is up to the file system; the model
    puts it after the others, and no statement below depends on its
    place. *)
Fixpoint store (f c : str) (d : list (str * str)) : list (str * str) :=
  match d with
  | [] => [(f, c)]
  | (g, c') :: d' =>
      if str_eqb g f then (f, c) :: d' else (g, c') :: store f c d'
  end.

Definition remove_file (f : str) (d : list (str * str)) : list (str * str) :=
  filter (fun e => negb (str_eqb (fst e) f)) d.

(** [readdir(TODOS_DIR)] on the directory, which exists. *)
Definition readdir : M fs (list str) :=
  fun s => (inr (map fst (files s)), log OpReaddir s).

(** [readFile(join(TODOS_DIR, f))] for a name [f] that is one path
    segment: the path is then the entry [f] of the directory.  The same
    holds of [writeFile], [rename] and [unlink] below. *)
Definition readFile (f : str) : M fs str :=
  fun s =>
    match lookup f (files s) with
    | Some c => (inr c, log (OpRead f) s)
    | None => (inl (ENOENT f), log (OpRead f) s)
    end.

Definition writeFile (f c : str) : M fs unit :=
  fun s => (inr tt, mkFs (store f c (files s)) (trace s ++ [OpWrite f c])).

(** How [rename] rewrites one entry of the directory. *)
Definition rename_entry (old new : str) (e : str * str) : str * str :=
  if str_eqb (fst e) old then (new, snd e) else e.

(** [rename(old, new)] replaces a file that already bears the new name;
    renaming a file to its own name changes nothing. *)
Definition rename (old new : str) : M fs unit :=
  fun s =>
    match lookup old (files s) with
    | Some c =>
        if str_eqb old new then (inr tt, log (OpRename old new) s)
        else
          (inr tt,
           mkFs (map (rename_entry old new) (remove_file new (files s)))
                (trace s ++ [OpRename old new]))
    | None => (inl (ENOENT old), log (OpRename old new) s)
    end.

Definition unlink (f : str) : M fs unit :=
  fun s =>
    match lookup f (files s) with
    | Some _ => (inr tt, mkFs (remove_file f (files s)) (trace s ++ [OpUnlink f]))
    | None => (inl (ENOENT f), log (OpUnlink f) s)
    end.

(** ** Todos *)

Record Todo : Type := mkTodo {
  t_filename : str;
  t_filepath : str;
  t_frontmatter : obj;
  t_title : str;
  t_content : str;
  t_slug : str;
  t_number : str
}.

(** The comparator of [listTodos]. *)

Definition cycleOrder (cycle : option value) : result Z :=
  match cycle with
  | None => inr 3%Z
  | Some (VStr []) => inr 3%Z
  | Some (VStr s) =>
      if includes (lit "current") (toLowerCase s) then inr 1%Z else inr 2%Z
  | Some (VArr _) => inl TypeError
  end.

(** The property key a front-matter value turns into. *)
Definition property_key (v : option value) : str :=
  match v with
  | None => lit "undefined"
  | Some (VStr s) => s
  | Some (VArr l) => join (lit ",") l
  end.

(** [priorityOrder[p]] as an operand of a subtraction: 1, 2, 3 for the three
    tiers; any other key yields a value whose difference is NaN. *)
Definition priorityOrder (p : option value) : num :=
  let k := property_key p in
  if str_eqb k (lit "p1") then Some 1%Z
  else if str_eqb k (lit "p2") then Some 2%Z
  else if str_eqb k (lit "p3") then Some 3%Z
  else None.

Definition num_is_zero (n : num) : bool :=
  match n with Some z => (z =? 0)%Z | None => false end.

Definition compareTodos (a b : Todo) : result num :=
  match cycleOrder (obj_get k_linear_cycle (t_frontmatter a)) with
  | inl e => inl e
  | inr ca =>
      match cycleOrder (obj_get k_linear_cycle (t_frontmatter b)) with
      | inl e => inl e
      | inr cb =>
          let cycleDiff := (ca - cb)%Z in
          if negb (cycleDiff =? 0)%Z then inr (Some cycleDiff)
          else
            let priorityDiff :=
              num_sub (priorityOrder (obj_get k_priority (t_frontmatter a)))
                      (priorityOrder (obj_get k_priority (t_frontmatter b))) in
            if negb (num_is_zero priorityDiff) then inr priorityDiff
            else inr (num_sub (parseInt (t_number a)) (parseInt (t_number b)))
      end
  end.

(** [Array.prototype.sort] with a comparator: a stable sort; a comparator
    result that is NaN counts as zero.  Written as an insertion sort, which
    is the one stable order whenever the comparator is consistent, as it
    is on items with a priority tier and a string cycle.  On other items
    the order that the engine returns may differ; the sort still returns a
    rearrangement of its input, or throws what the comparator throws, and
    compares every element of a list of two or more. *)
Definition comes_after (v : num) : bool :=
  match v with Some z => (0 <? z)%Z | None => false end.

Fixpoint insert_by {A : Type} (cmp : A -> A -> result num) (x : A) (l : list A)
  : result (list A) :=
  match l with
  | [] => inr [x]
  | y :: l' =>
      match cmp x y with
      | inl e => inl e
      | inr v =>
          if comes_after v
          then match insert_by cmp x l' with
               | inl e => inl e
               | inr r => inr (y :: r)
               end
          else inr (x :: l)
      end
  end.

Fixpoint sort_by {A : Type} (cmp : A -> A -> result num) (l : list A)
  : result (list A) :=
  match l with
  | [] => inr []
  | x :: l' =>
      match sort_by cmp l' with
      | inl e => inl e
      | inr s => insert_by cmp x s
      end
  end.

(** [frontmatter.status !== statusFilter] under a truthy filter. *)
Definition status_is (fm : obj) (s : str) : bool :=
  match obj_get k_status fm with
  | Some (VStr x) => str_eqb x s
  | _ => false
  end.

Definition filtered_out (statusFilter : option str) (fm : obj) : bool :=
  match statusFilter with
  | None => false
  | Some [] => false
  | Some s => negb (status_is fm s)
  end.

Section TodoStore.

(** The directory of the todo files, as the module constant [TODOS_DIR]. *)
Variable TODOS_DIR : str.

(** [join(TODOS_DIR, filename)] for a file name of the directory. *)
Definition filepath_of (filename : str) : str :=
  TODOS_DIR ++ lit "/" ++ filename.

Definition todo_of (filename content : str) : Todo :=
  let p := parseFrontmatter content in
  let parts := parseFilename filename in
  mkTodo filename (filepath_of filename) (frontmatter p)
         (extractTitle (body p)) (body p) (fp_slug parts) (fp_number parts).

(** The body of the loop of [listTodos] over the directory entries. *)
Definition list_step (statusFilter : option str) (filename : str)
           (todos : list Todo) : M fs (list Todo) :=
  if negb (endsWith md_ext filename) then ret todos
  else
    content <- readFile filename ;;
    let t := todo_of filename content in
    if filtered_out statusFilter (t_frontmatter t) then ret todos
    else ret (todos ++ [t]).

Definition listTodos (statusFilter : option str) : M fs (list Todo) :=
  names <- readdir ;;
  todos <- for_each names [] (list_step statusFilter) ;;
  lift (sort_by compareTodos todos).

(** [getNextTodo] *)

(** The truthy [issue_id] values of the completed todos; an array never
    equals a dependency string, so only strings are kept. *)
Definition completed_id (t : Todo) : option str :=
  match obj_get k_issue_id (t_frontmatter t) with
  | Some (VStr (c :: s)) => Some (c :: s)
  | _ => None
  end.

Fixpoint completedIds (l : list Todo) : list str :=
  match l with
  | [] => []
  | t :: l' =>
      match completed_id t with
      | Some i => i :: completedIds l'
      | None => completedIds l'
      end
  end.

Definition set_has (ids : list str) (d : str) : bool :=
  existsb (str_eqb d) ids.

Definition not_blank (d : str) : bool :=
  match d with
  | [] => false
  | _ :: _ => match trim d with [] => false | _ :: _ => true end
  end.

(** [(todo.frontmatter.dependencies || []).filter(...)]: a missing or empty
    value gives no dependency, an array is filtered, a non-empty string has
    no [filter] method. *)
Definition deps_of (t : Todo) : result (list str) :=
  match obj_get k_dependencies (t_frontmatter t) with
  | None => inr []
  | Some (VStr []) => inr []
  | Some (VStr (_ :: _)) => inl TypeError
  | Some (VArr l) => inr (filter not_blank l)
  end.

Definition unmetDeps (ids : list str) (deps : list str) : list str :=
  filter (fun dep => negb (set_has ids dep)) deps.

Fixpoint scan_next (ids : list str) (todos : list Todo) : result (option Todo) :=
  match todos with
  | [] => inr None
  | todo :: rest =>
      match deps_of todo with
      | inl e => inl e
      | inr deps =>
          match unmetDeps ids deps with
          | [] => inr (Some todo)
          | _ :: _ => scan_next ids rest
          end
      end
  end.

Definition getNextTodo : M fs (option Todo) :=
  todos <- listTodos (Some (lit "pending")) ;;
  completed <- listTodos (Some (lit "completed")) ;;
  lift (scan_next (completedIds completed) todos).

(** The [get] command of the CLI: the item stored under a file name. *)
Definition getTodo (filename : str) : M fs Todo :=
  content <- readFile filename ;;
  ret (todo_of filename content).

(** [completeTodo] and [blockTodo].  [now] is the value of
    [new Date().toISOString()] at the call; the result is the new file name
    that the function prints. *)

Definition write_and_rename (filename newContent newFilename : str) : M fs unit :=
  writeFile filename newContent ;;;
  if negb (str_eqb filename newFilename)
  then rename filename newFilename
  else ret tt.

Definition completeTodo (now : str) (filename : str) (prUrl : option str)
  : M fs str :=
  content <- readFile filename ;;
  let p := parseFrontmatter content in
  let parts := parseFilename filename in
  let fm := obj_put k_status (VStr (lit "completed")) (frontmatter p) in
  let fm := obj_put k_completed_at (VStr now) fm in
  let fm := match prUrl with
            | Some (c :: u) => obj_put k_pr_url (VStr (c :: u)) fm
            | _ => fm
            end in
  let newContent := render fm (body p) in
  let newFilename :=
    buildFilename (fp_number parts) (lit "completed") (fp_priority parts)
                  (fp_slug parts) in
  write_and_rename filename newContent newFilename ;;;
  ret newFilename.

Definition blocked_frontmatter (now reason : str) (fm : obj) : obj :=
  obj_put k_blocked_reason (VStr reason)
    (obj_put k_blocked_at (VStr now)
       (obj_put k_status (VStr (lit "blocked")) fm)).

Definition blockTodo (now : str) (filename reason : str) : M fs str :=
  content <- readFile filename ;;
  let p := parseFrontmatter content in
  let parts := parseFilename filename in
  let fm := blocked_frontmatter now reason (frontmatter p) in
  let newContent := render fm (body p) in
  let newFilename :=
    buildFilename (fp_number parts) (lit "blocked") (fp_priority parts)
                  (fp_slug parts) in
  write_and_rename filename newContent newFilename ;;;
  ret newFilename.

(** [deleteTodo]: a failure of [unlink] is printed and ends the process
    with status 1. *)
Definition deleteTodo (filename : str) : M fs unit :=
  try_catch (unlink filename) (fun _ => throw ExitFailure).

(** [getNextNumber] *)

Definition max_step (filename : str) (maxNumber : Z) : Z :=
  if negb (endsWith md_ext filename) then maxNumber
  else match parseInt (fp_number (parseFilename filename)) with
       | Some n => if (maxNumber <? n)%Z then n else maxNumber
       | None => maxNumber
       end.

Definition maxNumber_of (names : list str) : Z :=
  fold_left (fun m f => max_step f m) names 0%Z.

Definition getNextNumber : M fs str :=
  names <- readdir ;;
  ret (padStart0 3 (String_of_Z (maxNumber_of names + 1))).

(** [createTodo] *)

Inductive tier : Type := P1 | P2 | P3.

Definition tier_str (p : tier) : str :=
  match p with P1 => lit "p1" | P2 => lit "p2" | P3 => lit "p3" end.

Record CreateOptions : Type := mkOptions {
  priority : tier;
  title : str;
  description : option str;
  tags : option (list str);
  parentIssue : option str;
  linearIssue : option str;
  linearUrl : option str;
  dependencies : option (list str)
}.

(** The replace call that turns every run of characters outside a-z and 0-9
    into one dash; [in_run] tells whether such a run is being read. *)
Fixpoint collapse_runs (in_run : bool) (s : str) : str :=
  match s with
  | [] => []
  | c :: s' =>
      if is_lower_alnum c then c :: collapse_runs false s'
      else if in_run then collapse_runs true s'
      else "-"%char :: collapse_runs true s'
  end.

Definition is_dash (c : ascii) : bool := ascii_eqb c "-"%char.

(** The replace call that deletes a dash at the start and a dash at the end. *)
Definition strip_dashes (s : str) : str :=
  let s1 := match s with
            | c :: r => if is_dash c then r else s
            | [] => []
            end in
  match rev s1 with
  | c :: _ => if is_dash c then removelast s1 else s1
  | [] => s1
  end.

Definition slugify (t : str) : str :=
  firstn 50 (strip_dashes (collapse_runs false (toLowerCase t))).

Definition truthy (o : option str) : option str :=
  match o with
  | Some (c :: s) => Some (c :: s)
  | _ => None
  end.

Definition new_frontmatter (number : str) (options : CreateOptions) : obj :=
  let fm := [(k_status, VStr (lit "pending"));
             (k_priority, VStr (tier_str (priority options)));
             (k_issue_id, VStr number);
             (k_tags, VArr (match tags options with Some l => l | None => [] end))] in
  let fm := match truthy (linearIssue options) with
            | Some i => obj_put k_linear_issue (VStr i) fm
            | None => fm
            end in
  let fm := match truthy (linearUrl options) with
            | Some u => obj_put k_linear_url (VStr u) fm
            | None => fm
            end in
  match dependencies options with
  | Some (d :: ds) => obj_put k_dependencies (VArr (d :: ds)) fm
  | _ => fm
  end.

Definition new_body (options : CreateOptions) : str :=
  [nl] ++ lit "# " ++ title options ++ [nl; nl]
  ++ lit "## Problem Statement" ++ [nl; nl]
  ++ match truthy (description options) with
     | Some d => d
     | None => lit "[To be defined]"
     end
  ++ [nl; nl]
  ++ match truthy (parentIssue options) with
     | Some i =>
         lit "## Origin" ++ [nl; nl]
         ++ lit "Created as follow-up from todo " ++ i
         ++ lit " during code review." ++ [nl]
     | None => []
     end
  ++ [nl] ++ lit "## Acceptance Criteria" ++ [nl; nl]
  ++ lit "- [ ] [Define acceptance criteria]" ++ [nl; nl]
  ++ lit "## Notes" ++ [nl; nl]
  ++ lit "[Add implementation notes here]" ++ [nl].

(** What [createTodo] prints. *)
Record created : Type := mkCreated {
  c_filename : str;
  c_filepath : str;
  c_number : str;
  c_linear_issue : option str
}.

Definition createTodo (options : CreateOptions) : M fs created :=
  number <- getNextNumber ;;
  let slug := slugify (title options) in
  let filename := buildFilename number (lit "pending")
                                (tier_str (priority options)) slug in
  let fm := new_frontmatter number options in
  let content := render fm (new_body options) in
  writeFile filename content ;;;
  ret (mkCreated filename (filepath_of filename) number
                 (truthy (linearIssue options))).

End TodoStore.

(** ** parseCreateArgs *)

Record PartialOptions : Type := mkPartial {
  o_priority : option tier;
  o_title : option str;
  o_description : option str;
  o_tags : option (list str);
  o_parentIssue : option str;
  o_linearIssue : option str;
  o_linearUrl : option str;
  o_dependencies : option (list str)
}.

Definition no_options : PartialOptions :=
  mkPartial None None None None None None None None.

Definition tier_of (s : option str) : option tier :=
  match s with
  | Some v =>
      if str_eqb v (lit "p1") then Some P1
      else if str_eqb v (lit "p2") then Some P2
      else if str_eqb v (lit "p3") then Some P3
      else None
  | None => None
  end.

(** [nextArg.split(",").map((t) => t.trim())]; there is no [split] on a
    missing argument. *)
Definition comma_list (nextArg : option str) : result (list str) :=
  match nextArg with
  | Some v => inr (map trim (split_char ","%char v))
  | None => inl TypeError
  end.

(** One turn of the switch on [arg]; the options are those read so far. *)
Definition read_option (arg : str) (nextArg : option str) (o : PartialOptions)
  : result (PartialOptions * bool) :=
  let '(mkPartial pr ti de ta pa li lu dp) := o in
  if str_eqb arg (lit "--priority") then
    inr (mkPartial (match tier_of nextArg with Some p => Some p | None => pr end)
                   ti de ta pa li lu dp, true)
  else if str_eqb arg (lit "--title") then
    inr (mkPartial pr nextArg de ta pa li lu dp, true)
  else if str_eqb arg (lit "--description") then
    inr (mkPartial pr ti nextArg ta pa li lu dp, true)
  else if str_eqb arg (lit "--tags") then
    match comma_list nextArg with
    | inl e => inl e
    | inr l => inr (mkPartial pr ti de (Some l) pa li lu dp, true)
    end
  else if str_eqb arg (lit "--parent-issue") then
    inr (mkPartial pr ti de ta nextArg li lu dp, true)
  else if str_eqb arg (lit "--linear-issue") then
    inr (mkPartial pr ti de ta pa nextArg lu dp, true)
  else if str_eqb arg (lit "--linear-url") then
    inr (mkPartial pr ti de ta pa li nextArg dp, true)
  else if str_eqb arg (lit "--dependencies") then
    match comma_list nextArg with
    | inl e => inl e
    | inr l => inr (mkPartial pr ti de ta pa li lu (Some l), true)
    end
  else inr (o, false).

(** The loop over [args]; [skip] is set when the previous turn consumed the
    argument at hand as its value. *)
Fixpoint read_args (skip : bool) (args : list str) (o : PartialOptions)
  : result PartialOptions :=
  match args with
  | [] => inr o
  | arg :: rest =>
      if skip then read_args false rest o
      else match read_option arg (hd_error rest) o with
           | inl e => inl e
           | inr (o', consumed) => read_args consumed rest o'
           end
  end.

Definition parseCreateArgs (args : list str) : result CreateOptions :=
  match read_args false args no_options with
  | inl e => inl e
  | inr o =>
      match o_priority o, truthy (o_title o) with
      | Some p, Some t =>
          inr (mkOptions p t (o_description o) (o_tags o) (o_parentIssue o)
                         (o_linearIssue o) (o_linearUrl o) (o_dependencies o))
      | _, _ => inl ExitFailure
      end
  end.

(** The [create] command of the CLI. *)
Definition create_command (TODOS_DIR : str) (args : list str) : M fs created :=
  options <- lift (parseCreateArgs args) ;;
  createTodo TODOS_DIR options.

(** ** Worktrees *)

(** What the worktree script asks of its environment: a shell command run in
    a directory, and the [rm] and [access] calls of the file-system API. *)
Inductive effect : Type :=
| Shell (command : str) (cwd : str)
| Rm (path : str)
| Access (path : str).

Record WorktreeInfo : Type := mkInfo {
  w_name : str;
  w_path : str;
  w_branch : str;
  w_commit : str;
  w_isRalph : bool
}.

Inductive ResultData : Type :=
| DataCreated (name path branch : str)
| DataDeleted (name : str) (manualCleanup : bool)
| DataCleanup (cleaned kept errors : list str).

Record CommandResult : Type := mkResult {
  success : bool;
  data : option ResultData;
  error : option str
}.

(** [(err as Error).message] *)
Definition message (e : exn) : str :=
  match e with
  | TypeError => lit "TypeError"
  | ENOENT p => lit "ENOENT: no such file or directory, " ++ p
  | ExitFailure => lit "exit"
  | CommandFailed m => m
  end.

Definition or_empty (o : option str) : str :=
  match o with Some s => s | None => [] end.

(** [path.split("/").pop() || ""] *)
Definition last_segment (path : str) : str :=
  last (split_char "/"%char path) [].

Definition ralph_prefix : str := lit "ralph-".

(** One entry of the porcelain listing; [None] when it has no path line. *)
Definition parse_entry (entry : str) : option WorktreeInfo :=
  let lines := split_char nl entry in
  let pathLine := find (startsWith (lit "worktree ")) lines in
  let headLine := find (startsWith (lit "HEAD ")) lines in
  let branchLine := find (startsWith (lit "branch ")) lines in
  match pathLine with
  | None => None
  | Some pl =>
      let path := replace_first (lit "worktree ") [] pl in
      let name := last_segment path in
      let commit :=
        or_empty (option_map (replace_first (lit "HEAD ") []) headLine) in
      let branch :=
        or_empty (option_map (replace_first (lit "branch refs/heads/") [])
                             branchLine) in
      Some (mkInfo name path branch commit (startsWith ralph_prefix name))
  end.

Definition is_nonempty (s : str) : bool :=
  match s with [] => false | _ :: _ => true end.

Fixpoint parse_entries (all : bool) (entries : list str) : list WorktreeInfo :=
  match entries with
  | [] => []
  | entry :: rest =>
      match parse_entry entry with
      | Some w =>
          if all || w_isRalph w then w :: parse_entries all rest
          else parse_entries all rest
      | None => parse_entries all rest
      end
  end.

Definition parse_listing (all : bool) (output : str) : list WorktreeInfo :=
  parse_entries all (filter is_nonempty (split [nl; nl] output)).

Definition has_name (name : str) (l : list WorktreeInfo) : bool :=
  existsb (fun w => str_eqb (w_name w) name) l.

Definition find_name (name : str) (l : list WorktreeInfo) : option WorktreeInfo :=
  find (fun w => str_eqb (w_name w) name) l.

Section Worktrees.

(** The environment: its state, and how it answers an effect (standard
    output, or the error the call throws). *)
Variable World : Type.
Variable perform : effect -> World -> result str * World.

(** The module constants [REPO_ROOT] and [WORKTREES_DIR]. *)
Variable REPO_ROOT : str.
Variable WORKTREES_DIR : str.

(** The state threaded through the script: the environment and the effects
    performed so far (oldest first). *)
Definition env : Type := (World * list effect)%type.

Definition do_effect (e : effect) : M env str :=
  fun s =>
    let '(r, w') := perform e (fst s) in
    (r, (w', snd s ++ [e])).

(** [run(command, cwd)]: the trimmed standard output. *)
Definition run (command : str) (cwd : option str) : M env str :=
  out <- do_effect (Shell command (match truthy cwd with
                                   | Some d => d
                                   | None => REPO_ROOT
                                   end)) ;;
  ret (trim out).

Definition rm (path : str) : M env unit :=
  do_effect (Rm path) ;;; ret tt.

(** [join(WORKTREES_DIR, name)] for a name that is one path segment, on
    which joining is concatenation; for a name with dot segments or
    slashes [join] would normalise the path. *)
Definition worktree_path (name : str) : str :=
  WORKTREES_DIR ++ lit "/" ++ name.

Definition cmd_list : str := lit "git worktree list --porcelain".
Definition cmd_fetch : str := lit "git fetch origin main:main || true".
Definition cmd_add (path branch : str) : str :=
  lit "git worktree add " ++ quoted path ++ lit " -b " ++ quoted branch
  ++ lit " main".
Definition cmd_install : str := lit "bun install".
Definition cmd_remove (path : str) : str :=
  lit "git worktree remove " ++ quoted path ++ lit " --force".
Definition cmd_prune : str := lit "git worktree prune".
Definition cmd_branch_delete (branch : str) : str :=
  lit "git branch -D " ++ quoted branch ++ lit " 2>/dev/null || true".

Definition listWorktrees (all : bool) : M env (list WorktreeInfo) :=
  output <- run cmd_list None ;;
  ret (parse_listing all output).

Definition failure (msg : str) : CommandResult :=
  mkResult false None (Some msg).

Definition already_exists (name : str) : str :=
  lit "Worktree " ++ name ++ lit " already exists".

Definition createWorktree (name branch : str) : M env CommandResult :=
  let worktreePath := worktree_path name in
  try_catch
    (existing <- listWorktrees true ;;
     if has_name name existing then ret (failure (already_exists name))
     else
       run cmd_fetch None ;;;
       run (cmd_add worktreePath branch) None ;;;
       run cmd_install (Some worktreePath) ;;;
       ret (mkResult true (Some (DataCreated name worktreePath branch)) None))
    (fun err =>
       ret (failure (lit "Failed to create worktree: " ++ message err))).

Definition deleteWorktree (name : str) : M env CommandResult :=
  let worktreePath := worktree_path name in
  try_catch
    (existing <- listWorktrees true ;;
     match find_name name existing with
     | None =>
         ret (failure (lit "Worktree " ++ name ++ lit " does not exist"))
     | Some worktree =>
         run (cmd_remove worktreePath) None ;;;
         run cmd_prune None ;;;
         try_catch (run (cmd_branch_delete (w_branch worktree)) None ;;; ret tt)
                   (fun _ => ret tt) ;;;
         ret (mkResult true (Some (DataDeleted name false)) None)
     end)
    (fun err =>
       try_catch
         (rm worktreePath ;;;
          run cmd_prune None ;;;
          ret (mkResult true (Some (DataDeleted name true)) None))
         (fun _ =>
            ret (failure (lit "Failed to delete worktree: " ++ message err)))).

(** The lists [cleaned] and [errors] that the loop of [cleanupWorktrees]
    fills. *)
Definition cleanup_step (worktree : WorktreeInfo) (acc : list str * list str)
  : M env (list str * list str) :=
  let '(cleaned, errors) := acc in
  if negb (w_isRalph worktree) then ret acc
  else
    try_catch
      (res <- deleteWorktree (w_name worktree) ;;
       if success res then ret (cleaned ++ [w_name worktree], errors)
       else ret (cleaned,
                 errors ++ [w_name worktree ++ lit ": "
                           ++ match error res with
                              | Some e => e
                              | None => lit "undefined"
                              end]))
      (fun err =>
         ret (cleaned, errors ++ [w_name worktree ++ lit ": " ++ message err])).

Definition cleanupWorktrees : M env CommandResult :=
  worktrees <- listWorktrees false ;;
  acc <- for_each worktrees ([], []) cleanup_step ;;
  let '(cleaned, errors) := acc in
  ret (mkResult (match errors with [] => true | _ :: _ => false end)
                (Some (DataCleanup cleaned [] errors)) None).

(** The deletions of [cleanupWorktrees] taken one by one: the results of
    [deleteWorktree] for each name, in order. *)
Fixpoint delete_each (names : list str) : M env (list CommandResult) :=
  match names with
  | [] => ret []
  | n :: rest =>
      r <- deleteWorktree n ;;
      rs <- delete_each rest ;;
      ret (r :: rs)
  end.

End Worktrees.

(** The names whose deletion succeeded, and the messages of the others. *)
Fixpoint cleaned_of (names : list str) (rs : list CommandResult) : list str :=
  match names, rs with
  | n :: names', r :: rs' =>
      if success r then n :: cleaned_of names' rs' else cleaned_of names' rs'
  | _, _ => []
  end.

Fixpoint errors_of (names : list str) (rs : list CommandResult) : list str :=
  match names, rs with
  | n :: names', r :: rs' =>
      if success r then errors_of names' rs'
      else (n ++ lit ": " ++ match error r with
                             | Some e => e
                             | None => lit "undefined"
                             end) :: errors_of names' rs'
  | _, _ => []
  end.

(** The effects of the worktree script that touch git or remove a
    directory: none of them reads an issue tracker. *)
Definition is_git_or_rm (e : effect) : bool :=
  match e with
  | Shell c _ => startsWith (lit "git ") c
  | Rm _ => true
  | Access _ => false
  end.

(** A computation that adds to the log only effects that satisfy [P]. *)
Definition only_effects {World A : Type} (P : effect -> bool)
           (m : M (World * list effect) A) : Prop :=
  forall w, exists new, snd (snd (m w)) = snd w ++ new /\ forallb P new = true.

(** A porcelain listing with the main worktree and one managed worktree on
    the branch feature/x. *)
Definition sample_listing : str :=
  lit "worktree /repo" ++ [nl] ++ lit "HEAD 1a2b3c" ++ [nl]
  ++ lit "branch refs/heads/main" ++ [nl; nl]
  ++ lit "worktree /repo/.worktrees/ralph-HOL-1" ++ [nl]
  ++ lit "HEAD 4d5e6f" ++ [nl] ++ lit "branch refs/heads/feature/x" ++ [nl].

Definition sample_repo : str := lit "/repo/".
Definition sample_worktrees : str := lit "/repo/.worktrees".

(** A scripted environment for running the worktree functions on examples:
    it answers the listing command with a fixed text, refuses the commands
    that start with one of the given prefixes, and accepts the others. *)
Module Scripted.

Record world : Type := mkWorld {
  listing : str;
  refused : list str
}.

Definition effect_text (e : effect) : str :=
  match e with
  | Shell c _ => c
  | Rm p => lit "rm " ++ p
  | Access p => lit "access " ++ p
  end.

Definition perform (e : effect) (w : world) : result str * world :=
  if existsb (fun p => startsWith p (effect_text e)) (refused w)
  then (inl (CommandFailed (lit "Command failed: " ++ effect_text e)), w)
  else if str_eqb (effect_text e) (lit "git worktree list --porcelain")
       then (inr (listing w), w)
       else (inr [], w).

End Scripted.

(** ** Notions used by the statements *)

(** The items that the loop of [listTodos] collects from a directory, in
    [readdir] order, before they are sorted. *)
Definition entry_todos (TODOS_DIR : str) (statusFilter : option str)
           (d : list (str * str)) (filename : str) : list Todo :=
  if negb (endsWith md_ext filename) then []
  else match lookup filename d with
       | Some content =>
           let t := todo_of TODOS_DIR filename content in
           if filtered_out statusFilter (t_frontmatter t) then [] else [t]
       | None => []
       end.

Definition dir_todos (TODOS_DIR : str) (statusFilter : option str)
           (d : list (str * str)) : list Todo :=
  flat_map (entry_todos TODOS_DIR statusFilter d) (map fst d).

(** The group of an item: its [linear_cycle], empty when absent. *)
Definition group (t : Todo) : str :=
  match obj_get k_linear_cycle (t_frontmatter t) with
  | Some (VStr s) => s
  | _ => []
  end.

Definition groupRank (t : Todo) : Z :=
  match group t with
  | [] => 3%Z
  | _ :: _ =>
      if includes (lit "current") (toLowerCase (group t)) then 1%Z else 2%Z
  end.

Definition tier_rank (p : tier) : Z :=
  match p with P1 => 1%Z | P2 => 2%Z | P3 => 3%Z end.

Definition todo_tier (t : Todo) : option tier :=
  match obj_get k_priority (t_frontmatter t) with
  | Some (VStr s) => tier_of (Some s)
  | _ => None
  end.

Definition priorityRank (t : Todo) : Z :=
  match todo_tier t with Some p => tier_rank p | None => 0%Z end.

(** The numeric id of an item as the comparator reads it: [parseInt] of the
    number in the file name, a double. *)
Definition numeric_id (t : Todo) : Z :=
  match parseInt (t_number t) with Some n => n | None => 0%Z end.

Definition sort_key (t : Todo) : Z * Z * Z :=
  (groupRank t, priorityRank t, numeric_id t).

(** The lexicographic order on keys. *)
Definition key_ltb (a b : Z * Z * Z) : bool :=
  let '(a1, a2, a3) := a in
  let '(b1, b2, b3) := b in
  (a1 <? b1)%Z
  || ((a1 =? b1)%Z && ((a2 <? b2)%Z || ((a2 =? b2)%Z && (a3 <? b3)%Z))).


(** [a] does not come after [b] in the order of their keys. *)
Definition le_by {A : Type} (key : A -> Z * Z * Z) (a b : A) : Prop :=
  key_ltb (key b) (key a) = false.

Definition key_le : Todo -> Todo -> Prop := le_by sort_key.

(** The front matter gives the two fields that the comparator reads the
    types of the [TodoFrontmatter] interface: a cycle that is a string when
    present, and a priority that is one of the three tiers. *)
Definition scalar_cycle (t : Todo) : Prop :=
  match obj_get k_linear_cycle (t_frontmatter t) with
  | Some (VArr _) => False
  | _ => True
  end.

Definition sortable (t : Todo) : Prop :=
  scalar_cycle t /\ todo_tier t <> None.

(** The [dependencies] field is an array when present. *)
Definition deps_typed (t : Todo) : Prop :=
  match obj_get k_dependencies (t_frontmatter t) with
  | Some (VStr (_ :: _)) => False
  | _ => True
  end.

(** The dependencies of an item after the blank entries are discarded. *)
Definition dependency_list (t : Todo) : list str :=
  match obj_get k_dependencies (t_frontmatter t) with
  | Some (VArr l) => filter not_blank l
  | _ => []
  end.

(** Every dependency is the id of a completed item. *)
Definition eligible (ids : list str) (t : Todo) : bool :=
  forallb (set_has ids) (dependency_list t).

(** The stable insertion sort by a key, without the comparator. *)
Fixpoint insert_keyed {A : Type} (key : A -> Z * Z * Z) (x : A) (l : list A)
  : list A :=
  match l with
  | [] => [x]
  | y :: l' =>
      if key_ltb (key y) (key x) then y :: insert_keyed key x l' else x :: l
  end.

Fixpoint sort_keyed {A : Type} (key : A -> Z * Z * Z) (l : list A) : list A :=
  match l with
  | [] => []
  | x :: l' => insert_keyed key x (sort_keyed key l')
  end.

(** The file-system calls of one listing. *)
Definition list_trace (d : list (str * str)) : list fs_op :=
  OpReaddir :: map OpRead (filter (endsWith md_ext) (map fst d)).

(** A string on one line. *)
Definition single_line (s : str) : Prop := ~ In nl s.

(** A one-line string that [serializeFrontmatter] writes and
    [parseFrontmatter] reads back unchanged: it contains a space (and is
    then written between quotes), or it is not empty, has no blank at either
    end and starts neither with a bracket nor with a quote. *)
Definition plain_scalar (s : str) : Prop :=
  includes (lit " ") s = true
  \/ (trim s = s
      /\ exists c r, s = c :: r /\ c <> "["%char /\ c <> dq).

(** File names of the shape number-state-priority-slug with the extension. *)
Definition well_formed_parts (n st sl : str) : Prop :=
  n <> [] /\ forallb is_digit n = true
  /\ st <> [] /\ forallb is_word st = true
  /\ sl <> [] /\ forallb (fun c => negb (is_lt c)) sl = true.

(** A string with no blank at either end. *)
Definition trimmed (s : str) : Prop :=
  trimStart s = s /\ trimStart (rev s) = rev s.

(** The items on which the comparator follows the key. *)
Definition comparable (t : Todo) : Prop :=
  sortable t /\ parseInt (t_number t) <> None.

(** A key with no colon, on one line, with no blank at either end. *)
Definition key_ok (k : str) : Prop :=
  ~ In ":"%char k /\ single_line k /\ trim k = k.

Definition value_ok (v : value) : Prop :=
  match v with
  | VStr s => single_line s
  | VArr l => Forall single_line l
  end.

(** The invariant of the objects that [parseFrontmatter] returns. *)
Definition clean (o : obj) : Prop :=
  NoDup (map fst o) /\ Forall (fun e => key_ok (fst e) /\ value_ok (snd e)) o.

(** What [parseFrontmatter] reads back from the line that
    [serializeFrontmatter] writes for a value; [None] when the line is
    skipped. *)
Definition reparse (v : value) : option value :=
  match trim (ser_value v) with
  | [] => None
  | c :: r => Some (parse_value (c :: r))
  end.

(** The numeric id in a file name: the exact value of the digits that
    [parseFilename] takes as the number. *)
Definition file_id (filename : str) : Z :=
  digits_go 0 (fp_number (parseFilename filename)).

(** No two dashes in a row. *)
Fixpoint no_double_dash (s : str) : bool :=
  match s with
  | a :: t => match t with
              | b :: _ => negb (is_dash a && is_dash b) && no_double_dash t
              | [] => true
              end
  | [] => true
  end.

Definition starts_with_dash (s : str) : bool :=
  match s with c :: _ => is_dash c | [] => false end.


(** ** Sample data *)


Definition sample_root : str := lit "/repo/todos".

(** A todo file with the given front-matter lines and body. *)
Definition front (lines : list str) (b : str) : str :=
  fm_open ++ join [nl] lines ++ fm_close ++ b.

Definition sample_dir : list (str * str) :=
  [ (lit "003-pending-p2-write-docs.md",
     front [lit "status: pending"; lit "priority: p2"; lit "issue_id: 003"]
           (lit "# Write docs"));
    (lit "002-pending-p3-refactor-api.md",
     front [lit "status: pending"; lit "priority: p3"; lit "issue_id: 002";
            lit "linear_cycle: Cycle 5";
            lit "dependencies: [" ++ quoted (lit "004") ++ lit "]"]
           (lit "# Refactor API"));
    (lit "001-pending-p1-fix-auth.md",
     front [lit "status: pending"; lit "priority: p1"; lit "issue_id: 001";
            lit "linear_cycle: " ++ quoted (lit "Current Cycle 4");
            lit "dependencies: [" ++ quoted (lit "005") ++ lit "]"]
           (lit "# Fix auth"));
    (lit "004-completed-p1-set-up-ci.md",
     front [lit "status: completed"; lit "priority: p1"; lit "issue_id: 004"]
           (lit "# Set up CI"));
    (lit "notes.txt", lit "not a todo") ].

Definition sample_fs : fs := mkFs sample_dir [].

(** The id that [getNextNumber] gives in the sample directory. *)
Definition c_number_of_sample : str :=
  padStart0 3 (String_of_Z (maxNumber_of (map fst (files sample_fs)) + 1)).


(** Two todo files whose front matter has no priority line. *)
Definition unranked_dir : list (str * str) :=
  [ (lit "002-pending-p1-b.md", front [lit "status: pending"] (lit "# B"));
    (lit "001-pending-p1-a.md", front [lit "status: pending"] (lit "# A")) ].

(** A directory with one file that has no front-matter block. *)
Definition unparsed_dir : list (str * str) :=
  [ (lit "001-pending-p1-a.md",
     front [lit "status: pending"; lit "priority: p1"] (lit "# A"));
    (lit "002-pending-p2-b.md", lit "status: pending" ++ [nl] ++ lit "# B") ].

(** ** Further functions of the scripts *)

(** [fm.linear_issue === linearIssue] *)
Definition has_linear_issue (linearIssue : str) (t : Todo) : bool :=
  match obj_get k_linear_issue (t_frontmatter t) with
  | Some (VStr s) => str_eqb s linearIssue
  | _ => false
  end.

(** The truthy [linear_issue] of an item: a non-empty string, or an array. *)
Definition linear_issue_of (t : Todo) : option value :=
  match obj_get k_linear_issue (t_frontmatter t) with
  | Some (VStr []) => None
  | Some v => Some v
  | None => None
  end.

Fixpoint issues_of (todos : list Todo) : list value :=
  match todos with
  | [] => []
  | t :: rest =>
      match linear_issue_of t with
      | Some v => v :: issues_of rest
      | None => issues_of rest
      end
  end.

Section LinearSync.

Variable TODOS_DIR : str.

Definition findByLinearIssue (linearIssue : str) : M fs (option Todo) :=
  todos <- listTodos TODOS_DIR None ;;
  ret (find (has_linear_issue linearIssue) todos).

Definition listLinearIssues : M fs (list value) :=
  todos <- listTodos TODOS_DIR None ;;
  ret (issues_of todos).

End LinearSync.

(** The replace call of [updateFromLinear] on the title line. *)

(** The index of the last character of [w] that is not a line terminator,
    counted from [i]. *)
Fixpoint last_nonlt (i : nat) (w : str) (best : option nat) : option nat :=
  match w with
  | [] => best
  | c :: r => last_nonlt (S i) r (if is_lt c then best else Some i)
  end.

(** How many characters the title pattern takes after a hash sign: the
    blank run and the rest of the line, or, when nothing follows the blank
    run, the blanks up to the last one that is not a line terminator. *)
Definition title_extent (s : str) : option nat :=
  let w := take_while is_ws s in
  let rest := drop_while is_ws s in
  match w with
  | [] => None
  | _ :: w' =>
      match rest with
      | _ :: _ =>
          Some (length w + length (take_while (fun c => negb (is_lt c)) rest))
      | [] =>
          match last_nonlt 0 w' None with
          | Some i => Some (i + 2)
          | None => None
          end
      end
  end.

(** The replacement text: in the template, a dollar sign followed by a
    dollar sign, an ampersand, a backquote or a quote stands for a dollar
    sign, the match, the text before it and the text after it; the pattern
    has no group, so any other dollar sign stands for itself.  [dollar]
    tells whether the previous character was a dollar sign still to be
    settled. *)
Fixpoint expand_go (before matched after : str) (dollar : bool) (t : str)
  : str :=
  match t with
  | [] => if dollar then ["$"%char] else []
  | c :: r =>
      if dollar then
        if ascii_eqb c "$"%char then
          "$"%char :: expand_go before matched after false r
        else if ascii_eqb c "&"%char then
          matched ++ expand_go before matched after false r
        else if ascii_eqb c "`"%char then
          before ++ expand_go before matched after false r
        else if ascii_eqb c sq then
          after ++ expand_go before matched after false r
        else "$"%char :: c :: expand_go before matched after false r
      else if ascii_eqb c "$"%char then
        expand_go before matched after true r
      else c :: expand_go before matched after false r
  end.

(** The leftmost match of the title pattern replaced by the template;
    [before_rev] is the text read so far, reversed. *)
Fixpoint replace_scan (template : str) (at_start : bool) (before_rev : str)
         (s : str) : option str :=
  match s with
  | [] => None
  | c :: s' =>
      match (if at_start && ascii_eqb c "#"%char then title_extent s'
             else None) with
      | Some n =>
          let before := rev before_rev in
          let matched := c :: firstn n s' in
          let after := skipn n s' in
          Some (before ++ expand_go before matched after false template
                ++ after)
      | None => replace_scan template (is_lt c) (c :: before_rev) s'
      end
  end.

Definition replace_title (newTitle : str) (b : str) : str :=
  match replace_scan (lit "# " ++ newTitle) true [] b with
  | Some r => r
  | None => b
  end.

Definition linear_frontmatter (linearIssue linearUrl : str) (fm : obj) : obj :=
  obj_put k_linear_url (VStr linearUrl)
    (obj_put k_linear_issue (VStr linearIssue) fm).

Definition updateFromLinear (filename linearIssue linearUrl : str)
           (newTitle : option str) : M fs unit :=
  content <- readFile filename ;;
  let p := parseFrontmatter content in
  let fm := linear_frontmatter linearIssue linearUrl (frontmatter p) in
  let newBody := match truthy newTitle with
                 | Some t => replace_title t (body p)
                 | None => body p
                 end in
  writeFile filename (render fm newBody).

Definition completed_frontmatter (now : str) (prUrl : option str) (fm : obj)
  : obj :=
  let fm := obj_put k_completed_at (VStr now)
              (obj_put k_status (VStr (lit "completed")) fm) in
  match prUrl with
  | Some (c :: u) => obj_put k_pr_url (VStr (c :: u)) fm
  | _ => fm
  end.

(** [worktreeExists] *)

(** What [worktreeExists] reports besides [success: true]. *)
Record ExistsData : Type := mkExists {
  x_exists : bool;
  x_name : str;
  x_path : option str;
  x_branch : option str
}.

Section WorktreeQueries.

Variable World : Type.
Variable perform : effect -> World -> result str * World.
Variable REPO_ROOT : str.
Variable WORKTREES_DIR : str.

Definition access (path : str) : M (env World) unit :=
  do_effect perform (Access path) ;;; ret tt.

Definition worktreeExists (name : str) : M (env World) ExistsData :=
  let worktreePath := worktree_path WORKTREES_DIR name in
  try_catch
    (access worktreePath ;;;
     worktrees <- listWorktrees perform REPO_ROOT true ;;
     let worktree := find_name name worktrees in
     ret (mkExists true name (Some worktreePath)
                   (option_map w_branch worktree)))
    (fun _ => ret (mkExists false name None None)).

Definition getWorktreePath (name : str) : str :=
  worktree_path WORKTREES_DIR name.

End WorktreeQueries.

(** ** Further notions used by the statements *)

(** The cycle of the item is an array. *)
Definition array_cycle (t : Todo) : bool :=
  match obj_get k_linear_cycle (t_frontmatter t) with
  | Some (VArr _) => true
  | _ => false
  end.

(** A value that [serializeFrontmatter] writes and [parseFrontmatter] reads
    back unchanged. *)
Definition stable_value (v : value) : Prop :=
  match v with
  | VStr s => plain_scalar s
  | VArr l => l <> [] /\ Forall (fun x => ~ In ","%char x) l
  end.



(** A character that is neither a blank nor a line terminator occurs. *)
Definition has_text (s : str) : Prop :=
  exists c, In c s /\ is_ws c = false.

Definition no_line_break (s : str) : Prop :=
  forall c, In c s -> is_lt c = false.





(** The item bears the id [i] as its [issue_id]. *)
Definition bears_id (i : str) (t : Todo) : bool :=
  match obj_get k_issue_id (t_frontmatter t) with
  | Some (VStr x) => str_eqb x i
  | _ => false
  end.

(** A string of blanks only, the empty string included. *)
Definition blank (d : str) : bool := forallb is_ws d.

(** The ids that an item waits for: the entries of its [dependencies] that
    are not blank. *)
Definition waits_for (t : Todo) : list str :=
  match obj_get k_dependencies (t_frontmatter t) with
  | Some (VArr l) => filter (fun d => negb (blank d)) l
  | _ => []
  end.

(** Every id that the item waits for is borne by one of the items [done]. *)
Definition ready (done : list Todo) (t : Todo) : bool :=
  forallb (fun d => existsb (bears_id d) done) (waits_for t).

(** Two pending todo files, the first with an array as its cycle. *)
Definition array_cycle_dir : list (str * str) :=
  [ (lit "001-pending-p1-a.md",
     front [lit "status: pending"; lit "priority: p1";
            lit "linear_cycle: [current]"] (lit "# A"));
    (lit "002-pending-p2-b.md",
     front [lit "status: pending"; lit "priority: p2"] (lit "# B")) ].

(** A directory in which the first pending item has a string, not a list,
    as its dependencies, and the second has no dependency. *)
Definition scalar_deps_dir : list (str * str) :=
  [ (lit "001-pending-p1-a.md",
     front [lit "status: pending"; lit "priority: p1"; lit "issue_id: 001";
            lit "dependencies: 002"] (lit "# A"));
    (lit "002-pending-p2-b.md",
     front [lit "status: pending"; lit "priority: p2"; lit "issue_id: 002"]
           (lit "# B")) ].

(** The length of a name in bytes: a code unit from 128 on takes two bytes
    in UTF-8. *)
Definition utf8_length (s : str) : nat :=
  fold_right (fun c n => (if code c <? 128 then 1 else 2) + n) 0 s.

(** A file name that is one path segment, so that [join(TODOS_DIR, f)] is
    the entry [f] of the directory: it is not empty, neither one dot nor
    two, has no slash and no NUL, and takes at most 255 bytes. *)
Definition plain_name (f : str) : Prop :=
  f <> [] /\ f <> lit "." /\ f <> lit ".."
  /\ ~ In "/"%char f /\ ~ In "000"%char f
  /\ utf8_length f <= 255.

(** A character of a number written in decimal or exponent notation. *)
Definition is_number_char (c : ascii) : bool :=
  is_digit c || ascii_eqb c "."%char || ascii_eqb c "e"%char
  || ascii_eqb c "+"%char.

(** What [String] gives for a natural number, also after [padStart]: digits,
    at least one, and then nothing, or, in exponent notation, a rest that
    starts with the point or the exponent sign. *)
Definition number_shape (s : str) : Prop :=
  exists ds rest,
    s = ds ++ rest /\ forallb is_digit ds = true /\ ds <> []
    /\ (rest = []
        \/ exists c r, rest = c :: r /\ is_digit c = false /\ c <> "-"%char
                       /\ forallb is_number_char rest = true).

(** * Properties *)

Unset Implicit Arguments.

(** ** Strings *)

Lemma ascii_eqb_true (a b : ascii) : ascii_eqb a b = true <-> a = b.
Proof. apply Ascii.eqb_eq. Qed.

Lemma ascii_eqb_refl (a : ascii) : ascii_eqb a a = true.
Proof. apply Ascii.eqb_refl. Qed.

Lemma ascii_eqb_false (a b : ascii) : ascii_eqb a b = false <-> a <> b.
Proof. apply Ascii.eqb_neq. Qed.

Lemma str_eqb_true (a b : str) : str_eqb a b = true <-> a = b.
Proof.
  revert b; induction a as [|x a IH]; intros [|y b]; simpl; split;
    try congruence; try reflexivity.
  - intros H. apply andb_true_iff in H as [H1 H2].
    apply ascii_eqb_true in H1. apply IH in H2. congruence.
  - intros H. inversion H; subst. rewrite ascii_eqb_refl. simpl.
    now apply IH.
Qed.

Lemma str_eqb_refl (a : str) : str_eqb a a = true.
Proof. now apply str_eqb_true. Qed.

Lemma str_eqb_false (a b : str) : str_eqb a b = false <-> a <> b.
Proof.
  split.
  - intros H E. apply str_eqb_true in E. congruence.
  - intros H. destruct (str_eqb a b) eqn:E; [|reflexivity].
    apply str_eqb_true in E. contradiction.
Qed.

Lemma str_eqb_sym (a b : str) : str_eqb a b = str_eqb b a.
Proof.
  destruct (str_eqb a b) eqn:E.
  - apply str_eqb_true in E. subst. now rewrite str_eqb_refl.
  - symmetry. apply str_eqb_false. apply str_eqb_false in E. congruence.
Qed.

Lemma startsWith_app (p r : str) : startsWith p (p ++ r) = true.
Proof.
  induction p as [|x p IH]; simpl; [reflexivity|].
  now rewrite ascii_eqb_refl, IH.
Qed.

Lemma startsWith_split (p s : str) :
  startsWith p s = true -> s = p ++ skipn (length p) s.
Proof.
  revert s; induction p as [|x p IH]; intros s H; simpl in *; [reflexivity|].
  destruct s as [|y s]; [discriminate|].
  apply andb_true_iff in H as [H1 H2].
  apply ascii_eqb_true in H1. subst y. f_equal. now apply IH.
Qed.

Lemma cut_first_sound (sep s a b : str) :
  cut_first sep s = Some (a, b) -> s = a ++ sep ++ b.
Proof.
  revert a b; induction s as [|x s IH]; intros a b H.
  - destruct sep; simpl in H; [|discriminate].
    inversion H; subst. reflexivity.
  - simpl in H. destruct (startsWith sep (x :: s)) eqn:E.
    + inversion H; subst. simpl. now apply startsWith_split.
    + destruct (cut_first sep s) as [[a' b']|] eqn:E2; [|discriminate].
      inversion H; subst. simpl. f_equal. now apply IH.
Qed.

Lemma cut_first_app_here (sep b : str) :
  cut_first sep (sep ++ b) = Some ([], b).
Proof.
  destruct (sep ++ b) as [|x s] eqn:E; simpl.
  - destruct sep; [|discriminate]. simpl in E. now subst.
  - rewrite <- E. rewrite startsWith_app. f_equal. f_equal.
    rewrite skipn_app, skipn_all, Nat.sub_diag. reflexivity.
Qed.

(** ** parseFrontmatter *)

Lemma match_frontmatter_sound (content y b : str) :
  match_frontmatter content = Some (y, b) ->
  content = fm_open ++ y ++ fm_close ++ b.
Proof.
  unfold match_frontmatter. intros H.
  destruct (startsWith fm_open content) eqn:E; [|discriminate].
  apply startsWith_split in E. apply cut_first_sound in H.
  rewrite E. f_equal. exact H.
Qed.

(** C10: [parseFrontmatter] returns for every input, and an input that does
    not open with a front-matter block delimited by lines of three dashes
    yields the default front matter, status pending and priority p3, with
    the whole input as the body. *)
Theorem parseFrontmatter_total_default (content : str) :
  (exists fm b, parseFrontmatter content = mkParsed fm b)
  /\ ((forall y b, content <> fm_open ++ y ++ fm_close ++ b) ->
      parseFrontmatter content
      = mkParsed [(lit "status", VStr (lit "pending"));
                  (lit "priority", VStr (lit "p3"))] content).
Proof.
  split.
  - destruct (parseFrontmatter content) as [fm b]. now exists fm, b.
  - intros H. unfold parseFrontmatter.
    destruct (match_frontmatter content) as [[y b]|] eqn:E; [|reflexivity].
    apply match_frontmatter_sound in E. now apply H in E.
Qed.

Lemma parseFrontmatter_total_default_witness :
  parseFrontmatter (lit "# Fix the login page")
  = mkParsed [(lit "status", VStr (lit "pending"));
              (lit "priority", VStr (lit "p3"))] (lit "# Fix the login page").
Proof.
  apply (proj2 (parseFrontmatter_total_default (lit "# Fix the login page"))).
  intros y b H. discriminate H.
Defined.

(** ** Doubles *)

Lemma to_double_small (z : Z) : (z < two53)%Z -> to_double z = z.
Proof.
  intros H. unfold to_double.
  destruct (Z.leb_spec (Z.log2 z - 52) 0) as [E|E]; [reflexivity|].
  exfalso.
  assert (Hz : (0 < z)%Z).
  { destruct (Z_lt_le_dec 0 z) as [Hp|Hn]; [exact Hp|].
    rewrite (Z.log2_nonpos z Hn) in E. lia. }
  pose proof (Z.log2_spec z Hz) as [Hl _].
  assert (Hp : (2 ^ 53 <= 2 ^ Z.log2 z)%Z) by (apply Z.pow_le_mono_r; lia).
  change (2 ^ 53)%Z with two53 in Hp. lia.
Qed.

Lemma to_double_mantissa (z : Z) :
  (0 < Z.log2 z - 52)%Z ->
  (2 ^ 52 <= Z.shiftr z (Z.log2 z - 52))%Z.
Proof.
  intros E.
  assert (Hz : (0 < z)%Z).
  { destruct (Z_lt_le_dec 0 z) as [Hp|Hn]; [exact Hp|].
    rewrite (Z.log2_nonpos z Hn) in E. lia. }
  pose proof (Z.log2_spec z Hz) as [Hl _].
  rewrite Z.shiftr_div_pow2 by lia.
  apply Z.div_le_lower_bound; [apply Z.pow_pos_nonneg; lia|].
  rewrite Z.mul_comm, <- Z.pow_add_r by lia.
  now replace (52 + (Z.log2 z - 52))%Z with (Z.log2 z) by lia.
Qed.

Lemma to_double_rounded (z : Z) :
  (0 < Z.log2 z - 52)%Z ->
  exists q, (2 ^ 52 <= q)%Z
            /\ to_double z = (q * 2 ^ (Z.log2 z - 52))%Z.
Proof.
  intros E. unfold to_double.
  destruct (Z.leb_spec (Z.log2 z - 52) 0) as [E'|_]; [lia|].
  pose proof (to_double_mantissa z E) as Hq.
  match goal with
  | |- context [if ?b then _ else _] => destruct b
  end; eexists; (split; [|apply Z.shiftl_mul_pow2; lia]); lia.
Qed.

Lemma to_double_large (z : Z) : (two53 <= z)%Z -> (two53 <= to_double z)%Z.
Proof.
  intros H.
  destruct (Z_lt_le_dec 0 (Z.log2 z - 52)) as [E|E].
  - destruct (to_double_rounded z E) as [q [Hq ->]].
    assert (Hp : (2 ^ 1 <= 2 ^ (Z.log2 z - 52))%Z)
      by (apply Z.pow_le_mono_r; lia).
    change two53 with (2 ^ 52 * 2 ^ 1)%Z.
    apply Z.mul_le_mono_nonneg; lia.
  - exfalso.
    assert (Hz : (0 < z)%Z) by (unfold two53 in H; lia).
    pose proof (Z.log2_spec z Hz) as [_ Hl].
    assert (Hp : (2 ^ Z.succ (Z.log2 z) <= 2 ^ 53)%Z)
      by (apply Z.pow_le_mono_r; lia).
    change (2 ^ 53)%Z with two53 in Hp. lia.
Qed.

Lemma to_double_pos (z : Z) : (0 < z)%Z -> (0 < to_double z)%Z.
Proof.
  intros H. destruct (Z_lt_le_dec z two53) as [E|E].
  - now rewrite to_double_small.
  - pose proof (to_double_large z E). unfold two53 in *. lia.
Qed.

Lemma to_double_exact (z : Z) :
  (to_double z < two53)%Z -> to_double z = z.
Proof.
  intros H. destruct (Z_lt_le_dec z two53) as [E|E].
  - now apply to_double_small.
  - pose proof (to_double_large z E). lia.
Qed.

Lemma to_number_pos (z : Z) : (0 <? to_number z)%Z = (0 <? z)%Z.
Proof.
  unfold to_number. destruct (Z.ltb_spec z 0) as [E|E].
  - pose proof (to_double_pos (- z)).
    destruct (Z.ltb_spec 0 (- to_double (- z))), (Z.ltb_spec 0 z);
      try reflexivity; lia.
  - destruct (Z.eq_dec z 0) as [->|Hn]; [reflexivity|].
    pose proof (to_double_pos z).
    destruct (Z.ltb_spec 0 (to_double z)), (Z.ltb_spec 0 z);
      try reflexivity; lia.
Qed.

Lemma to_number_zero (z : Z) : (to_number z =? 0)%Z = (z =? 0)%Z.
Proof.
  unfold to_number. destruct (Z.ltb_spec z 0) as [E|E].
  - pose proof (to_double_pos (- z)).
    destruct (Z.eqb_spec (- to_double (- z)) 0), (Z.eqb_spec z 0);
      try reflexivity; lia.
  - destruct (Z.eq_dec z 0) as [->|Hn]; [reflexivity|].
    pose proof (to_double_pos z).
    destruct (Z.eqb_spec (to_double z) 0), (Z.eqb_spec z 0);
      try reflexivity; lia.
Qed.

(** ** The order on keys *)

Lemma key_ltb_spec (a b : Z * Z * Z) :
  key_ltb a b = true <->
  (fst (fst a) < fst (fst b)
   \/ (fst (fst a) = fst (fst b)
       /\ (snd (fst a) < snd (fst b)
           \/ (snd (fst a) = snd (fst b) /\ snd a < snd b))))%Z.
Proof.
  destruct a as [[a1 a2] a3], b as [[b1 b2] b3]. unfold key_ltb. simpl.
  rewrite orb_true_iff, andb_true_iff, orb_true_iff, andb_true_iff.
  rewrite !Z.ltb_lt, !Z.eqb_eq. tauto.
Qed.

Lemma key_ltb_false (a b : Z * Z * Z) :
  key_ltb a b = false <-> ~ (key_ltb a b = true).
Proof. destruct (key_ltb a b); split; congruence. Qed.



Lemma key_ltb_asym (a b : Z * Z * Z) :
  key_ltb a b = true -> key_ltb b a = false.
Proof. rewrite key_ltb_false, !key_ltb_spec. lia. Qed.

Lemma key_le_trans (a b c : Z * Z * Z) :
  key_ltb b a = false -> key_ltb c b = false -> key_ltb c a = false.
Proof. rewrite !key_ltb_false, !key_ltb_spec. lia. Qed.

Lemma key_le_antisym (a b : Z * Z * Z) :
  key_ltb a b = false -> key_ltb b a = false -> a = b.
Proof.
  rewrite !key_ltb_false, !key_ltb_spec.
  destruct a as [[a1 a2] a3], b as [[b1 b2] b3]. simpl. intros H1 H2.
  assert (a1 = b1) by lia. assert (a2 = b2) by lia. assert (a3 = b3) by lia.
  congruence.
Qed.

(** ** The stable sort *)

Section SortFacts.

Variable A : Type.
Variable key : A -> Z * Z * Z.

Lemma insert_keyed_perm (x : A) (l : list A) :
  Permutation (x :: l) (insert_keyed key x l).
Proof.
  induction l as [|y l IH]; simpl; [reflexivity|].
  destruct (key_ltb (key y) (key x)); [|reflexivity].
  rewrite perm_swap. now constructor.
Qed.

Lemma sort_keyed_perm (l : list A) : Permutation l (sort_keyed key l).
Proof.
  induction l as [|x l IH]; simpl; [constructor|].
  rewrite <- insert_keyed_perm. now constructor.
Qed.

Lemma insert_keyed_sorted (x : A) (l : list A) :
  StronglySorted (le_by key) l -> StronglySorted (le_by key) (insert_keyed key x l).
Proof.
  induction l as [|y l IH]; intros Hs; simpl.
  - constructor; constructor.
  - inversion Hs as [|? ? Hs' Hall]; subst.
    destruct (key_ltb (key y) (key x)) eqn:E.
    + constructor; [now apply IH|].
      apply (Permutation_Forall (insert_keyed_perm x l)).
      constructor; [|exact Hall].
      unfold le_by. now apply key_ltb_asym.
    + constructor; [exact Hs|].
      constructor; [exact E|].
      eapply Forall_impl; [|exact Hall].
      intros z Hz. unfold le_by in *. eapply key_le_trans; eassumption.
Qed.

Lemma sort_keyed_sorted (l : list A) : StronglySorted (le_by key) (sort_keyed key l).
Proof.
  induction l as [|x l IH]; simpl; [constructor|].
  now apply insert_keyed_sorted.
Qed.



(** A comparator that follows the key on the elements that satisfy [P]. *)
Variable cmp : A -> A -> result num.
Variable P : A -> Prop.
Hypothesis cmp_key :
  forall x y, P x -> P y ->
    exists v, cmp x y = inr v /\ comes_after v = key_ltb (key y) (key x).

Lemma insert_by_keyed (x : A) (l : list A) :
  P x -> Forall P l -> insert_by cmp x l = inr (insert_keyed key x l).
Proof.
  intros Hx Hl. induction Hl as [|y l Hy Hl IH]; simpl; [reflexivity|].
  destruct (cmp_key x y Hx Hy) as [v [-> Hv]]. rewrite Hv.
  destruct (key_ltb (key y) (key x)); [|reflexivity].
  now rewrite IH.
Qed.

Lemma sort_by_keyed (l : list A) :
  Forall P l -> sort_by cmp l = inr (sort_keyed key l).
Proof.
  intros Hl. induction Hl as [|x l Hx Hl IH]; simpl; [reflexivity|].
  rewrite IH. apply insert_by_keyed; [exact Hx|].
  apply (Permutation_Forall (sort_keyed_perm l)). exact Hl.
Qed.

End SortFacts.

(** ** The comparator of listTodos *)

Lemma take_while_digit_head (s : str) :
  match take_while is_digit s with
  | [] => True
  | c :: _ => is_digit c = true
  end.
Proof.
  destruct s as [|c s]; simpl; [exact I|].
  destruct (is_digit c) eqn:E; [exact E|exact I].
Qed.

Lemma parseFilename_number (filename : str) :
  exists c s, fp_number (parseFilename filename) = c :: s /\ is_digit c = true.
Proof.
  assert (U : exists c s, fp_number (unknown_parts filename) = c :: s
                          /\ is_digit c = true)
    by (eexists; eexists; split; reflexivity).
  unfold parseFilename.
  pose proof (take_while_digit_head filename) as Hd.
  destruct (take_while is_digit filename) as [|c ds]; [exact U|].
  destruct (drop_while is_digit filename) as [|x r2]; [exact U|].
  destruct (ascii_dec x "-"%char) as [->|Hx].
  2:{ destruct x as [[] [] [] [] [] [] [] []]; try exact U; congruence. }
  destruct (take_while is_word r2) as [|w st]; [exact U|].
  destruct (drop_while is_word r2) as [|y1 r3]; [exact U|].
  destruct (ascii_dec y1 "-"%char) as [->|Hy1].
  2:{ destruct y1 as [[] [] [] [] [] [] [] []]; try exact U; congruence. }
  destruct r3 as [|y2 r3]; [exact U|].
  destruct (ascii_dec y2 "p"%char) as [->|Hy2].
  2:{ destruct y2 as [[] [] [] [] [] [] [] []]; try exact U; congruence. }
  destruct r3 as [|d r3]; [exact U|].
  destruct r3 as [|y3 r4]; [exact U|].
  destruct (ascii_dec y3 "-"%char) as [->|Hy3].
  2:{ destruct y3 as [[] [] [] [] [] [] [] []]; try exact U; congruence. }
  match goal with |- context [if ?b then _ else _] => destruct b end;
    [|exact U].
  exists c, ds. split; [reflexivity|exact Hd].
Qed.

Lemma parseInt_number (filename : str) :
  parseInt (fp_number (parseFilename filename))
  = Some (to_double (digits_go 0 (fp_number (parseFilename filename)))).
Proof.
  destruct (parseFilename_number filename) as [c [s [-> Hc]]].
  unfold parseInt. now rewrite Hc.
Qed.

Lemma cycleOrder_scalar (t : Todo) :
  scalar_cycle t ->
  cycleOrder (obj_get k_linear_cycle (t_frontmatter t)) = inr (groupRank t).
Proof.
  unfold scalar_cycle, groupRank, group, cycleOrder.
  destruct (obj_get k_linear_cycle (t_frontmatter t)) as [[[|c s]|l]|];
    intros H; try reflexivity; try contradiction.
  now destruct (includes (lit "current") (toLowerCase (c :: s))).
Qed.

Lemma tier_of_str (s : str) (p : tier) :
  tier_of (Some s) = Some p -> s = tier_str p.
Proof.
  unfold tier_of.
  destruct (str_eqb s (lit "p1")) eqn:E1;
    [apply str_eqb_true in E1; intros H; inversion H; subst; reflexivity|].
  destruct (str_eqb s (lit "p2")) eqn:E2;
    [apply str_eqb_true in E2; intros H; inversion H; subst; reflexivity|].
  destruct (str_eqb s (lit "p3")) eqn:E3;
    [apply str_eqb_true in E3; intros H; inversion H; subst; reflexivity|].
  discriminate.
Qed.

Lemma priorityOrder_tier (t : Todo) :
  todo_tier t <> None ->
  priorityOrder (obj_get k_priority (t_frontmatter t)) = Some (priorityRank t).
Proof.
  unfold priorityRank, todo_tier.
  destruct (obj_get k_priority (t_frontmatter t)) as [[s|l]|];
    try congruence.
  destruct (tier_of (Some s)) as [p|] eqn:E; [|congruence].
  intros _. apply tier_of_str in E. subst s. now destruct p.
Qed.

Lemma compareTodos_key (a b : Todo) :
  comparable a -> comparable b ->
  exists v, compareTodos a b = inr v
            /\ comes_after v = key_ltb (sort_key b) (sort_key a).
Proof.
  intros [[Hca Hta] Hna] [[Hcb Htb] Hnb].
  unfold compareTodos.
  rewrite (cycleOrder_scalar a Hca), (cycleOrder_scalar b Hcb).
  rewrite (priorityOrder_tier a Hta), (priorityOrder_tier b Htb).
  unfold sort_key, numeric_id.
  destruct (parseInt (t_number a)) as [na|]; [|congruence].
  destruct (parseInt (t_number b)) as [nb|]; [|congruence].
  set (ga := groupRank a). set (gb := groupRank b).
  set (pa := priorityRank a). set (pb := priorityRank b).
  assert (K : forall d : Z,
             (0 < d <-> key_ltb (gb, pb, nb) (ga, pa, na) = true)%Z ->
             comes_after (Some d) = key_ltb (gb, pb, nb) (ga, pa, na)).
  { intros d Hd. apply eq_true_iff_eq. unfold comes_after.
    rewrite Z.ltb_lt. exact Hd. }
  assert (K' : forall d : Z,
             (0 < d <-> key_ltb (gb, pb, nb) (ga, pa, na) = true)%Z ->
             comes_after (Some (to_number d))
             = key_ltb (gb, pb, nb) (ga, pa, na)).
  { intros d Hd. unfold comes_after. rewrite to_number_pos.
    now apply (K d). }
  destruct (ga - gb =? 0)%Z eqn:Eg; cbn [negb].
  - apply Z.eqb_eq in Eg.
    destruct (pa - pb =? 0)%Z eqn:Ep;
      cbn [num_sub num_is_zero negb]; rewrite to_number_zero, Ep; cbn [negb].
    + apply Z.eqb_eq in Ep. eexists; split; [reflexivity|].
      apply K'. rewrite key_ltb_spec. cbn [fst snd]. lia.
    + apply Z.eqb_neq in Ep. eexists; split; [reflexivity|].
      apply K'. rewrite key_ltb_spec. cbn [fst snd]. lia.
  - apply Z.eqb_neq in Eg. eexists; split; [reflexivity|].
    apply K. rewrite key_ltb_spec. cbn [fst snd]. lia.
Qed.

(** ** listTodos *)

Lemma lookup_in_names (d : list (str * str)) (n : str) :
  In n (map fst d) -> lookup n d <> None.
Proof.
  induction d as [|[g c] d IH]; simpl; [tauto|].
  intros [->|H].
  - now rewrite str_eqb_refl.
  - destruct (str_eqb g n); [discriminate|now apply IH].
Qed.

Lemma for_each_list_step (D : str) (statusFilter : option str)
      (d : list (str * str)) (names : list str) :
  (forall n, In n names -> lookup n d <> None) ->
  forall (acc : list Todo) (tr : list fs_op),
    for_each names acc (list_step D statusFilter) (mkFs d tr)
    = (inr (acc ++ flat_map (entry_todos D statusFilter d) names),
       mkFs d (tr ++ map OpRead (filter (endsWith md_ext) names))).
Proof.
  induction names as [|n names IH]; intros Hn acc tr.
  - simpl. now rewrite !app_nil_r.
  - assert (Hn' : forall m, In m names -> lookup m d <> None)
      by (intros m Hm; apply Hn; now right).
    specialize (IH Hn').
    cbn [for_each flat_map filter]. unfold bind at 1.
    unfold list_step at 1, entry_todos at 1.
    destruct (endsWith md_ext n) eqn:E; cbn [negb].
    + destruct (lookup n d) as [c|] eqn:El;
        [|exfalso; apply (Hn n); [now left|exact El]].
      unfold bind at 1, readFile at 1. cbn [files]. rewrite El.
      cbn [log files trace map].
      destruct (filtered_out statusFilter (t_frontmatter (todo_of D n c)));
        unfold ret at 1, log; cbn [files trace]; rewrite IH;
        cbn [app]; now rewrite <- ?app_assoc.
    + unfold ret at 1. now rewrite IH.
Qed.

Lemma listTodos_run (D : str) (statusFilter : option str) (s : fs) :
  listTodos D statusFilter s
  = (sort_by compareTodos (dir_todos D statusFilter (files s)),
     mkFs (files s) (trace s ++ list_trace (files s))).
Proof.
  unfold listTodos, bind at 1, readdir, log. cbn [files trace].
  unfold bind at 1.
  rewrite for_each_list_step by apply lookup_in_names.
  cbn [app]. unfold lift, dir_todos, list_trace.
  now rewrite <- app_assoc.
Qed.

Lemma dir_todos_in (D : str) (statusFilter : option str)
      (d : list (str * str)) (t : Todo) :
  In t (dir_todos D statusFilter d) <->
  exists f c, In f (map fst d) /\ lookup f d = Some c
              /\ endsWith md_ext f = true
              /\ filtered_out statusFilter (frontmatter (parseFrontmatter c)) = false
              /\ t = todo_of D f c.
Proof.
  unfold dir_todos. rewrite in_flat_map. split.
  - intros [f [Hf Ht]]. unfold entry_todos in Ht.
    destruct (endsWith md_ext f) eqn:E; [|contradiction].
    destruct (lookup f d) as [c|] eqn:El; [|contradiction].
    cbn [negb] in Ht.
    destruct (filtered_out statusFilter (t_frontmatter (todo_of D f c))) eqn:Ef;
      [contradiction|].
    destruct Ht as [<-|[]]. exists f, c. repeat split; assumption.
  - intros [f [c [Hf [El [E [Ef ->]]]]]]. exists f. split; [exact Hf|].
    unfold entry_todos. rewrite E, El. cbn [negb t_frontmatter todo_of].
    rewrite Ef. now left.
Qed.

Lemma dir_todos_comparable (D : str) (statusFilter : option str)
      (d : list (str * str)) :
  Forall sortable (dir_todos D statusFilter d) ->
  Forall comparable (dir_todos D statusFilter d).
Proof.
  rewrite !Forall_forall. intros H t Ht. split; [now apply H|].
  apply dir_todos_in in Ht as [f [c [_ [_ [_ [_ ->]]]]]].
  cbn [t_number todo_of]. rewrite parseInt_number. discriminate.
Qed.

Lemma listTodos_keyed (D : str) (statusFilter : option str) (s : fs) :
  Forall sortable (dir_todos D statusFilter (files s)) ->
  listTodos D statusFilter s
  = (inr (sort_keyed sort_key (dir_todos D statusFilter (files s))),
     mkFs (files s) (trace s ++ list_trace (files s))).
Proof.
  intros H. rewrite listTodos_run. f_equal.
  apply (sort_by_keyed Todo sort_key compareTodos comparable compareTodos_key).
  now apply dir_todos_comparable.
Qed.








(** ** getNextTodo *)

Lemma unmetDeps_nil (ids deps : list str) :
  unmetDeps ids deps = [] <-> forallb (set_has ids) deps = true.
Proof.
  unfold unmetDeps. induction deps as [|d deps IH]; simpl; [tauto|].
  destruct (set_has ids d); simpl; [exact IH|]. split; discriminate.
Qed.

Lemma deps_of_typed (t : Todo) :
  deps_typed t -> deps_of t = inr (dependency_list t).
Proof.
  unfold deps_typed, deps_of, dependency_list.
  destruct (obj_get k_dependencies (t_frontmatter t)) as [[[|c s]|l]|];
    intros H; try reflexivity. contradiction.
Qed.

Lemma scan_next_find (ids : list str) (todos : list Todo) :
  Forall deps_typed todos ->
  scan_next ids todos = inr (find (eligible ids) todos).
Proof.
  intros H. induction H as [|t todos Ht H IH]; simpl; [reflexivity|].
  rewrite (deps_of_typed t Ht). unfold eligible at 1.
  destruct (unmetDeps ids (dependency_list t)) as [|u us] eqn:E.
  - apply unmetDeps_nil in E. now rewrite E.
  - destruct (forallb (set_has ids) (dependency_list t)) eqn:E2; [|exact IH].
    apply unmetDeps_nil in E2. congruence.
Qed.

(** What [find] returns is the first element that passes the test. *)
Lemma find_first {A : Type} (p : A -> bool) (l : list A) (x : A) :
  find p l = Some x ->
  exists l1 l2, l = l1 ++ x :: l2 /\ p x = true
                /\ Forall (fun y => p y = false) l1.
Proof.
  induction l as [|y l IH]; simpl; [discriminate|].
  destruct (p y) eqn:E.
  - intros H. inversion H; subst. exists [], l. repeat split; auto.
  - intros H. destruct (IH H) as [l1 [l2 [-> [Hx Hl1]]]].
    exists (y :: l1), l2. repeat split; auto.
Qed.

Lemma find_none_all {A : Type} (p : A -> bool) (l : list A) :
  find p l = None -> Forall (fun y => p y = false) l.
Proof.
  intros H. apply Forall_forall. intros y Hy.
  now apply (find_none p l H).
Qed.

Lemma find_some_before {A : Type} (p : A -> bool) (l1 l2 : list A) (a : A) :
  p a = true ->
  exists t k1 k2, find p (l1 ++ a :: l2) = Some t /\ p t = true
                  /\ l1 ++ [a] = k1 ++ t :: k2.
Proof.
  intros Ha. induction l1 as [|y l1 IH]; simpl.
  - rewrite Ha. exists a, [], []. auto.
  - destruct (p y) eqn:E.
    + exists y, [], (l1 ++ [a]). auto.
    + destruct IH as [t [k1 [k2 [H1 [H2 H3]]]]].
      exists t, (y :: k1), k2. repeat split; auto. simpl. now rewrite H3.
Qed.

Lemma completedIds_has (done : list Todo) (i : str) :
  set_has (completedIds done) i = true <->
  exists t, In t done /\ completed_id t = Some i.
Proof.
  unfold set_has. rewrite existsb_exists. split.
  - intros [j [Hj E]]. apply str_eqb_true in E. subst j.
    induction done as [|t done IH]; simpl in Hj; [contradiction|].
    destruct (completed_id t) as [j|] eqn:Ec.
    + destruct Hj as [->|Hj].
      * exists t. split; [now left|exact Ec].
      * destruct (IH Hj) as [u [Hu Eu]]. exists u. split; [now right|exact Eu].
    + destruct (IH Hj) as [u [Hu Eu]]. exists u. split; [now right|exact Eu].
  - intros [t [Ht Ec]]. exists i. split; [|apply str_eqb_refl].
    induction done as [|u done IH]; [contradiction|]. simpl.
    destruct Ht as [->|Ht].
    + rewrite Ec. now left.
    + destruct (completed_id u); [right|]; now apply IH.
Qed.

Lemma dir_todos_status (D : str) (st : str) (d : list (str * str)) (c : ascii) (r : str) :
  st = c :: r ->
  Forall (fun t => status_is (t_frontmatter t) st = true)
         (dir_todos D (Some st) d).
Proof.
  intros ->. apply Forall_forall. intros t Ht.
  apply dir_todos_in in Ht as [f [content [_ [_ [_ [Hf ->]]]]]].
  cbn [t_frontmatter todo_of]. unfold filtered_out in Hf.
  now apply negb_false_iff in Hf.
Qed.

(** On the sample directory the queue is 001, 002, 003; 001 waits for 005,
    which no item bears; 002 waits for 004, which is completed. *)
Example getNextTodo_sample :
  exists t, fst (getNextTodo sample_root sample_fs) = inr (Some t)
            /\ t_filename t = lit "002-pending-p3-refactor-api.md".
Proof. eexists. split; vm_compute; reflexivity. Qed.

(** ** More on strings *)

Lemma trimStart_split (s : str) :
  exists w, s = w ++ trimStart s /\ forallb is_ws w = true.
Proof.
  induction s as [|c s [w [Hs Hw]]]; simpl.
  - now exists [].
  - destruct (is_ws c) eqn:E.
    + exists (c :: w). simpl. rewrite E, Hw. split; [now f_equal|reflexivity].
    + now exists [].
Qed.

Lemma trimStart_head (s : str) :
  match trimStart s with
  | [] => True
  | c :: _ => is_ws c = false
  end.
Proof.
  induction s as [|c s IH]; simpl; [exact I|].
  destruct (is_ws c) eqn:E; [exact IH|exact E].
Qed.

Lemma trimStart_fixed (c : ascii) (s : str) :
  is_ws c = false -> trimStart (c :: s) = c :: s.
Proof. intros H. simpl. now rewrite H. Qed.

Lemma trimStart_idem (s : str) : trimStart (trimStart s) = trimStart s.
Proof.
  pose proof (trimStart_head s) as H.
  destruct (trimStart s) as [|c r]; [reflexivity|now apply trimStart_fixed].
Qed.

Lemma trimStart_incl (s : str) (x : ascii) : In x (trimStart s) -> In x s.
Proof.
  destruct (trimStart_split s) as [w [Hs _]]. intros H.
  rewrite Hs. apply in_or_app. now right.
Qed.

Lemma trimEnd_incl (s : str) (x : ascii) : In x (trimEnd s) -> In x s.
Proof.
  unfold trimEnd. intros H. apply in_rev in H. apply trimStart_incl in H.
  now apply in_rev.
Qed.

Lemma trim_incl (s : str) (x : ascii) : In x (trim s) -> In x s.
Proof.
  unfold trim. intros H. apply trimEnd_incl in H. now apply trimStart_incl.
Qed.

Lemma trimmed_trim (s : str) : trimmed s -> trim s = s.
Proof.
  intros [H1 H2]. unfold trim, trimEnd. rewrite H1, H2. apply rev_involutive.
Qed.

Lemma trim_trimmed (s : str) : trimmed (trim s).
Proof.
  unfold trim, trimEnd. set (u := trimStart s).
  set (v := trimStart (rev u)). split.
  - destruct (trimStart_split (rev u)) as [w [Hu _]]. fold v in Hu.
    assert (Eu : u = rev v ++ rev w).
    { rewrite <- rev_app_distr, <- Hu. symmetry. apply rev_involutive. }
    destruct (rev v) as [|x r] eqn:Ev; [reflexivity|].
    pose proof (trimStart_head s) as Hh. fold u in Hh. rewrite Eu in Hh.
    simpl in Hh. now apply trimStart_fixed.
  - rewrite rev_involutive. apply trimStart_idem.
Qed.

Lemma trim_idem (s : str) : trim (trim s) = trim s.
Proof. apply trimmed_trim, trim_trimmed. Qed.

Lemma cut_at_sound (c : ascii) (s a b : str) :
  cut_at c s = Some (a, b) -> s = a ++ c :: b /\ ~ In c a.
Proof.
  revert a b. induction s as [|x s IH]; intros a b H; simpl in H;
    [discriminate|].
  destruct (ascii_eqb x c) eqn:E.
  - apply ascii_eqb_true in E. inversion H; subst. split; [reflexivity|tauto].
  - destruct (cut_at c s) as [[a' b']|]; [|discriminate].
    inversion H; subst. destruct (IH a' b eq_refl) as [-> Hn].
    split; [reflexivity|]. intros [->|Hin]; [|contradiction].
    now rewrite ascii_eqb_refl in E.
Qed.

Lemma cut_at_app (c : ascii) (a b : str) :
  ~ In c a -> cut_at c (a ++ c :: b) = Some (a, b).
Proof.
  induction a as [|x a IH]; intros H; simpl.
  - now rewrite ascii_eqb_refl.
  - destruct (ascii_eqb x c) eqn:E.
    + apply ascii_eqb_true in E. subst. exfalso. apply H. now left.
    + rewrite IH; [reflexivity|]. intros Hin. apply H. now right.
Qed.

Lemma split_char_nonempty (c : ascii) (s : str) : split_char c s <> [].
Proof.
  destruct s as [|x s]; simpl; [discriminate|].
  destruct (ascii_eqb x c); [discriminate|].
  destruct (split_char c s); discriminate.
Qed.

Lemma split_char_pieces (c : ascii) (s : str) :
  Forall (fun piece => ~ In c piece /\ forall x, In x piece -> In x s)
         (split_char c s).
Proof.
  induction s as [|x s IH]; simpl.
  - constructor; [|constructor]. split; [tauto|tauto].
  - destruct (ascii_eqb x c) eqn:E.
    + constructor; [split; simpl; tauto|].
      eapply Forall_impl; [|exact IH]. intros piece [H1 H2].
      split; [exact H1|]. intros y Hy. right. now apply H2.
    + pose proof (split_char_nonempty c s) as Hne.
      destruct (split_char c s) as [|h t]; [congruence|].
      inversion IH as [|? ? [Hh1 Hh2] Ht]; subst.
      constructor.
      * split.
        -- intros [->|Hin]; [now rewrite ascii_eqb_refl in E|contradiction].
        -- intros y [->|Hy]; [now left|right; now apply Hh2].
      * eapply Forall_impl; [|exact Ht]. intros piece [H1 H2].
        split; [exact H1|]. intros y Hy. right. now apply H2.
Qed.

Lemma split_char_line (c : ascii) (line rest : str) :
  ~ In c line ->
  split_char c (line ++ c :: rest) = line :: split_char c rest.
Proof.
  induction line as [|x line IH]; intros H; simpl.
  - now rewrite ascii_eqb_refl.
  - destruct (ascii_eqb x c) eqn:E.
    + apply ascii_eqb_true in E. subst. exfalso. apply H. now left.
    + rewrite IH; [reflexivity|]. intros Hin. apply H. now right.
Qed.

Lemma split_char_single (c : ascii) (line : str) :
  ~ In c line -> split_char c line = [line].
Proof.
  induction line as [|x line IH]; intros H; simpl; [reflexivity|].
  destruct (ascii_eqb x c) eqn:E.
  - apply ascii_eqb_true in E. subst. exfalso. apply H. now left.
  - rewrite IH; [reflexivity|]. intros Hin. apply H. now right.
Qed.

Lemma split_char_join (c : ascii) (lines : list str) :
  lines <> [] ->
  Forall (fun line => ~ In c line) lines ->
  split_char c (join [c] lines) = lines.
Proof.
  intros Hne H. revert Hne.
  induction H as [|line lines Hl H IH]; intros Hne; [now elim Hne|].
  destruct lines as [|l2 ls].
  - simpl. now apply split_char_single.
  - change (join [c] (line :: l2 :: ls))
      with (line ++ c :: join [c] (l2 :: ls)).
    rewrite split_char_line by exact Hl. f_equal. apply IH. discriminate.
Qed.

(** ** Front matter objects *)

Lemma obj_get_put_same (k : str) (v : value) (o : obj) :
  obj_get k (obj_put k v o) = Some v.
Proof.
  induction o as [|[k' v'] o IH]; simpl.
  - now rewrite str_eqb_refl.
  - destruct (str_eqb k' k) eqn:E; simpl.
    + now rewrite str_eqb_refl.
    + now rewrite E.
Qed.

Lemma obj_get_put_other (k k' : str) (v : value) (o : obj) :
  k <> k' -> obj_get k (obj_put k' v o) = obj_get k o.
Proof.
  intros Hk. induction o as [|[k2 v2] o IH]; simpl.
  - destruct (str_eqb k' k) eqn:E; [|reflexivity].
    apply str_eqb_true in E. congruence.
  - destruct (str_eqb k2 k') eqn:E; simpl.
    + apply str_eqb_true in E. subst k2.
      destruct (str_eqb k' k) eqn:E2; [|reflexivity].
      apply str_eqb_true in E2. congruence.
    + now rewrite IH.
Qed.

Lemma obj_put_keys (k : str) (v : value) (o : obj) (x : str) :
  In x (map fst (obj_put k v o)) <-> x = k \/ In x (map fst o).
Proof.
  induction o as [|[k' v'] o IH]; simpl.
  - intuition congruence.
  - destruct (str_eqb k' k) eqn:E; simpl.
    + apply str_eqb_true in E. subst. intuition congruence.
    + rewrite IH. intuition congruence.
Qed.

Lemma obj_put_NoDup (k : str) (v : value) (o : obj) :
  NoDup (map fst o) -> NoDup (map fst (obj_put k v o)).
Proof.
  induction o as [|[k' v'] o IH]; simpl; intros H.
  - constructor; [tauto|constructor].
  - inversion H as [|? ? Hn Hd]; subst.
    destruct (str_eqb k' k) eqn:E; simpl.
    + apply str_eqb_true in E. subst. now constructor.
    + constructor; [|now apply IH].
      rewrite obj_put_keys. intros [->|Hin]; [|contradiction].
      now rewrite str_eqb_refl in E.
Qed.

Lemma obj_put_entries (k : str) (v : value) (o : obj) (e : str * value) :
  In e (obj_put k v o) -> e = (k, v) \/ In e o.
Proof.
  induction o as [|[k' v'] o IH]; simpl.
  - intros [<-|[]]. now left.
  - destruct (str_eqb k' k); simpl.
    + intros [<-|H]; [now left|right; now right].
    + intros [<-|H]; [right; now left|].
      destruct (IH H) as [->|Hin]; [now left|right; now right].
Qed.

Lemma obj_put_in (k : str) (v : value) (o : obj) : In (k, v) (obj_put k v o).
Proof.
  induction o as [|[k' v'] o IH]; simpl; [now left|].
  destruct (str_eqb k' k); simpl; [now left|now right].
Qed.

Lemma obj_put_keeps (k k' : str) (v v' : value) (o : obj) :
  k <> k' -> In (k, v) o -> In (k, v) (obj_put k' v' o).
Proof.
  intros Hk. induction o as [|[k2 v2] o IH]; simpl; [tauto|].
  intros [E|Hin].
  - inversion E; subst. destruct (str_eqb k k') eqn:E2.
    + apply str_eqb_true in E2. congruence.
    + now left.
  - destruct (str_eqb k2 k'); simpl; right; [exact Hin|now apply IH].
Qed.

Lemma insert_index_perm (e : str * value) (l : obj) :
  Permutation (e :: l) (insert_index e l).
Proof.
  induction l as [|e' l IH]; simpl; [reflexivity|].
  destruct (digits_go 0 (fst e) <? digits_go 0 (fst e'))%Z; [reflexivity|].
  rewrite perm_swap. now constructor.
Qed.

Lemma entries_perm (o : obj) : Permutation o (entries o).
Proof.
  unfold entries.
  assert (H : Permutation (filter is_index_entry o)
                          (fold_right insert_index [] (filter is_index_entry o))).
  { induction (filter is_index_entry o) as [|e l IH]; simpl; [constructor|].
    rewrite <- insert_index_perm. now constructor. }
  rewrite <- H. clear H.
  induction o as [|e o IH]; simpl; [constructor|].
  destruct (is_index_entry e); simpl.
  - now constructor.
  - rewrite <- Permutation_middle. now constructor.
Qed.

(** ** What parsing yields, and what serializing needs *)

Lemma clean_put (k : str) (v : value) (o : obj) :
  key_ok k -> value_ok v -> clean o -> clean (obj_put k v o).
Proof.
  intros Hk Hv [Hd Ho]. split; [now apply obj_put_NoDup|].
  apply Forall_forall. intros e He.
  apply obj_put_entries in He as [->|Hin]; [now split|].
  rewrite Forall_forall in Ho. now apply Ho.
Qed.

Lemma clean_set (k : str) (v : value) (o : obj) :
  key_ok k -> value_ok v -> clean o -> clean (obj_set k v o).
Proof.
  unfold obj_set. destruct (str_eqb k proto_key); [tauto|apply clean_put].
Qed.

Lemma removelast_incl (s : str) (x : ascii) : In x (removelast s) -> In x s.
Proof.
  induction s as [|c s IH]; simpl; [tauto|].
  destruct s as [|d s]; [simpl; tauto|].
  intros [->|H]; [now left|right; now apply IH].
Qed.

Lemma slice_incl (s : str) (x : ascii) : In x (slice_1_m1 s) -> In x s.
Proof.
  unfold slice_1_m1. intros H. apply removelast_incl in H.
  destruct s; [exact H|now right].
Qed.

Lemma strip_last_quote_incl (s : str) (x : ascii) :
  In x (strip_last_quote s) -> In x s.
Proof.
  unfold strip_last_quote. destruct (rev s) as [|c r]; [tauto|].
  destruct (is_quote c); [apply removelast_incl|tauto].
Qed.

Lemma strip_quotes_incl (s : str) (x : ascii) :
  In x (strip_quotes s) -> In x s.
Proof.
  unfold strip_quotes. destruct s as [|c s]; [tauto|].
  destruct (is_quote c); intros H; apply strip_last_quote_incl in H;
    [now right|exact H].
Qed.

Lemma parse_value_ok (v : str) : single_line v -> value_ok (parse_value v).
Proof.
  intros Hv. unfold parse_value.
  destruct (startsWith (lit "[") v).
  - simpl. apply Forall_forall. intros piece Hp.
    apply in_map_iff in Hp as [raw [<- Hraw]].
    pose proof (split_char_pieces ","%char (slice_1_m1 v)) as Hs.
    rewrite Forall_forall in Hs. destruct (Hs raw Hraw) as [_ Hin].
    intros Hnl. apply Hv. apply slice_incl, Hin, trim_incl.
    now apply strip_quotes_incl.
  - destruct (startsWith [dq] v); simpl; [|exact Hv].
    intros Hnl. apply Hv. now apply slice_incl.
Qed.

Lemma parse_line_clean (fm : obj) (line : str) :
  single_line line -> clean fm -> clean (parse_line fm line).
Proof.
  intros Hl Hfm. unfold parse_line.
  destruct (cut_at ":"%char line) as [[k v]|] eqn:E; [|exact Hfm].
  apply cut_at_sound in E as [-> Hk].
  destruct (trim v) as [|c r] eqn:Ev; [exact Hfm|].
  apply clean_set; [| |exact Hfm].
  - split; [|split].
    + intros H. apply Hk. now apply trim_incl.
    + intros H. apply Hl. apply in_or_app. left. now apply trim_incl.
    + apply trim_idem.
  - apply parse_value_ok. rewrite <- Ev. intros H. apply Hl.
    apply in_or_app. right. right. now apply trim_incl.
Qed.

Lemma parse_yaml_clean (yamlStr : str) : clean (parse_yaml yamlStr).
Proof.
  unfold parse_yaml.
  pose proof (split_char_pieces nl yamlStr) as Hs.
  assert (H0 : clean []) by (split; constructor).
  revert H0. generalize (@nil (str * value)).
  induction Hs as [|line lines [Hl _] Hs IH]; intros fm Hfm; simpl;
    [exact Hfm|].
  apply IH. now apply parse_line_clean.
Qed.

Lemma default_frontmatter_clean : clean default_frontmatter.
Proof.
  split.
  - repeat constructor; simpl; intuition discriminate.
  - repeat constructor; simpl; try reflexivity;
      intros H; repeat (destruct H as [H|H]; [discriminate H|]); exact H.
Qed.

Lemma parseFrontmatter_clean (content : str) :
  clean (frontmatter (parseFrontmatter content)).
Proof.
  unfold parseFrontmatter.
  destruct (match_frontmatter content) as [[y b]|]; simpl.
  - apply parse_yaml_clean.
  - apply default_frontmatter_clean.
Qed.

(** ** Serializing and reading back *)

Lemma join_incl (sep : str) (l : list str) (x : ascii) :
  In x (join sep l) -> In x sep \/ exists piece, In piece l /\ In x piece.
Proof.
  induction l as [|a l IH]; [simpl; tauto|].
  destruct l as [|b l].
  - simpl. intros H. right. exists a. split; [now left|exact H].
  - change (join sep (a :: b :: l)) with (a ++ sep ++ join sep (b :: l)).
    intros H. apply in_app_or in H as [H|H].
    + right. exists a. split; [now left|exact H].
    + apply in_app_or in H as [H|H]; [now left|].
      destruct (IH H) as [Hs|[piece [Hp Hx]]]; [now left|].
      right. exists piece. split; [now right|exact Hx].
Qed.

Lemma quoted_single (s : str) : single_line s -> single_line (quoted s).
Proof.
  unfold single_line, quoted. intros H [E|Hin]; [discriminate E|].
  apply in_app_or in Hin as [Hin|[E|[]]]; [now apply H|discriminate E].
Qed.

Lemma ser_value_single (v : value) : value_ok v -> single_line (ser_value v).
Proof.
  destruct v as [s|l]; cbn [ser_value value_ok]; intros Hv.
  - destruct (includes (lit " ") s); [now apply quoted_single|exact Hv].
  - unfold single_line. change (lit "[") with ["["%char].
    cbn [app]. intros [E|Hin]; [discriminate E|].
    apply in_app_or in Hin as [Hin|[E|[]]]; [|discriminate E].
    apply join_incl in Hin as [Hs|[piece [Hp Hx]]].
    + simpl in Hs. destruct Hs as [E|[E|[]]]; discriminate E.
    + apply in_map_iff in Hp as [raw [<- Hraw]].
      rewrite Forall_forall in Hv. now apply (quoted_single raw (Hv raw Hraw)).
Qed.

Lemma ser_line_single (k : str) (v : value) :
  key_ok k -> value_ok v -> single_line (ser_line (k, v)).
Proof.
  intros [_ [Hk _]] Hv. unfold ser_line, single_line. simpl fst. simpl snd.
  intros H. apply in_app_or in H as [H|H]; [now apply Hk|].
  simpl in H. destruct H as [E|[E|H]]; try discriminate E.
  now apply (ser_value_single v Hv).
Qed.

Lemma ser_line_not_dashes (e : str * value) : ser_line e <> lit "---".
Proof.
  intros H.
  assert (Hin : In ":"%char (ser_line e)).
  { unfold ser_line. apply in_or_app. right. now left. }
  rewrite H in Hin. simpl in Hin.
  repeat (destruct Hin as [E|Hin]; [discriminate E|]). exact Hin.
Qed.

Lemma cut_first_skip_line (line rest : str) :
  single_line line ->
  cut_first fm_close (line ++ rest)
  = match cut_first fm_close rest with
    | Some (a, b) => Some (line ++ a, b)
    | None => None
    end.
Proof.
  intros Hl. induction line as [|c line IH].
  - simpl. now destruct (cut_first fm_close rest) as [[a b]|].
  - assert (Hc : ascii_eqb nl c = false).
    { apply ascii_eqb_false. intros E. apply Hl. now left. }
    change ((c :: line) ++ rest) with (c :: line ++ rest).
    cbn [cut_first fm_close startsWith]. rewrite Hc. cbn [andb].
    rewrite IH by (intros H; apply Hl; now right).
    now destruct (cut_first fm_close rest) as [[a b]|].
Qed.

Lemma dashes_prefix (line rest : str) :
  single_line line ->
  startsWith (lit "---" ++ [nl]) (line ++ nl :: rest) = true ->
  line = lit "---".
Proof.
  intros Hl H.
  assert (Hnl : forall c s, line = c :: s -> c <> nl)
    by (intros c s -> E; apply Hl; now left).
  destruct line as [|a [|b [|c [|d line]]]]; simpl in H;
    repeat match goal with
           | H : (_ && _)%bool = true |- _ => apply andb_true_iff in H as [? H]
           | H : ascii_eqb _ _ = true |- _ => apply ascii_eqb_true in H
           end; subst; try discriminate; try reflexivity.
  exfalso. apply Hl. simpl. tauto.
Qed.

Lemma cut_first_block (lines : list str) (b : str) :
  lines <> [] ->
  Forall (fun line => single_line line /\ line <> lit "---") lines ->
  cut_first fm_close (join [nl] lines ++ fm_close ++ b)
  = Some (join [nl] lines, b).
Proof.
  intros Hne H. revert Hne.
  induction H as [|line lines [Hl Hd] H IH]; intros Hne; [now elim Hne|].
  destruct lines as [|l2 ls].
  - simpl join. rewrite cut_first_skip_line by exact Hl.
    rewrite cut_first_app_here. now rewrite app_nil_r.
  - change (join [nl] (line :: l2 :: ls))
      with (line ++ nl :: join [nl] (l2 :: ls)).
    rewrite <- app_assoc. rewrite cut_first_skip_line by exact Hl.
    change ((nl :: join [nl] (l2 :: ls)) ++ fm_close ++ b)
      with (nl :: (join [nl] (l2 :: ls) ++ fm_close ++ b)).
    assert (Hno : startsWith fm_close
                    (nl :: (join [nl] (l2 :: ls) ++ fm_close ++ b)) = false).
    { destruct (startsWith fm_close
                  (nl :: (join [nl] (l2 :: ls) ++ fm_close ++ b))) eqn:E;
        [|reflexivity].
      exfalso. inversion H as [|? ? [Hl2 Hd2] _]; subst.
      apply Hd2. unfold fm_close in E. cbn [startsWith] in E.
      rewrite ascii_eqb_refl in E. cbn [andb] in E.
      destruct ls as [|l3 ls].
      - simpl join in E. apply (dashes_prefix l2 (lit "---" ++ [nl] ++ b) Hl2).
        exact E.
      - change (join [nl] (l2 :: l3 :: ls))
          with (l2 ++ nl :: join [nl] (l3 :: ls)) in E.
        rewrite <- app_assoc in E.
        exact (dashes_prefix l2
                 (join [nl] (l3 :: ls) ++ (nl :: lit "---" ++ [nl]) ++ b)
                 Hl2 E). }
    cbn [cut_first]. rewrite Hno.
    rewrite IH by discriminate. reflexivity.
Qed.

Lemma clean_entries (fm : obj) : clean fm -> clean (entries fm).
Proof.
  intros [Hd Ho]. pose proof (entries_perm fm) as Hp. split.
  - eapply Permutation_NoDup; [|exact Hd]. now apply Permutation_map.
  - eapply Permutation_Forall; eassumption.
Qed.

Lemma match_frontmatter_render (fm : obj) (b : str) :
  clean fm -> fm <> [] ->
  match_frontmatter (render fm b) = Some (serializeFrontmatter fm, b).
Proof.
  intros Hc Hne. unfold match_frontmatter, render.
  rewrite startsWith_app.
  rewrite skipn_app, skipn_all, Nat.sub_diag. cbn [app skipn].
  unfold serializeFrontmatter.
  destruct (clean_entries fm Hc) as [_ Ho].
  apply cut_first_block.
  - intros E. apply map_eq_nil in E.
    apply Hne. apply Permutation_nil. rewrite <- E. symmetry.
    apply entries_perm.
  - apply Forall_forall. intros line Hl.
    apply in_map_iff in Hl as [[k v] [<- He]].
    rewrite Forall_forall in Ho. destruct (Ho (k, v) He) as [Hk Hv].
    split; [now apply ser_line_single|apply ser_line_not_dashes].
Qed.

Lemma trim_space_before (s : str) : trim (" "%char :: s) = trim s.
Proof. reflexivity. Qed.

Lemma parse_line_ser (acc : obj) (k : str) (v : value) :
  key_ok k ->
  parse_line acc (ser_line (k, v))
  = match reparse v with
    | Some v' => obj_set k v' acc
    | None => acc
    end.
Proof.
  intros [Hc [_ Ht]]. unfold parse_line, ser_line. simpl fst. simpl snd.
  change (k ++ lit ": " ++ ser_value v)
    with (k ++ ":"%char :: " "%char :: ser_value v).
  rewrite cut_at_app by exact Hc. rewrite Ht, trim_space_before.
  unfold reparse. now destruct (trim (ser_value v)).
Qed.

Lemma fold_parse_other (k : str) (E : obj) (acc : obj) :
  Forall (fun e => key_ok (fst e)) E ->
  ~ In k (map fst E) ->
  obj_get k (fold_left parse_line (map ser_line E) acc) = obj_get k acc.
Proof.
  intros H. revert acc. induction H as [|[k' v'] E Hk H IH]; intros acc Hn;
    [reflexivity|].
  simpl. rewrite IH by (intros Hin; apply Hn; now right).
  rewrite parse_line_ser by exact Hk.
  destruct (reparse v'); [|reflexivity].
  unfold obj_set. destruct (str_eqb k' proto_key); [reflexivity|].
  apply obj_get_put_other. intros ->. apply Hn. now left.
Qed.

Lemma fold_parse_get (k : str) (v v' : value) (E : obj) (acc : obj) :
  NoDup (map fst E) ->
  Forall (fun e => key_ok (fst e)) E ->
  In (k, v) E ->
  k <> proto_key ->
  reparse v = Some v' ->
  obj_get k (fold_left parse_line (map ser_line E) acc) = Some v'.
Proof.
  intros Hd Ho Hin Hk Hr. revert acc.
  induction E as [|[k2 v2] E IH]; intros acc; [contradiction|].
  inversion Hd as [|? ? Hn Hd']; subst.
  inversion Ho as [|? ? Hk2 Ho']; subst.
  simpl. destruct Hin as [E1|Hin].
  - inversion E1; subst. rewrite fold_parse_other by assumption.
    rewrite parse_line_ser by exact Hk2. rewrite Hr.
    unfold obj_set. apply str_eqb_false in Hk. rewrite Hk.
    apply obj_get_put_same.
  - now apply IH.
Qed.

(** The front matter read back from a rendered file. *)
Lemma reread_get (fm : obj) (b : str) (k : str) (v v' : value) :
  clean fm -> In (k, v) fm -> k <> proto_key -> reparse v = Some v' ->
  obj_get k (frontmatter (parseFrontmatter (render fm b))) = Some v'
  /\ body (parseFrontmatter (render fm b)) = b.
Proof.
  intros Hc Hin Hk Hr.
  assert (Hne : fm <> []) by (intros ->; contradiction).
  unfold parseFrontmatter. rewrite match_frontmatter_render by assumption.
  simpl. split; [|reflexivity].
  unfold parse_yaml, serializeFrontmatter.
  destruct (clean_entries fm Hc) as [Hd Ho].
  assert (Hin' : In (k, v) (entries fm))
    by (eapply Permutation_in; [apply entries_perm|exact Hin]).
  rewrite split_char_join.
  - apply fold_parse_get with (v := v); try assumption.
    eapply Forall_impl; [|exact Ho]. now intros e [He _].
  - intros E. apply map_eq_nil in E. now rewrite E in Hin'.
  - apply Forall_forall. intros line Hl.
    apply in_map_iff in Hl as [[k2 v2] [<- He]].
    rewrite Forall_forall in Ho. destruct (Ho (k2, v2) He) as [Hk2 Hv2].
    now apply ser_line_single.
Qed.

Lemma removelast_snoc (s : str) (c : ascii) : removelast (s ++ [c]) = s.
Proof. apply removelast_last. Qed.

Lemma quoted_trimmed (s : str) : trim (quoted s) = quoted s.
Proof.
  apply trimmed_trim. unfold quoted. split.
  - reflexivity.
  - change (dq :: s ++ [dq]) with ((dq :: s) ++ [dq]).
    rewrite rev_app_distr. reflexivity.
Qed.

Lemma reparse_quoted (s : str) :
  includes (lit " ") s = true -> reparse (VStr s) = Some (VStr s).
Proof.
  intros H. unfold reparse. cbn [ser_value]. rewrite H, quoted_trimmed.
  unfold quoted, parse_value. cbn [startsWith lit list_ascii_of_string].
  change (ascii_eqb "["%char dq) with false.
  rewrite ascii_eqb_refl. cbn [andb].
  unfold slice_1_m1. cbn [tl]. now rewrite removelast_snoc.
Qed.

Lemma reparse_plain (s : str) :
  plain_scalar s -> reparse (VStr s) = Some (VStr s).
Proof.
  intros [H|[Ht [c [r [-> [Hb Hq]]]]]]; [now apply reparse_quoted|].
  destruct (includes (lit " ") (c :: r)) eqn:E; [now apply reparse_quoted|].
  unfold reparse. cbn [ser_value]. rewrite E, Ht.
  unfold parse_value. cbn [startsWith lit list_ascii_of_string].
  assert (E1 : ascii_eqb "["%char c = false)
    by (apply ascii_eqb_false; congruence).
  assert (E2 : ascii_eqb dq c = false)
    by (apply ascii_eqb_false; congruence).
  now rewrite E1, E2.
Qed.

Lemma literal_key_ok (k : str) :
  forallb (fun c => is_lower c || ascii_eqb c "_"%char) k = true -> key_ok k.
Proof.
  intros H. rewrite forallb_forall in H.
  assert (Hc : forall x, In x k -> x <> ":"%char /\ x <> nl /\ is_ws x = false).
  { intros x Hx. specialize (H x Hx).
    repeat split; try (intros ->; discriminate H).
    apply orb_true_iff in H as [H|H].
    - unfold is_lower in H. apply andb_true_iff in H as [H1 H2].
      apply Nat.leb_le in H1, H2. unfold is_ws.
      repeat rewrite orb_false_iff. repeat split.
      + apply andb_false_iff. right. apply Nat.leb_gt. lia.
      + apply Nat.eqb_neq. lia.
      + apply Nat.eqb_neq. lia.
    - apply ascii_eqb_true in H. now subst. }
  split; [|split].
  - intros Hin. destruct (Hc _ Hin) as [H1 _]. now apply H1.
  - intros Hin. destruct (Hc _ Hin) as [_ [H2 _]]. now apply H2.
  - apply trimmed_trim. split.
    + destruct k as [|x k]; [reflexivity|].
      apply trimStart_fixed. apply Hc. now left.
    + destruct (rev k) as [|x r] eqn:Er; [reflexivity|].
      apply trimStart_fixed. apply Hc. apply in_rev. rewrite Er. now left.
Qed.

Lemma blocked_frontmatter_clean (now reason : str) (fm : obj) :
  single_line now -> single_line reason -> clean fm ->
  clean (blocked_frontmatter now reason fm).
Proof.
  intros Hn Hr Hc. unfold blocked_frontmatter.
  apply clean_put; [now apply literal_key_ok|exact Hr|].
  apply clean_put; [now apply literal_key_ok|exact Hn|].
  apply clean_put; [now apply literal_key_ok| |exact Hc].
  intros H. simpl in H. repeat (destruct H as [E|H]; [discriminate E|]).
  exact H.
Qed.

Lemma blocked_frontmatter_status (now reason : str) (fm : obj) :
  In (k_status, VStr (lit "blocked")) (blocked_frontmatter now reason fm).
Proof.
  unfold blocked_frontmatter.
  apply obj_put_keeps; [discriminate|].
  apply obj_put_keeps; [discriminate|].
  apply obj_put_in.
Qed.

Lemma blocked_frontmatter_reason (now reason : str) (fm : obj) :
  In (k_blocked_reason, VStr reason) (blocked_frontmatter now reason fm).
Proof. unfold blocked_frontmatter. apply obj_put_in. Qed.

(** ** File names *)

Lemma take_while_app (p : ascii -> bool) (a : str) (c : ascii) (rest : str) :
  forallb p a = true -> p c = false ->
  take_while p (a ++ c :: rest) = a /\ drop_while p (a ++ c :: rest) = c :: rest.
Proof.
  intros Ha Hc. induction a as [|x a IH]; simpl.
  - now rewrite Hc.
  - simpl in Ha. apply andb_true_iff in Ha as [Hx Ha]. rewrite Hx.
    destruct (IH Ha) as [-> ->]. now split.
Qed.

Lemma endsWith_app (p s : str) : endsWith p (s ++ p) = true.
Proof. unfold endsWith. rewrite rev_app_distr. apply startsWith_app. Qed.

Lemma parseFilename_build (n st sl : str) (p : tier) :
  well_formed_parts n st sl ->
  parseFilename (buildFilename n st (tier_str p) sl)
  = mkParts n st (tier_str p) sl.
Proof.
  intros [Hn [Hnd [Hst [Hsw [Hsl Hsn]]]]].
  unfold parseFilename, buildFilename.
  change (n ++ lit "-" ++ st ++ lit "-" ++ tier_str p ++ lit "-" ++ sl ++ md_ext)
    with (n ++ "-"%char :: (st ++ lit "-" ++ tier_str p ++ lit "-" ++ sl ++ md_ext)).
  destruct (take_while_app is_digit n "-"%char
              (st ++ lit "-" ++ tier_str p ++ lit "-" ++ sl ++ md_ext)
              Hnd eq_refl) as [-> ->].
  destruct n as [|n0 n']; [congruence|].
  change (st ++ lit "-" ++ tier_str p ++ lit "-" ++ sl ++ md_ext)
    with (st ++ "-"%char :: (tier_str p ++ lit "-" ++ sl ++ md_ext)).
  destruct (take_while_app is_word st "-"%char
              (tier_str p ++ lit "-" ++ sl ++ md_ext) Hsw eq_refl) as [-> ->].
  destruct st as [|s0 st']; [congruence|].
  assert (Hcond : forall d, is_tier_digit d = true ->
            (is_tier_digit d && endsWith md_ext (sl ++ md_ext)
             && (4 <=? length (sl ++ md_ext))
             && forallb (fun c => negb (is_lt c)) (sl ++ md_ext)) = true).
  { intros d Hd. rewrite Hd, endsWith_app, forallb_app, Hsn, length_app.
    cbn [andb]. rewrite andb_true_iff. split; [|reflexivity].
    apply Nat.leb_le. destruct sl; [congruence|]. simpl. lia. }
  assert (Hcut : firstn (length (sl ++ md_ext) - 3) (sl ++ md_ext) = sl).
  { rewrite length_app. change (length md_ext) with 3.
    replace (length sl + 3 - 3) with (length sl + 0) by lia.
    rewrite firstn_app_2. simpl. apply app_nil_r. }
  destruct p; cbn [tier_str lit list_ascii_of_string app];
    [rewrite (Hcond "1"%char eq_refl) | rewrite (Hcond "2"%char eq_refl)
     | rewrite (Hcond "3"%char eq_refl)];
    rewrite Hcut; reflexivity.
Qed.

(** ** Writing and renaming *)

Lemma lookup_store_same (f c : str) (d : list (str * str)) :
  lookup f (store f c d) = Some c.
Proof.
  induction d as [|[g c'] d IH]; simpl.
  - now rewrite str_eqb_refl.
  - destruct (str_eqb g f) eqn:E; simpl.
    + now rewrite str_eqb_refl.
    + now rewrite E.
Qed.

Lemma lookup_renamed (old new c : str) (d : list (str * str)) :
  old <> new -> lookup old d = Some c ->
  lookup new (map (rename_entry old new) (remove_file new d)) = Some c
  /\ lookup old (map (rename_entry old new) (remove_file new d)) = None.
Proof.
  intros Hne. unfold rename_entry.
  assert (Hnone : forall d', lookup old
            (map (fun e => if str_eqb (fst e) old then (new, snd e) else e)
                 (remove_file new d')) = None).
  { induction d' as [|[g c'] d' IH]; [reflexivity|]. simpl.
    destruct (str_eqb g new) eqn:E1; simpl; [exact IH|].
    destruct (str_eqb g old) eqn:E2; simpl.
    - destruct (str_eqb new old) eqn:E3; [|exact IH].
      apply str_eqb_true in E3. congruence.
    - now rewrite E2. }
  intros H. split; [|apply Hnone].
  induction d as [|[g c'] d IH]; [discriminate|]. simpl in H |- *.
  destruct (str_eqb g old) eqn:E2.
  - apply str_eqb_true in E2. subst g. inversion H; subst.
    destruct (str_eqb old new) eqn:E1;
      [apply str_eqb_true in E1; congruence|].
    simpl. now rewrite str_eqb_refl, str_eqb_refl.
  - destruct (str_eqb g new) eqn:E1; simpl; [now apply IH|].
    rewrite E2. simpl. rewrite E1. now apply IH.
Qed.

Lemma write_and_rename_run (f c newF : str) (s : fs) :
  write_and_rename f c newF s
  = (inr tt,
     if str_eqb f newF
     then mkFs (store f c (files s)) (trace s ++ [OpWrite f c])
     else mkFs (map (rename_entry f newF)
                    (remove_file newF (store f c (files s))))
               (trace s ++ [OpWrite f c; OpRename f newF])).
Proof.
  unfold write_and_rename, bind, writeFile.
  destruct (str_eqb f newF) eqn:E; cbn [negb]; [reflexivity|].
  unfold rename. cbn [files trace]. rewrite lookup_store_same, E.
  now rewrite <- app_assoc.
Qed.

Lemma single_line_check (s : str) :
  forallb (fun c => negb (ascii_eqb c nl)) s = true -> single_line s.
Proof.
  intros H Hin. rewrite forallb_forall in H. specialize (H nl Hin).
  now rewrite ascii_eqb_refl in H.
Qed.

(** C3, amended: for an existing file with a well-formed name, a one-line
    timestamp and a one-line reason that the front-matter syntax carries
    unchanged (it contains a space, or it is not empty, has no blank at
    either end and starts with neither a bracket nor a quote), [blockTodo]
    first writes the new content under the old name and then renames the
    file to number-blocked-priority-slug, keeping number, priority and slug;
    a subsequent [get] of the new name returns an item whose front matter
    has status blocked and the given reason, with the body unchanged. *)
Theorem blockTodo_transition (D now f reason content n st sl : str) (p : tier)
        (s : fs) :
  lookup f (files s) = Some content ->
  f = buildFilename n st (tier_str p) sl ->
  well_formed_parts n st sl ->
  single_line now -> single_line reason -> plain_scalar reason ->
  let newFilename := buildFilename n (lit "blocked") (tier_str p) sl in
  let newContent :=
    render (blocked_frontmatter now reason (frontmatter (parseFrontmatter content)))
           (body (parseFrontmatter content)) in
  exists s',
    blockTodo now f reason s = (inr newFilename, s')
    /\ trace s' = trace s ++ [OpRead f; OpWrite f newContent]
                  ++ (if str_eqb f newFilename then []
                      else [OpRename f newFilename])
    /\ lookup newFilename (files s') = Some newContent
    /\ (f <> newFilename -> lookup f (files s') = None)
    /\ parseFilename newFilename = mkParts n (lit "blocked") (tier_str p) sl
    /\ exists item s'',
         getTodo D newFilename s' = (inr item, s'')
         /\ t_filename item = newFilename
         /\ t_number item = n
         /\ t_slug item = sl
         /\ obj_get k_status (t_frontmatter item) = Some (VStr (lit "blocked"))
         /\ obj_get k_blocked_reason (t_frontmatter item) = Some (VStr reason)
         /\ t_content item = body (parseFrontmatter content).
Proof.
  intros Hlook Hf Hwf Hnow Hreason Hplain newFilename newContent.
  assert (Hparts : parseFilename f = mkParts n st (tier_str p) sl)
    by (rewrite Hf; now apply parseFilename_build).
  assert (Hwf' : well_formed_parts n (lit "blocked") sl).
  { destruct Hwf as [H1 [H2 [_ [_ [H5 H6]]]]].
    repeat split; try assumption; try discriminate; reflexivity. }
  assert (Hnew : parseFilename newFilename
                 = mkParts n (lit "blocked") (tier_str p) sl)
    by now apply parseFilename_build.
  assert (Hrun : blockTodo now f reason s
                 = (inr newFilename,
                    if str_eqb f newFilename
                    then mkFs (store f newContent (files s))
                              (trace s ++ [OpRead f; OpWrite f newContent])
                    else mkFs (map (rename_entry f newFilename)
                                 (remove_file newFilename
                                    (store f newContent (files s))))
                              (trace s ++ [OpRead f; OpWrite f newContent;
                                           OpRename f newFilename]))).
  { unfold blockTodo, bind at 1, readFile. rewrite Hlook, Hparts.
    cbn [fp_number fp_priority fp_slug]. unfold bind at 1.
    fold newFilename. fold newContent.
    rewrite write_and_rename_run. unfold ret, log. cbn [files trace].
    destruct (str_eqb f newFilename); now rewrite <- app_assoc. }
  set (s' := snd (blockTodo now f reason s)).
  assert (Hlook' : lookup newFilename (files s') = Some newContent
                   /\ (f <> newFilename -> lookup f (files s') = None)).
  { unfold s'. rewrite Hrun. cbn [snd].
    destruct (str_eqb f newFilename) eqn:E; cbn [files].
    - apply str_eqb_true in E. rewrite <- E.
      split; [apply lookup_store_same|congruence].
    - apply str_eqb_false in E.
      destruct (lookup_renamed f newFilename newContent
                  (store f newContent (files s)) E
                  (lookup_store_same f newContent (files s))) as [H1 H2].
      split; [exact H1|now intros _]. }
  destruct Hlook' as [Hl1 Hl2].
  pose proof (parseFrontmatter_clean content) as Hclean.
  pose proof (blocked_frontmatter_clean now reason _ Hnow Hreason Hclean) as Hc.
  destruct (reread_get _ (body (parseFrontmatter content)) k_status
              (VStr (lit "blocked")) (VStr (lit "blocked")) Hc
              (blocked_frontmatter_status now reason _)) as [Hst Hbody];
    [discriminate|reflexivity|].
  destruct (reread_get _ (body (parseFrontmatter content)) k_blocked_reason
              (VStr reason) (VStr reason) Hc
              (blocked_frontmatter_reason now reason _)) as [Hre _];
    [discriminate|now apply reparse_plain|].
  fold newContent in Hst, Hbody, Hre.
  exists s'. split; [unfold s'; now rewrite Hrun|].
  split.
  { unfold s'. rewrite Hrun. cbn [snd].
    now destruct (str_eqb f newFilename). }
  split; [exact Hl1|]. split; [exact Hl2|]. split; [exact Hnew|].
  exists (todo_of D newFilename newContent), (log (OpRead newFilename) s').
  split.
  { unfold getTodo, bind, readFile. now rewrite Hl1. }
  unfold todo_of. cbn [t_filename t_number t_slug t_frontmatter t_content].
  rewrite Hnew. cbn [fp_number fp_slug].
  repeat split; assumption.
Qed.

Lemma blockTodo_transition_witness :
  exists s',
    blockTodo (lit "2026-01-05T10:00:00.000Z")
              (lit "003-pending-p2-write-docs.md")
              (lit "needs a product decision") sample_fs
    = (inr (lit "003-blocked-p2-write-docs.md"), s')
    /\ exists item s'',
         getTodo sample_root (lit "003-blocked-p2-write-docs.md") s'
         = (inr item, s'')
         /\ obj_get k_status (t_frontmatter item) = Some (VStr (lit "blocked"))
         /\ obj_get k_blocked_reason (t_frontmatter item)
            = Some (VStr (lit "needs a product decision")).
Proof.
  destruct (blockTodo_transition sample_root (lit "2026-01-05T10:00:00.000Z")
              (lit "003-pending-p2-write-docs.md")
              (lit "needs a product decision")
              (front [lit "status: pending"; lit "priority: p2";
                      lit "issue_id: 003"] (lit "# Write docs"))
              (lit "003") (lit "pending") (lit "write-docs") P2 sample_fs)
    as [s' [Hrun [_ [_ [_ [_ [item [s'' [Hget [_ [_ [_ [Hst [Hre _]]]]]]]]]]]]]].
  - reflexivity.
  - reflexivity.
  - repeat split; try discriminate; reflexivity.
  - apply single_line_check. reflexivity.
  - apply single_line_check. reflexivity.
  - left. reflexivity.
  - exists s'. split; [exact Hrun|].
    exists item, s''. repeat split; assumption.
Defined.

(** C3 as stated fails: blocked with the reason [[WIP]], the item read back
    has an array as its reason, not the given string. *)
Lemma blockTodo_bracket_reason_not_kept :
  exists s' item s'',
    blockTodo (lit "2026-01-05T10:00:00.000Z")
              (lit "003-pending-p2-write-docs.md") (lit "[WIP]") sample_fs
    = (inr (lit "003-blocked-p2-write-docs.md"), s')
    /\ getTodo sample_root (lit "003-blocked-p2-write-docs.md") s'
       = (inr item, s'')
    /\ obj_get k_blocked_reason (t_frontmatter item) = Some (VArr [lit "WIP"])
    /\ obj_get k_blocked_reason (t_frontmatter item) <> Some (VStr (lit "[WIP]")).
Proof.
  eexists. eexists. eexists.
  split; [vm_compute; reflexivity|].
  split; [vm_compute; reflexivity|].
  split; [reflexivity|discriminate].
Qed.

(** ** Decimal numbers *)

Lemma digit_char_spec (d : Z) :
  (0 <= d < 10)%Z ->
  is_digit (digit_char d) = true /\ digit_val (digit_char d) = d.
Proof.
  intros H.
  assert (C : (d = 0 \/ d = 1 \/ d = 2 \/ d = 3 \/ d = 4 \/ d = 5 \/ d = 6
               \/ d = 7 \/ d = 8 \/ d = 9)%Z) by lia.
  repeat (destruct C as [->|C]; [split; reflexivity|]).
  subst. split; reflexivity.
Qed.

Lemma digits_go_app (a : Z) (x y : str) :
  forallb is_digit x = true ->
  digits_go a (x ++ y) = digits_go (digits_go a x) y.
Proof.
  revert a. induction x as [|c x IH]; intros a H; [reflexivity|].
  simpl in H. apply andb_true_iff in H as [Hc Hx].
  simpl. rewrite Hc. now apply IH.
Qed.

Lemma dec_go_acc (fuel : nat) (n : Z) (acc : str) :
  dec_go fuel n acc = dec_go fuel n [] ++ acc.
Proof.
  revert n acc. induction fuel as [|f IH]; intros n acc; [reflexivity|].
  cbn [dec_go]. destruct (n <? 10)%Z; [reflexivity|].
  rewrite IH. rewrite (IH _ [_]). now rewrite <- app_assoc.
Qed.

Lemma dec_go_small (f : nat) (n : Z) (acc : str) :
  (0 <= n < 10)%Z -> dec_go (S f) n acc = digit_char n :: acc.
Proof.
  intros H. cbn [dec_go].
  replace (n <? 10)%Z with true by (symmetry; apply Z.ltb_lt; lia).
  now rewrite Z.mod_small by lia.
Qed.

Lemma dec_go_step (f : nat) (n : Z) (acc : str) :
  (10 <= n)%Z ->
  dec_go (S f) n acc = dec_go f (n / 10)%Z (digit_char (n mod 10) :: acc).
Proof.
  intros H. cbn [dec_go]. now replace (n <? 10)%Z with false
    by (symmetry; apply Z.ltb_ge; lia).
Qed.

Lemma digit_char_mod (n : Z) : is_digit (digit_char (n mod 10)) = true.
Proof. apply digit_char_spec, Z.mod_pos_bound. lia. Qed.

Lemma dec_go_chars (fuel : nat) (n : Z) (acc : str) :
  forallb is_digit acc = true -> forallb is_digit (dec_go fuel n acc) = true.
Proof.
  revert n acc. induction fuel as [|f IH]; intros n acc H; [exact H|].
  cbn [dec_go]. destruct (n <? 10)%Z.
  - cbn [forallb]. now rewrite digit_char_mod.
  - apply IH. cbn [forallb]. now rewrite digit_char_mod.
Qed.

Lemma decimal_chars (n : Z) :
  forallb is_digit (decimal n) = true /\ decimal n <> [].
Proof.
  split; [now apply dec_go_chars|].
  unfold decimal. cbn [dec_go]. destruct (n <? 10)%Z; [discriminate|].
  rewrite dec_go_acc. intros H. apply app_eq_nil in H as [_ H]. discriminate.
Qed.

Lemma dec_go_digits (fuel : nat) (n : Z) :
  (0 <= n < 2 ^ Z.of_nat fuel)%Z ->
  digits_go 0 (dec_go fuel n []) = n.
Proof.
  revert n. induction fuel as [|f IH]; intros n Hn.
  - change (2 ^ Z.of_nat 0)%Z with 1%Z in Hn.
    replace n with 0%Z by lia. reflexivity.
  - destruct (Z_lt_ge_dec n 10) as [E|E].
    + rewrite dec_go_small by lia.
      destruct (digit_char_spec n) as [H1 H2]; [lia|].
      cbn [digits_go]. now rewrite H1, H2.
    + rewrite dec_go_step by lia.
      rewrite Nat2Z.inj_succ, Z.pow_succ_r in Hn by lia.
      assert (Hp : (0 < 2 ^ Z.of_nat f)%Z) by (apply Z.pow_pos_nonneg; lia).
      assert (Hq : (0 <= n / 10 < 2 ^ Z.of_nat f)%Z).
      { split; [apply Z.div_pos; lia|apply Z.div_lt_upper_bound; lia]. }
      destruct (digit_char_spec (n mod 10)%Z) as [D1 D2];
        [apply Z.mod_pos_bound; lia|].
      rewrite dec_go_acc.
      rewrite digits_go_app by (now apply dec_go_chars).
      rewrite (IH _ Hq). cbn [digits_go]. rewrite D1, D2.
      pose proof (Z.div_mod n 10). lia.
Qed.

Lemma decimal_digits (n : Z) : (0 <= n)%Z -> digits_go 0 (decimal n) = n.
Proof.
  intros H. apply dec_go_digits. split; [exact H|].
  rewrite Nat2Z.inj_succ, Z2Nat.id by apply Z.log2_nonneg.
  destruct (Z.eq_dec n 0) as [->|Hn]; [reflexivity|].
  apply Z.log2_spec. lia.
Qed.


Lemma String_of_Z_small (n : Z) :
  (n < two53)%Z -> String_of_Z n = decimal n.
Proof.
  intros H. unfold String_of_Z, String_of_double.
  rewrite to_double_small by exact H.
  now replace (n <? two53)%Z with true by (symmetry; now apply Z.ltb_lt).
Qed.

Lemma String_of_Z_digits (n : Z) :
  (0 <= n < two53)%Z ->
  forallb is_digit (String_of_Z n) = true
  /\ digits_go 0 (String_of_Z n) = n
  /\ String_of_Z n <> [].
Proof.
  intros H. rewrite String_of_Z_small by lia.
  destruct (decimal_chars n) as [H1 H2].
  split; [exact H1|]. split; [now apply decimal_digits|exact H2].
Qed.


(** The characters of a number in decimal or exponent notation. *)
Lemma String_of_double_shape (x : Z) :
  number_shape (String_of_double x).
Proof.
  assert (D : forall n, number_shape (decimal n)).
  { intros n. destruct (decimal_chars n) as [H1 H2].
    exists (decimal n), []. rewrite app_nil_r.
    repeat split; try assumption. now left. }
  assert (Z0 : forall j, forallb is_digit (repeat "0"%char j) = true).
  { induction j as [|j IH]; [reflexivity|]. simpl. exact IH. }
  assert (N : forall l, forallb is_digit l = true ->
                        forallb is_number_char l = true).
  { intros l Hl. apply forallb_forall. intros c Hc.
    rewrite forallb_forall in Hl. unfold is_number_char.
    now rewrite (Hl c Hc). }
  unfold String_of_double. destruct (x <? two53)%Z; [apply D|].
  destruct (shortest 17 x (Z.of_nat (length (decimal x))) 1)
    as [[[s n] k]|]; [|apply D].
  destruct (decimal_chars s) as [H1 H2].
  destruct (n <=? 21)%Z.
  - exists (decimal s ++ repeat "0"%char (Z.to_nat (n - k))), [].
    rewrite app_nil_r. split; [reflexivity|]. split.
    + now rewrite forallb_app, H1, Z0.
    + split; [|now left]. intros E. apply app_eq_nil in E as [E _].
      now apply H2.
  - destruct (decimal_chars (n - 1)%Z) as [G1 _].
    apply N in G1.
    destruct (decimal s) as [|d ds]; [congruence|].
    cbn [forallb] in H1. apply andb_true_iff in H1 as [Hd Hds].
    apply N in Hds.
    exists [d]. eexists. split; [reflexivity|].
    split; [cbn [forallb]; now rewrite Hd|]. split; [discriminate|].
    right. destruct ds as [|d' ds'].
    + exists "e"%char. eexists. split; [reflexivity|].
      split; [reflexivity|]. split; [discriminate|].
      change (forallb is_number_char (lit "e+" ++ decimal (n - 1)) = true).
      now rewrite forallb_app, G1.
    + exists "."%char. eexists. split; [reflexivity|].
      split; [reflexivity|]. split; [discriminate|].
      change (forallb is_number_char
                (lit "." ++ (d' :: ds') ++ lit "e+" ++ decimal (n - 1)) = true).
      now rewrite !forallb_app, Hds, G1.
Qed.

Lemma digits_go_zeros (j : nat) (s : str) :
  digits_go 0 (repeat "0"%char j ++ s) = digits_go 0 s.
Proof. induction j as [|j IH]; [reflexivity|]. simpl. exact IH. Qed.

Lemma padStart0_shape (w : nat) (s : str) :
  number_shape s -> number_shape (padStart0 w s).
Proof.
  intros [ds [rest [E [H1 [H2 H3]]]]]. unfold padStart0.
  exists (repeat "0"%char (w - length s) ++ ds), rest.
  split; [rewrite E; now rewrite app_assoc|]. split.
  - rewrite forallb_app, H1.
    induction (w - length s) as [|j IH]; [reflexivity|]. simpl. exact IH.
  - split; [|exact H3]. intros E'. apply app_eq_nil in E' as [_ E'].
    now apply H2.
Qed.

Lemma padStart0_number (w : nat) (s : str) :
  forallb is_digit s = true -> s <> [] ->
  forallb is_digit (padStart0 w s) = true
  /\ parseInt (padStart0 w s) = Some (to_double (digits_go 0 s))
  /\ w <= length (padStart0 w s)
  /\ (length s <= w -> length (padStart0 w s) = w).
Proof.
  intros Hd Hne. unfold padStart0.
  assert (Hz : forallb is_digit (repeat "0"%char (w - length s)) = true).
  { induction (w - length s) as [|j IH]; [reflexivity|]. simpl. exact IH. }
  split; [now rewrite forallb_app, Hz, Hd|]. split; [|split].
  - unfold parseInt.
    destruct (repeat "0"%char (w - length s) ++ s) as [|c r] eqn:E.
    + apply app_eq_nil in E as [_ E]. congruence.
    + assert (Hc : is_digit c = true).
      { assert (Hall : forallb is_digit (c :: r) = true)
          by (rewrite <- E; now rewrite forallb_app, Hz, Hd).
        simpl in Hall. now apply andb_true_iff in Hall as [Hall _]. }
      rewrite Hc, <- E. now rewrite digits_go_zeros.
  - rewrite length_app, repeat_length. lia.
  - intros Hl. rewrite length_app, repeat_length. lia.
Qed.

(** ** getNextNumber *)

Lemma max_step_bounds (f : str) (m : Z) :
  (0 <= m)%Z ->
  (m <= max_step f m)%Z
  /\ (endsWith md_ext f = true -> to_double (file_id f) <= max_step f m)%Z
  /\ (max_step f m = m
      \/ (endsWith md_ext f = true /\ max_step f m = to_double (file_id f))).
Proof.
  intros Hm. unfold max_step, file_id.
  destruct (endsWith md_ext f); cbn [negb].
  - rewrite parseInt_number.
    destruct (m <? to_double (digits_go 0 (fp_number (parseFilename f))))%Z
      eqn:E.
    + apply Z.ltb_lt in E. split; [lia|]. split; [lia|]. right. now split.
    + apply Z.ltb_ge in E. split; [lia|]. split; [lia|]. now left.
  - split; [lia|]. split; [discriminate|]. now left.
Qed.

Lemma maxNumber_fold (names : list str) (m : Z) :
  (0 <= m)%Z ->
  let r := fold_left (fun m f => max_step f m) names m in
  (m <= r)%Z
  /\ (forall f, In f names -> endsWith md_ext f = true ->
                to_double (file_id f) <= r)%Z
  /\ (r = m \/ exists f, In f names /\ endsWith md_ext f = true
                          /\ r = to_double (file_id f)).
Proof.
  revert m. induction names as [|g names IH]; intros m Hm; simpl.
  - repeat split; [lia|tauto|now left].
  - destruct (max_step_bounds g m Hm) as [H1 [H2 H3]].
    destruct (IH (max_step g m)) as [I1 [I2 I3]]; [lia|].
    split; [lia|]. split.
    + intros f [->|Hf] Hmd; [specialize (H2 Hmd); lia|now apply I2].
    + destruct I3 as [I3|[f [Hf [Hmd I3]]]].
      * destruct H3 as [H3|[Hmd H3]]; [left; lia|].
        right. exists g. repeat split; [now left|exact Hmd|lia].
      * right. exists f. repeat split; [now right|exact Hmd|exact I3].
Qed.

(** The largest number that [getNextNumber] finds is the largest id of a
    file with the extension, each id as [parseInt] reads it. *)
Lemma maxNumber_of_spec (names : list str) :
  (0 <= maxNumber_of names)%Z
  /\ (forall f, In f names -> endsWith md_ext f = true ->
                to_double (file_id f) <= maxNumber_of names)%Z
  /\ (maxNumber_of names = 0%Z
      \/ exists f, In f names /\ endsWith md_ext f = true
                   /\ maxNumber_of names = to_double (file_id f)).
Proof.
  unfold maxNumber_of.
  destruct (maxNumber_fold names 0%Z) as [H1 [H2 H3]]; [lia|].
  repeat split; assumption.
Qed.

(** When every id in the directory is below the bound, which is at most
    2^53, the ids are read exactly and the largest number is the largest
    id. *)
Lemma maxNumber_of_exact (names : list str) (bound : Z) :
  (0 < bound <= two53)%Z ->
  (forall f, In f names -> endsWith md_ext f = true -> file_id f < bound)%Z ->
  (0 <= maxNumber_of names < bound)%Z
  /\ (forall f, In f names -> endsWith md_ext f = true ->
                file_id f <= maxNumber_of names)%Z
  /\ (maxNumber_of names = 0%Z
      \/ exists f, In f names /\ endsWith md_ext f = true
                   /\ maxNumber_of names = file_id f).
Proof.
  intros Hb Hall.
  destruct (maxNumber_of_spec names) as [M0 [M1 M2]].
  assert (E : forall f, In f names -> endsWith md_ext f = true ->
              to_double (file_id f) = file_id f).
  { intros f Hf Hmd. apply to_double_small. specialize (Hall f Hf Hmd). lia. }
  split; [|split].
  - split; [exact M0|]. destruct M2 as [->|[f [Hf [Hmd ->]]]]; [lia|].
    rewrite E by assumption. now apply Hall.
  - intros f Hf Hmd. rewrite <- E by assumption. now apply M1.
  - destruct M2 as [M2|[f [Hf [Hmd M2]]]]; [now left|].
    right. exists f. repeat split; try assumption.
    now rewrite <- E.
Qed.

(** ** Slugs *)

Lemma alnum_not_dash (c : ascii) : is_lower_alnum c = true -> is_dash c = false.
Proof.
  intros H. destruct (is_dash c) eqn:E; [|reflexivity].
  apply ascii_eqb_true in E. subst c. discriminate H.
Qed.

Lemma collapse_runs_shape (b : bool) (s : str) :
  forallb (fun c => is_lower_alnum c || is_dash c) (collapse_runs b s) = true
  /\ no_double_dash (collapse_runs b s) = true
  /\ (b = true -> starts_with_dash (collapse_runs b s) = false).
Proof.
  revert b. induction s as [|c s IH]; intros b; [now repeat split|].
  cbn [collapse_runs]. destruct (is_lower_alnum c) eqn:E.
  - destruct (IH false) as [H1 [H2 _]].
    pose proof (alnum_not_dash c E) as Hd.
    split; [|split].
    + cbn [forallb]. now rewrite E, H1.
    + cbn [no_double_dash]. destruct (collapse_runs false s); [reflexivity|].
      now rewrite Hd, H2.
    + intros _. exact Hd.
  - destruct b.
    + apply IH.
    + destruct (IH true) as [H1 [H2 H3]]. specialize (H3 eq_refl).
      split; [|split].
      * cbn [forallb]. now rewrite H1.
      * cbn [no_double_dash].
        destruct (collapse_runs true s) as [|d r]; [reflexivity|].
        cbn [starts_with_dash] in H3. now rewrite H3, H2, andb_false_r.
      * discriminate.
Qed.

Lemma collapse_runs_keeps (b : bool) (s : str) :
  filter is_lower_alnum (collapse_runs b s) = filter is_lower_alnum s.
Proof.
  revert b. induction s as [|c s IH]; intros b; [reflexivity|].
  cbn [collapse_runs filter]. destruct (is_lower_alnum c) eqn:E.
  - cbn [filter]. now rewrite E, IH.
  - destruct b; [apply IH|]. cbn [filter].
    change (is_lower_alnum "-"%char) with false. apply IH.
Qed.

Lemma no_double_tail (a : ascii) (t : str) :
  no_double_dash (a :: t) = true -> no_double_dash t = true.
Proof.
  cbn [no_double_dash]. destruct t as [|b t]; [reflexivity|].
  intros H. now apply andb_true_iff in H as [_ H].
Qed.

Lemma no_double_firstn (n : nat) (s : str) :
  no_double_dash s = true -> no_double_dash (firstn n s) = true.
Proof.
  revert n. induction s as [|a t IH]; intros n H.
  - now rewrite firstn_nil.
  - destruct n as [|n]; [reflexivity|].
    cbn [firstn]. pose proof (IH n (no_double_tail a t H)) as Ht.
    destruct t as [|b t]; [now rewrite firstn_nil|].
    destruct n as [|n]; [reflexivity|].
    cbn [firstn no_double_dash] in *.
    apply andb_true_iff in H as [H _]. now rewrite H, Ht.
Qed.

Lemma no_double_removelast (s : str) :
  no_double_dash s = true -> no_double_dash (removelast s) = true.
Proof. rewrite removelast_firstn_len. apply no_double_firstn. Qed.

Lemma removelast_head (s : str) :
  starts_with_dash s = false -> starts_with_dash (removelast s) = false.
Proof.
  destruct s as [|c [|d t]]; try reflexivity. intros H. exact H.
Qed.

Lemma firstn_head (n : nat) (s : str) :
  starts_with_dash s = false -> starts_with_dash (firstn n s) = false.
Proof. destruct s, n; try reflexivity. intros H. exact H. Qed.

Lemma strip_dashes_shape (s : str) :
  no_double_dash s = true ->
  no_double_dash (strip_dashes s) = true
  /\ starts_with_dash (strip_dashes s) = false
  /\ (forall x, In x (strip_dashes s) -> In x s)
  /\ filter is_lower_alnum (strip_dashes s) = filter is_lower_alnum s.
Proof.
  intros H. unfold strip_dashes.
  set (s1 := match s with
             | c :: r => if is_dash c then r else s
             | [] => []
             end).
  assert (H1 : no_double_dash s1 = true
               /\ starts_with_dash s1 = false
               /\ (forall x, In x s1 -> In x s)
               /\ filter is_lower_alnum s1 = filter is_lower_alnum s).
  { unfold s1. destruct s as [|c r]; [now repeat split|].
    destruct (is_dash c) eqn:E.
    - split; [now apply (no_double_tail c r)|]. split; [|split].
      + cbn [no_double_dash] in H. destruct r as [|d r]; [reflexivity|].
        apply andb_true_iff in H as [H _]. rewrite E in H.
        cbn [starts_with_dash]. now destruct (is_dash d).
      + intros x Hx. now right.
      + cbn [filter]. apply ascii_eqb_true in E. now subst c.
    - repeat split; auto. }
  destruct H1 as [N1 [N2 [N3 N4]]].
  destruct (rev s1) as [|c r] eqn:Er; [now repeat split|].
  destruct (is_dash c) eqn:E; [|now repeat split].
  split; [now apply no_double_removelast|].
  split; [now apply removelast_head|]. split.
  - intros x Hx. apply N3. now apply removelast_incl.
  - rewrite <- N4.
    assert (Es : s1 = rev r ++ [c]).
    { rewrite <- (rev_involutive s1), Er. reflexivity. }
    rewrite Es, removelast_last, filter_app. cbn [filter].
    apply ascii_eqb_true in E. subst c.
    change (is_lower_alnum "-"%char) with false. now rewrite app_nil_r.
Qed.

Lemma slugify_shape (t : str) :
  length (slugify t) <= 50
  /\ forallb (fun c => is_lower_alnum c || is_dash c) (slugify t) = true
  /\ no_double_dash (slugify t) = true
  /\ starts_with_dash (slugify t) = false
  /\ exists rest, filter is_lower_alnum (toLowerCase t)
                  = filter is_lower_alnum (slugify t) ++ rest.
Proof.
  unfold slugify.
  destruct (collapse_runs_shape false (toLowerCase t)) as [C1 [C2 _]].
  destruct (strip_dashes_shape _ C2) as [S1 [S2 [S3 S4]]].
  set (u := strip_dashes (collapse_runs false (toLowerCase t))) in *.
  split; [apply firstn_le_length|]. split; [|split; [|split]].
  - apply forallb_forall. intros x Hx.
    rewrite forallb_forall in C1. apply C1, S3.
    rewrite <- (firstn_skipn 50 u). apply in_or_app. now left.
  - now apply no_double_firstn.
  - now apply firstn_head.
  - exists (filter is_lower_alnum (skipn 50 u)).
    rewrite <- filter_app, firstn_skipn, S4. symmetry.
    apply collapse_runs_keeps.
Qed.









(** ** createTodo *)

Lemma createTodo_run (D : str) (options : CreateOptions) (s : fs) :
  let number := padStart0 3 (String_of_Z (maxNumber_of (map fst (files s)) + 1)) in
  let filename := buildFilename number (lit "pending")
                                (tier_str (priority options))
                                (slugify (title options)) in
  let content := render (new_frontmatter number options) (new_body options) in
  createTodo D options s
  = (inr (mkCreated filename (filepath_of D filename) number
                    (truthy (linearIssue options))),
     mkFs (store filename content (files s))
          (trace s ++ [OpReaddir; OpWrite filename content])).
Proof.
  intros number filename content.
  unfold createTodo, getNextNumber, bind, readdir, ret, writeFile, log.
  cbn [files trace]. fold number. fold filename. fold content.
  now rewrite <- app_assoc.
Qed.


(** ** Worktrees *)

Section WorktreeFacts.

Variable World : Type.
Variable perform : effect -> World -> result str * World.
Variable REPO_ROOT : str.
Variable WORKTREES_DIR : str.

Lemma run_run (command : str) (cwd : str) (w : World * list effect) :
  run perform REPO_ROOT command (Some cwd) w
  = (match fst (perform (Shell command (match cwd with
                                        | [] => REPO_ROOT
                                        | _ :: _ => cwd
                                        end)) (fst w)) with
     | inl e => inl e
     | inr out => inr (trim out)
     end,
     (snd (perform (Shell command (match cwd with
                                   | [] => REPO_ROOT
                                   | _ :: _ => cwd
                                   end)) (fst w)),
      snd w ++ [Shell command (match cwd with
                               | [] => REPO_ROOT
                               | _ :: _ => cwd
                               end)])).
Proof.
  unfold run, bind, do_effect, ret. destruct cwd as [|c d]; cbn [truthy];
    match goal with |- context [perform ?e ?x] => destruct (perform e x) as [[e'|out] w'] end;
    reflexivity.
Qed.

Lemma run_root (command : str) (w : World * list effect) :
  run perform REPO_ROOT command None w
  = (match fst (perform (Shell command REPO_ROOT) (fst w)) with
     | inl e => inl e
     | inr out => inr (trim out)
     end,
     (snd (perform (Shell command REPO_ROOT) (fst w)),
      snd w ++ [Shell command REPO_ROOT])).
Proof.
  unfold run, bind, do_effect, ret. cbn [truthy].
  destruct (perform (Shell command REPO_ROOT) (fst w)) as [[e'|out] w'];
    reflexivity.
Qed.

Lemma listWorktrees_run (all : bool) (w : World * list effect) :
  listWorktrees perform REPO_ROOT all w
  = (match fst (perform (Shell cmd_list REPO_ROOT) (fst w)) with
     | inl e => inl e
     | inr out => inr (parse_listing all (trim out))
     end,
     (snd (perform (Shell cmd_list REPO_ROOT) (fst w)),
      snd w ++ [Shell cmd_list REPO_ROOT])).
Proof.
  unfold listWorktrees, bind at 1. rewrite run_root.
  destruct (fst (perform (Shell cmd_list REPO_ROOT) (fst w))); reflexivity.
Qed.

Lemma worktree_path_truthy (name : str) :
  exists c r, worktree_path WORKTREES_DIR name = c :: r.
Proof.
  unfold worktree_path. destruct WORKTREES_DIR as [|c r]; simpl; eauto.
Qed.

Lemma createWorktree_cases (name branch : str) (w : World * list effect) :
  let path := worktree_path WORKTREES_DIR name in
  let e_list := Shell cmd_list REPO_ROOT in
  let e_fetch := Shell cmd_fetch REPO_ROOT in
  let e_add := Shell (cmd_add path branch) REPO_ROOT in
  let e_install := Shell cmd_install path in
  let failed e := failure (lit "Failed to create worktree: " ++ message e) in
  createWorktree perform REPO_ROOT WORKTREES_DIR name branch w
  = match perform e_list (fst w) with
    | (inl e, w1) => (inr (failed e), (w1, snd w ++ [e_list]))
    | (inr out, w1) =>
        if has_name name (parse_listing true (trim out))
        then (inr (failure (already_exists name)), (w1, snd w ++ [e_list]))
        else
          match perform e_fetch w1 with
          | (inl e, w2) => (inr (failed e), (w2, snd w ++ [e_list; e_fetch]))
          | (inr _, w2) =>
              match perform e_add w2 with
              | (inl e, w3) =>
                  (inr (failed e), (w3, snd w ++ [e_list; e_fetch; e_add]))
              | (inr _, w3) =>
                  match perform e_install w3 with
                  | (inl e, w4) =>
                      (inr (failed e),
                       (w4, snd w ++ [e_list; e_fetch; e_add; e_install]))
                  | (inr _, w4) =>
                      (inr (mkResult true (Some (DataCreated name path branch))
                                     None),
                       (w4, snd w ++ [e_list; e_fetch; e_add; e_install]))
                  end
              end
          end
    end.
Proof.
  intros path e_list e_fetch e_add e_install failed.
  subst e_list e_fetch e_add e_install failed.
  unfold createWorktree, try_catch, bind, listWorktrees, run, bind, do_effect,
    ret.
  fold path. cbn [truthy fst snd].
  destruct (worktree_path_truthy name) as [c [r Ep]]. fold path in Ep.
  rewrite Ep.
  destruct (perform (Shell cmd_list REPO_ROOT) (fst w)) as [[e|out] w1];
    [reflexivity|].
  cbn [fst snd].
  destruct (has_name name (parse_listing true (trim out))); [reflexivity|].
  cbn [fst snd].
  destruct (perform (Shell cmd_fetch REPO_ROOT) w1) as [[e|o2] w2];
    cbn [fst snd]; [now rewrite <- app_assoc|].
  destruct (perform (Shell (cmd_add (c :: r) branch) REPO_ROOT) w2)
    as [[e|o3] w3]; cbn [fst snd]; [now rewrite <- !app_assoc|].
  destruct (perform (Shell cmd_install (c :: r)) w3) as [[e|o4] w4];
    cbn [fst snd]; now rewrite <- !app_assoc.
Qed.

(** C7, amended: [createWorktree] never throws.  It fails with the
    already-exists error, having run nothing but the listing command,
    whenever a worktree of that name is listed.  It makes no check of the
    branch: when the name is not listed it runs the fetch and then the
    worktree-add command for the path under [WORKTREES_DIR] with the new
    branch from main, and a refusal of that command (which is what git
    answers when the branch exists) is reported as a plain creation failure
    with the message of the command.  It reports success only when the name
    was not listed and the fetch, the add and the install all succeeded, in
    that order. *)
Theorem createWorktree_guard (name branch : str) (w : World * list effect) :
  let path := worktree_path WORKTREES_DIR name in
  let e_list := Shell cmd_list REPO_ROOT in
  let e_fetch := Shell cmd_fetch REPO_ROOT in
  let e_add := Shell (cmd_add path branch) REPO_ROOT in
  let e_install := Shell cmd_install path in
  let create := createWorktree perform REPO_ROOT WORKTREES_DIR name branch in
  (exists res w', create w = (inr res, w'))
  /\ (forall out w1,
        perform e_list (fst w) = (inr out, w1) ->
        has_name name (parse_listing true (trim out)) = true ->
        create w = (inr (failure (already_exists name)),
                    (w1, snd w ++ [e_list])))
  /\ (forall out w1 o2 w2 e w3,
        perform e_list (fst w) = (inr out, w1) ->
        has_name name (parse_listing true (trim out)) = false ->
        perform e_fetch w1 = (inr o2, w2) ->
        perform e_add w2 = (inl e, w3) ->
        create w
        = (inr (failure (lit "Failed to create worktree: " ++ message e)),
           (w3, snd w ++ [e_list; e_fetch; e_add])))
  /\ (forall res w',
        create w = (inr res, w') -> success res = true ->
        exists out w1 o2 w2 o3 w3 o4,
          perform e_list (fst w) = (inr out, w1)
          /\ has_name name (parse_listing true (trim out)) = false
          /\ perform e_fetch w1 = (inr o2, w2)
          /\ perform e_add w2 = (inr o3, w3)
          /\ perform e_install w3 = (inr o4, fst w')
          /\ snd w' = snd w ++ [e_list; e_fetch; e_add; e_install]
          /\ data res = Some (DataCreated name path branch)).
Proof.
  intros path e_list e_fetch e_add e_install create.
  pose proof (createWorktree_cases name branch w) as C. cbv zeta in C.
  fold path e_list e_fetch e_add e_install create in C.
  split; [|split; [|split]].
  - rewrite C.
    destruct (perform e_list (fst w)) as [[e|out] w1]; [eauto|].
    destruct (has_name name (parse_listing true (trim out))); [eauto|].
    destruct (perform e_fetch w1) as [[e|o2] w2]; [eauto|].
    destruct (perform e_add w2) as [[e|o3] w3]; [eauto|].
    destruct (perform e_install w3) as [[e|o4] w4]; eauto.
  - intros out w1 Hl Hn. now rewrite C, Hl, Hn.
  - intros out w1 o2 w2 e w3 Hl Hn Hf Ha. now rewrite C, Hl, Hn, Hf, Ha.
  - intros res w' Hrun Hs. rewrite C in Hrun. clear C.
    destruct (perform e_list (fst w)) as [[e|out] w1] eqn:Hl;
      [inversion Hrun; subst; discriminate Hs|].
    destruct (has_name name (parse_listing true (trim out))) eqn:Hn;
      [inversion Hrun; subst; discriminate Hs|].
    destruct (perform e_fetch w1) as [[e|o2] w2] eqn:Hf;
      [inversion Hrun; subst; discriminate Hs|].
    destruct (perform e_add w2) as [[e|o3] w3] eqn:Ha;
      [inversion Hrun; subst; discriminate Hs|].
    destruct (perform e_install w3) as [[e|o4] w4] eqn:Hi;
      [inversion Hrun; subst; discriminate Hs|].
    inversion Hrun; subst res w'. exists out, w1, o2, w2, o3, w3, o4.
    cbn [fst snd data]. repeat split; try reflexivity; assumption.
Qed.

End WorktreeFacts.

(** ** Listing and cleaning up *)

Lemma parse_entries_ralph (all : bool) (l : list str) :
  Forall (fun x => w_isRalph x = startsWith ralph_prefix (w_name x))
         (parse_entries all l).
Proof.
  induction l as [|entry l IH]; [constructor|].
  cbn [parse_entries].
  destruct (parse_entry entry) as [x|] eqn:E; [|exact IH].
  assert (Hx : w_isRalph x = startsWith ralph_prefix (w_name x)).
  { unfold parse_entry in E.
    destruct (find (startsWith (lit "worktree ")) (split_char nl entry));
      [|discriminate].
    inversion E; subst. reflexivity. }
  destruct (all || w_isRalph x); [constructor; assumption|exact IH].
Qed.

Lemma parse_entries_filter (l : list str) :
  parse_entries false l
  = filter (fun x => startsWith ralph_prefix (w_name x)) (parse_entries true l).
Proof.
  induction l as [|entry l IH]; [reflexivity|].
  cbn [parse_entries].
  destruct (parse_entry entry) as [x|] eqn:E; [|exact IH].
  assert (Hx : w_isRalph x = startsWith ralph_prefix (w_name x)).
  { pose proof (parse_entries_ralph true [entry]) as H.
    cbn [parse_entries] in H. rewrite E in H. cbn [orb] in H.
    now inversion H. }
  cbn [orb filter]. rewrite <- Hx. destruct (w_isRalph x); now rewrite IH.
Qed.

Lemma parse_listing_filter (out : str) :
  parse_listing false out
  = filter (fun x => startsWith ralph_prefix (w_name x)) (parse_listing true out).
Proof. apply parse_entries_filter. Qed.

Lemma errors_of_nil (names : list str) (rs : list CommandResult) :
  length rs = length names ->
  (errors_of names rs = [] <-> Forall (fun r => success r = true) rs).
Proof.
  revert rs. induction names as [|n names IH]; intros [|r rs] Hl;
    try discriminate Hl.
  - split; [constructor|reflexivity].
  - simpl. injection Hl as Hl. specialize (IH rs Hl).
    destruct (success r) eqn:E.
    + rewrite IH. split; [now constructor|intros H; now inversion H].
    + split; [discriminate|]. intros H. inversion H; congruence.
Qed.

Section EffectFacts.

Variable World : Type.
Variable P : effect -> bool.

Lemma only_ret (A : Type) (a : A) :
  only_effects P (@ret (World * list effect) A a).
Proof. intros w. exists []. now rewrite app_nil_r. Qed.

Lemma only_bind (A B : Type) (m : M (World * list effect) A)
      (f : A -> M (World * list effect) B) :
  only_effects P m -> (forall a, only_effects P (f a)) ->
  only_effects P (bind m f).
Proof.
  intros Hm Hf w. destruct (Hm w) as [n1 [H1 P1']]. unfold bind.
  destruct (m w) as [[e|a] w1]; cbn [snd] in *.
  - now exists n1.
  - destruct (Hf a w1) as [n2 [H2 P2']]. exists (n1 ++ n2).
    rewrite H2, H1, app_assoc. split; [reflexivity|].
    now rewrite forallb_app, P1', P2'.
Qed.

Lemma only_try (A : Type) (m : M (World * list effect) A)
      (h : exn -> M (World * list effect) A) :
  only_effects P m -> (forall e, only_effects P (h e)) ->
  only_effects P (try_catch m h).
Proof.
  intros Hm Hh w. destruct (Hm w) as [n1 [H1 P1']]. unfold try_catch.
  destruct (m w) as [[e|a] w1]; cbn [snd] in *.
  - destruct (Hh e w1) as [n2 [H2 P2']]. exists (n1 ++ n2).
    rewrite H2, H1, app_assoc. split; [reflexivity|].
    now rewrite forallb_app, P1', P2'.
  - now exists n1.
Qed.

Lemma only_for_each (A B : Type) (l : list A)
      (step : A -> B -> M (World * list effect) B) :
  (forall x acc, only_effects P (step x acc)) ->
  forall acc, only_effects P (for_each l acc step).
Proof.
  intros Hs. induction l as [|x l IH]; intros acc; simpl.
  - apply only_ret.
  - apply only_bind; [apply Hs|]. intros a. apply IH.
Qed.

End EffectFacts.

Section CleanupFacts.

Variable World : Type.
Variable perform : effect -> World -> result str * World.
Variable REPO_ROOT : str.
Variable WORKTREES_DIR : str.

Lemma only_do_effect (e : effect) :
  is_git_or_rm e = true -> only_effects is_git_or_rm (do_effect perform e).
Proof.
  intros He w. exists [e]. unfold do_effect.
  destruct (perform e (fst w)) as [r w']. cbn [snd].
  split; [reflexivity|]. simpl. now rewrite He.
Qed.

Lemma only_run (command : str) (cwd : option str) :
  startsWith (lit "git ") command = true ->
  only_effects is_git_or_rm (run perform REPO_ROOT command cwd).
Proof.
  intros H. unfold run. apply only_bind; [now apply only_do_effect|].
  intros a. apply only_ret.
Qed.

Lemma only_listWorktrees (all : bool) :
  only_effects is_git_or_rm (listWorktrees perform REPO_ROOT all).
Proof.
  unfold listWorktrees. apply only_bind; [now apply only_run|].
  intros a. apply only_ret.
Qed.

Lemma only_deleteWorktree (name : str) :
  only_effects is_git_or_rm
    (deleteWorktree perform REPO_ROOT WORKTREES_DIR name).
Proof.
  unfold deleteWorktree. apply only_try.
  - apply only_bind; [apply only_listWorktrees|]. intros existing.
    destruct (find_name name existing) as [x|]; [|apply only_ret].
    apply only_bind; [now apply only_run|]. intros _.
    apply only_bind; [now apply only_run|]. intros _.
    apply only_bind; [|intros _; apply only_ret].
    apply only_try; [|intros _; apply only_ret].
    apply only_bind; [now apply only_run|]. intros _. apply only_ret.
  - intros err. apply only_try; [|intros _; apply only_ret].
    apply only_bind.
    + unfold rm. apply only_bind; [now apply only_do_effect|].
      intros _. apply only_ret.
    + intros _. apply only_bind; [now apply only_run|].
      intros _. apply only_ret.
Qed.

Lemma only_cleanupWorktrees :
  only_effects is_git_or_rm (cleanupWorktrees perform REPO_ROOT WORKTREES_DIR).
Proof.
  unfold cleanupWorktrees. apply only_bind; [apply only_listWorktrees|].
  intros ws. apply only_bind.
  - apply only_for_each. intros x [cleaned errors]. unfold cleanup_step.
    destruct (negb (w_isRalph x)); [apply only_ret|].
    apply only_try.
    + apply only_bind; [apply only_deleteWorktree|]. intros res.
      destruct (success res); apply only_ret.
    + intros e. apply only_ret.
  - intros [cleaned errors]. apply only_ret.
Qed.

(** [deleteWorktree] always returns a result: both of its paths end in a
    handler that returns. *)
Lemma deleteWorktree_returns (name : str) (w : World * list effect) :
  exists r w', deleteWorktree perform REPO_ROOT WORKTREES_DIR name w = (inr r, w').
Proof.
  unfold deleteWorktree, try_catch at 1.
  match goal with |- context [match ?m w with _ => _ end] =>
    destruct (m w) as [[e|a] w1] end; [|eauto].
  unfold try_catch at 1.
  match goal with |- context [match ?m w1 with _ => _ end] =>
    destruct (m w1) as [[e'|a] w2] end; unfold ret; eauto.
Qed.

Lemma bind_inr (St A B : Type) (m : M St A) (f : A -> M St B)
      (s s1 : St) (a : A) :
  m s = (inr a, s1) -> bind m f s = f a s1.
Proof. intros H. unfold bind. now rewrite H. Qed.

Lemma cleanup_step_run (x : WorktreeInfo) (cleaned errors : list str)
      (w w1 : World * list effect) (r : CommandResult) :
  w_isRalph x = true ->
  deleteWorktree perform REPO_ROOT WORKTREES_DIR (w_name x) w = (inr r, w1) ->
  cleanup_step perform REPO_ROOT WORKTREES_DIR x (cleaned, errors) w
  = (inr (if success r then (cleaned ++ [w_name x], errors)
          else (cleaned,
                errors ++ [w_name x ++ lit ": "
                           ++ match error r with
                              | Some e => e
                              | None => lit "undefined"
                              end])), w1).
Proof.
  intros Hx Hr. unfold cleanup_step. rewrite Hx. cbn [negb].
  unfold try_catch. rewrite (bind_inr _ _ _ _ _ _ _ _ Hr).
  destruct (success r); reflexivity.
Qed.

Lemma cleanup_loop (ws : list WorktreeInfo) :
  Forall (fun x => w_isRalph x = true) ws ->
  forall (cleaned errors : list str) (w : World * list effect),
  exists rs w',
    delete_each perform REPO_ROOT WORKTREES_DIR (map w_name ws) w = (inr rs, w')
    /\ length rs = length (map w_name ws)
    /\ for_each ws (cleaned, errors)
                (cleanup_step perform REPO_ROOT WORKTREES_DIR) w
       = (inr (cleaned ++ cleaned_of (map w_name ws) rs,
               errors ++ errors_of (map w_name ws) rs), w').
Proof.
  intros H. induction H as [|x ws Hx H IH]; intros cleaned errors w.
  - exists [], w. simpl. now rewrite !app_nil_r.
  - destruct (deleteWorktree_returns (w_name x) w) as [r [w1 Hr]].
    cbn [map delete_each for_each].
    rewrite (bind_inr _ _ _ _ _ _ _ _ Hr).
    rewrite (bind_inr _ _ _ _ _ _ _ _
               (cleanup_step_run x cleaned errors w w1 r Hx Hr)).
    destruct (success r) eqn:Es.
    + destruct (IH (cleaned ++ [w_name x]) errors w1) as [rs [w' [H1 [H2 H3]]]].
      exists (r :: rs), w'. rewrite (bind_inr _ _ _ _ _ _ _ _ H1).
      split; [reflexivity|]. split; [simpl; now rewrite H2|].
      rewrite H3. cbn [cleaned_of errors_of]. rewrite Es.
      now rewrite <- app_assoc.
    + destruct (IH cleaned
                   (errors ++ [w_name x ++ lit ": "
                               ++ match error r with
                                  | Some e => e
                                  | None => lit "undefined"
                                  end]) w1) as [rs [w' [H1 [H2 H3]]]].
      exists (r :: rs), w'. rewrite (bind_inr _ _ _ _ _ _ _ _ H1).
      split; [reflexivity|]. split; [simpl; now rewrite H2|].
      rewrite H3. cbn [cleaned_of errors_of]. rewrite Es.
      now rewrite <- app_assoc.
Qed.

(** C9: [cleanupWorktrees] deletes, one after the other and without asking
    anything else, every listed worktree whose name starts with ralph-: the
    only effects it performs are git commands and directory removals.  Its
    report lists the names whose deletion succeeded and the errors of the
    others, its kept list is empty, and it reports success exactly when
    every deletion succeeded.  When the listing itself fails, the failure
    is thrown and nothing is reported. *)
Theorem cleanupWorktrees_report (w : World * list effect) :
  let e_list := Shell cmd_list REPO_ROOT in
  let cleanup := cleanupWorktrees perform REPO_ROOT WORKTREES_DIR in
  (exists new, snd (snd (cleanup w)) = snd w ++ new
               /\ forallb is_git_or_rm new = true)
  /\ (forall e w1, perform e_list (fst w) = (inl e, w1) ->
                   fst (cleanup w) = inl e)
  /\ (forall out w1,
        perform e_list (fst w) = (inr out, w1) ->
        let names :=
          map w_name
              (filter (fun x => startsWith ralph_prefix (w_name x))
                      (parse_listing true (trim out))) in
        exists rs w2,
          delete_each perform REPO_ROOT WORKTREES_DIR names
                      (w1, snd w ++ [e_list]) = (inr rs, w2)
          /\ length rs = length names
          /\ exists res,
               cleanup w = (inr res, w2)
               /\ data res = Some (DataCleanup (cleaned_of names rs) []
                                               (errors_of names rs))
               /\ (success res = true
                   <-> Forall (fun r => success r = true) rs)).
Proof.
  intros e_list cleanup. split; [apply only_cleanupWorktrees|]. split.
  - intros e w1 Hl. unfold cleanup, cleanupWorktrees, bind at 1.
    rewrite listWorktrees_run. fold e_list. now rewrite Hl.
  - intros out w1 Hl names.
    assert (Hws : Forall (fun x => w_isRalph x = true)
                    (parse_listing false (trim out))).
    { pose proof (parse_entries_ralph false
                    (filter is_nonempty (split [nl; nl] (trim out)))) as Hr.
      fold (parse_listing false (trim out)) in Hr.
      rewrite parse_listing_filter in Hr |- *.
      apply Forall_forall. intros x Hx. rewrite Forall_forall in Hr.
      rewrite (Hr x Hx). now apply filter_In in Hx as [_ Hx]. }
    destruct (cleanup_loop _ Hws [] [] (w1, snd w ++ [e_list]))
      as [rs [w2 [H1 [H2 H3]]]].
    rewrite parse_listing_filter in H1, H2, H3. fold names in H1, H2, H3.
    exists rs, w2. split; [exact H1|]. split; [exact H2|].
    eexists. split.
    + unfold cleanup, cleanupWorktrees, bind at 1.
      rewrite listWorktrees_run. fold e_list. rewrite Hl. cbn [fst snd].
      unfold bind at 1. rewrite parse_listing_filter. rewrite H3.
      cbn [app]. reflexivity.
    + cbn [data success]. split; [reflexivity|].
      rewrite <- (errors_of_nil names rs H2).
      destruct (errors_of names rs); split; congruence.
Qed.

End CleanupFacts.

Lemma createWorktree_guard_witness :
  createWorktree Scripted.perform sample_repo sample_worktrees
    (lit "ralph-HOL-1") (lit "feature/y")
    (Scripted.mkWorld sample_listing [], [])
  = (inr (failure (already_exists (lit "ralph-HOL-1"))),
     (Scripted.mkWorld sample_listing [], [Shell cmd_list sample_repo])).
Proof.
  apply (proj1 (proj2 (createWorktree_guard Scripted.world Scripted.perform
                         sample_repo sample_worktrees
                         (lit "ralph-HOL-1") (lit "feature/y")
                         (Scripted.mkWorld sample_listing [], [])))
           sample_listing).
  - reflexivity.
  - reflexivity.
Defined.

(** C7 as stated fails: the branch feature/x is present (the listing shows
    it checked out) and git refuses to create it again; [createWorktree]
    for a new name still runs the fetch and the worktree-add command, and
    what it returns is the creation failure, not the already-exists
    error. *)
Lemma createWorktree_branch_not_guarded :
  In (lit "feature/x") (map w_branch (parse_listing true (trim sample_listing)))
  /\ exists res w',
       createWorktree Scripted.perform sample_repo sample_worktrees
         (lit "ralph-HOL-2") (lit "feature/x")
         (Scripted.mkWorld sample_listing [lit "git worktree add"], [])
       = (inr res, w')
       /\ success res = false
       /\ error res <> Some (already_exists (lit "ralph-HOL-2"))
       /\ snd w'
          = [Shell cmd_list sample_repo; Shell cmd_fetch sample_repo;
             Shell (cmd_add (worktree_path sample_worktrees (lit "ralph-HOL-2"))
                            (lit "feature/x")) sample_repo].
Proof.
  split; [vm_compute; right; left; reflexivity|].
  eexists. eexists. split; [vm_compute; reflexivity|].
  split; [reflexivity|]. split; [vm_compute; discriminate|].
  vm_compute. reflexivity.
Qed.

(** The decision of [createWorktree] does not look at the branch at all:
    where the worktree-add command is accepted, the call succeeds although
    the listing shows the branch. *)
Example createWorktree_branch_ignored :
  exists res w',
    createWorktree Scripted.perform sample_repo sample_worktrees
      (lit "ralph-HOL-2") (lit "feature/x")
      (Scripted.mkWorld sample_listing [], [])
    = (inr res, w')
    /\ success res = true.
Proof. eexists. eexists. split; [vm_compute; reflexivity|reflexivity]. Qed.

Lemma cleanupWorktrees_report_witness :
  exists rs w2 res,
    cleanupWorktrees Scripted.perform sample_repo sample_worktrees
      (Scripted.mkWorld sample_listing [], []) = (inr res, w2)
    /\ data res
       = Some (DataCleanup (cleaned_of [lit "ralph-HOL-1"] rs) []
                           (errors_of [lit "ralph-HOL-1"] rs))
    /\ (success res = true <-> Forall (fun r => success r = true) rs).
Proof.
  destruct (proj2 (proj2 (cleanupWorktrees_report Scripted.world
                            Scripted.perform sample_repo sample_worktrees
                            (Scripted.mkWorld sample_listing [], [])))
              sample_listing (Scripted.mkWorld sample_listing []) eq_refl)
    as [rs [w2 [_ [_ [res [Hrun [Hdata Hiff]]]]]]].
  exists rs, w2, res. split; [exact Hrun|]. split; [exact Hdata|exact Hiff].
Defined.

(** On the sample listing the managed worktree is removed, with its branch,
    and the main worktree is left alone. *)
Example cleanupWorktrees_sample :
  exists res w',
    cleanupWorktrees Scripted.perform sample_repo sample_worktrees
      (Scripted.mkWorld sample_listing [], []) = (inr res, w')
    /\ success res = true
    /\ data res = Some (DataCleanup [lit "ralph-HOL-1"] [] [])
    /\ snd w'
       = [Shell cmd_list sample_repo; Shell cmd_list sample_repo;
          Shell (cmd_remove (worktree_path sample_worktrees (lit "ralph-HOL-1")))
                sample_repo;
          Shell cmd_prune sample_repo;
          Shell (cmd_branch_delete (lit "feature/x")) sample_repo].
Proof.
  eexists. eexists. split; [vm_compute; reflexivity|].
  split; [reflexivity|]. split; [reflexivity|]. vm_compute. reflexivity.
Qed.

(** ** Worked examples *)

Example parseFilename_sample :
  parseFilename (lit "001-pending-p1-extract-duplicate-utility-functions.md")
  = mkParts (lit "001") (lit "pending") (lit "p1")
            (lit "extract-duplicate-utility-functions").
Proof. reflexivity. Qed.

Example parseFilename_unknown :
  parseFilename (lit "README.md")
  = mkParts (lit "000") (lit "unknown") (lit "p3") (lit "README.md").
Proof. reflexivity. Qed.

Example parseFrontmatter_sample :
  parseFrontmatter
    (front [lit "status: pending"; lit "tags: [a, 'b']"; lit "x:"] (lit "# T"))
  = mkParsed [(k_status, VStr (lit "pending"));
              (k_tags, VArr [lit "a"; lit "b"])] (lit "# T").
Proof. reflexivity. Qed.

Example extractTitle_sample :
  extractTitle ([nl] ++ lit "# Fix  auth " ++ [nl] ++ lit "text")
  = lit "Fix  auth".
Proof. reflexivity. Qed.

Example slugify_sample :
  slugify (lit "  Fix: the AUTH bug!! (now) ") = lit "fix-the-auth-bug-now".
Proof. reflexivity. Qed.

Example getNextNumber_sample :
  fst (getNextNumber sample_fs) = inr (lit "005").
Proof. vm_compute. reflexivity. Qed.

Example listTodos_sample :
  exists a b c,
    fst (listTodos sample_root (Some (lit "pending")) sample_fs) = inr [a; b; c]
    /\ t_filename a = lit "001-pending-p1-fix-auth.md"
    /\ t_filename b = lit "002-pending-p3-refactor-api.md"
    /\ t_filename c = lit "003-pending-p2-write-docs.md".
Proof.
  eexists. eexists. eexists. split; [vm_compute; reflexivity|].
  repeat split; reflexivity.
Qed.

(** A blocked reason of two lines is cut at the line break when read back. *)
Example blockTodo_two_line_reason :
  exists s' item s'',
    blockTodo (lit "2026-01-05T10:00:00.000Z")
              (lit "003-pending-p2-write-docs.md")
              (lit "waiting" ++ [nl] ++ lit "for review") sample_fs
    = (inr (lit "003-blocked-p2-write-docs.md"), s')
    /\ getTodo sample_root (lit "003-blocked-p2-write-docs.md") s'
       = (inr item, s'')
    /\ obj_get k_blocked_reason (t_frontmatter item)
       = Some (VStr (lit "waitin")).
Proof.
  eexists. eexists. eexists.
  split; [vm_compute; reflexivity|].
  split; [vm_compute; reflexivity|]. reflexivity.
Qed.

(** Item A waits for item B: B is returned first, and once B is completed
    the next call returns A. *)
Example getNextTodo_after_completion :
  let d := [ (lit "001-pending-p1-a.md",
              front [lit "status: pending"; lit "priority: p1";
                     lit "issue_id: 001";
                     lit "dependencies: [" ++ quoted (lit "002") ++ lit "]"]
                    (lit "# A"));
             (lit "002-pending-p2-b.md",
              front [lit "status: pending"; lit "priority: p2";
                     lit "issue_id: 002"] (lit "# B")) ] in
  exists b s1 a,
    fst (getNextTodo sample_root (mkFs d [])) = inr (Some b)
    /\ t_filename b = lit "002-pending-p2-b.md"
    /\ completeTodo (lit "2026-01-05T10:00:00.000Z") (t_filename b) None
                    (mkFs d [])
       = (inr (lit "002-completed-p2-b.md"), s1)
    /\ fst (getNextTodo sample_root s1) = inr (Some a)
    /\ t_filename a = lit "001-pending-p1-a.md".
Proof.
  eexists. eexists. eexists.
  split; [vm_compute; reflexivity|]. split; [reflexivity|].
  split; [vm_compute; reflexivity|].
  split; [vm_compute; reflexivity|]. reflexivity.
Qed.

(** A dependency written as a plain string instead of an array stops the
    scan with a type error. *)
Example getNextTodo_scalar_dependency :
  fst (getNextTodo sample_root
         (mkFs [ (lit "001-pending-p1-a.md",
                  front [lit "status: pending"; lit "priority: p1";
                         lit "dependencies: 002"] (lit "# A")) ] []))
  = inl TypeError.
Proof. vm_compute. reflexivity. Qed.

(** A cycle written as an array stops the listing of two or more items. *)
Example listTodos_array_cycle :
  fst (listTodos sample_root None (mkFs array_cycle_dir [])) = inl TypeError.
Proof. vm_compute. reflexivity. Qed.

(** Two ids from 2^53 on that [parseInt] reads as the same double: the
    items stay in directory order, the larger id first. *)
Example listTodos_large_ids :
  exists a b,
    fst (listTodos sample_root None
           (mkFs [ (lit "9007199254740993-pending-p1-a.md",
                    front [lit "status: pending"; lit "priority: p1"]
                          (lit "# A"));
                   (lit "9007199254740992-pending-p1-b.md",
                    front [lit "status: pending"; lit "priority: p1"]
                          (lit "# B")) ] []))
    = inr [a; b]
    /\ t_number a = lit "9007199254740993"
    /\ t_number b = lit "9007199254740992"
    /\ numeric_id a = numeric_id b.
Proof.
  eexists. eexists. split; [vm_compute; reflexivity|].
  split; [reflexivity|]. split; [reflexivity|]. vm_compute. reflexivity.
Qed.

(** Numbers as [String] writes them: rounded to a double from 2^53 on, with
    the shortest digits that give the double back, and in exponent notation
    from 1e21 on. *)
Example String_of_Z_samples :
  String_of_Z 9007199254740993 = lit "9007199254740992"
  /\ String_of_Z (2 ^ 64) = lit "18446744073709552000"
  /\ String_of_Z (10 ^ 21) = lit "1e+21"
  /\ String_of_Z (2 ^ 70) = lit "1.1805916207174113e+21".
Proof. repeat split; vm_compute; reflexivity. Qed.

(** * Further properties *)

(** ** File names, both ways *)

Lemma take_drop_while (p : ascii -> bool) (s : str) :
  s = take_while p s ++ drop_while p s
  /\ forallb p (take_while p s) = true.
Proof.
  induction s as [|c s [IH1 IH2]]; simpl; [now split|].
  destruct (p c) eqn:E; simpl; [|now split].
  rewrite E, IH2. split; [now f_equal|reflexivity].
Qed.

Lemma endsWith_split (p s : str) :
  endsWith p s = true -> s = firstn (length s - length p) s ++ p.
Proof.
  unfold endsWith. intros H. apply startsWith_split in H.
  assert (Hs : exists x, s = x ++ p).
  { exists (rev (skipn (length (rev p)) (rev s))).
    rewrite <- (rev_involutive s) at 1. rewrite H at 1.
    rewrite rev_app_distr. now rewrite rev_involutive. }
  destruct Hs as [x ->]. rewrite length_app.
  replace (length x + length p - length p) with (length x) by lia.
  rewrite firstn_app, firstn_all, Nat.sub_diag, firstn_O.
  now rewrite app_nil_r.
Qed.

(** X1: a file name that [parseFilename] recognises is exactly the name
    that [buildFilename] builds from the four parts it returns, and those
    parts are well formed: digits, word characters, a tier, and a slug that
    is not empty and has no line break.  Every other name yields the
    fallback parts (number 000, status unknown, priority p3, the name as
    slug). *)
Theorem parseFilename_rebuild (filename : str) :
  parseFilename filename = unknown_parts filename
  \/ (exists p : tier,
        fp_priority (parseFilename filename) = tier_str p
        /\ well_formed_parts (fp_number (parseFilename filename))
                             (fp_status (parseFilename filename))
                             (fp_slug (parseFilename filename))
        /\ filename
           = buildFilename (fp_number (parseFilename filename))
                           (fp_status (parseFilename filename))
                           (fp_priority (parseFilename filename))
                           (fp_slug (parseFilename filename))).
Proof.
  destruct (take_drop_while is_digit filename) as [Hf Hds].
  unfold parseFilename.
  destruct (take_while is_digit filename) as [|c ds] eqn:Eds; [now left|].
  destruct (drop_while is_digit filename) as [|x r2] eqn:Er; [now left|].
  destruct (ascii_dec x "-"%char) as [->|Hx].
  2:{ left. destruct x as [[] [] [] [] [] [] [] []]; try reflexivity;
      congruence. }
  destruct (take_drop_while is_word r2) as [Hr2 Hst].
  destruct (take_while is_word r2) as [|w st] eqn:Est; [now left|].
  destruct (drop_while is_word r2) as [|y1 r3] eqn:Er3; [now left|].
  destruct (ascii_dec y1 "-"%char) as [->|Hy1].
  2:{ left. destruct y1 as [[] [] [] [] [] [] [] []]; try reflexivity;
      congruence. }
  destruct r3 as [|y2 r3]; [now left|].
  destruct (ascii_dec y2 "p"%char) as [->|Hy2].
  2:{ left. destruct y2 as [[] [] [] [] [] [] [] []]; try reflexivity;
      congruence. }
  destruct r3 as [|d r3]; [now left|].
  destruct r3 as [|y3 r4]; [now left|].
  destruct (ascii_dec y3 "-"%char) as [->|Hy3].
  2:{ left. destruct y3 as [[] [] [] [] [] [] [] []]; try reflexivity;
      congruence. }
  destruct (is_tier_digit d && endsWith md_ext r4 && (4 <=? length r4)
            && forallb (fun c0 => negb (is_lt c0)) r4) eqn:Ec; [|now left].
  right.
  apply andb_true_iff in Ec as [Ec Hlt]. apply andb_true_iff in Ec as [Ec Hlen].
  apply andb_true_iff in Ec as [Hd Hmd]. apply Nat.leb_le in Hlen.
  apply endsWith_split in Hmd. change (length md_ext) with 3 in Hmd.
  set (sl := firstn (length r4 - 3) r4) in *.
  assert (Hp : exists p, ["p"%char; d] = tier_str p).
  { unfold is_tier_digit in Hd.
    apply orb_true_iff in Hd as [Hd|Hd];
      [apply orb_true_iff in Hd as [Hd|Hd]|];
      apply ascii_eqb_true in Hd; subst d;
      [exists P1|exists P2|exists P3]; reflexivity. }
  destruct Hp as [p Hp]. exists p. cbn [fp_priority fp_number fp_status fp_slug].
  split; [exact Hp|]. split.
  - repeat split; try discriminate; try assumption.
    + intros E. assert (Hl : length r4 = length (sl ++ md_ext)) by now rewrite <- Hmd.
      rewrite length_app, E in Hl. simpl in Hl. lia.
    + rewrite Hmd, forallb_app in Hlt. now apply andb_true_iff in Hlt as [Hlt _].
  - rewrite Hf, Hr2. unfold buildFilename. rewrite <- Hmd. reflexivity.
Qed.

(** X2: the other way round, the name built from well-formed parts is read
    back as those parts. *)
Theorem buildFilename_parsed (n st sl : str) (p : tier) :
  well_formed_parts n st sl ->
  parseFilename (buildFilename n st (tier_str p) sl)
  = mkParts n st (tier_str p) sl.
Proof. apply parseFilename_build. Qed.

Lemma buildFilename_parsed_witness :
  parseFilename (buildFilename (lit "012") (lit "in_progress") (tier_str P2)
                               (lit "fix.md-handling"))
  = mkParts (lit "012") (lit "in_progress") (tier_str P2)
            (lit "fix.md-handling").
Proof.
  apply (buildFilename_parsed (lit "012") (lit "in_progress")
           (lit "fix.md-handling") P2).
  repeat split; try discriminate; reflexivity.
Defined.

(** ** What parseFrontmatter can return *)

Lemma obj_set_no_proto (k : str) (v : value) (o : obj) :
  ~ In proto_key (map fst o) -> ~ In proto_key (map fst (obj_set k v o)).
Proof.
  unfold obj_set. destruct (str_eqb k proto_key) eqn:E; [tauto|].
  intros H Hin. apply obj_put_keys in Hin as [Hin|Hin]; [|contradiction].
  subst k. now rewrite str_eqb_refl in E.
Qed.

Lemma parse_yaml_no_proto (yamlStr : str) :
  ~ In proto_key (map fst (parse_yaml yamlStr)).
Proof.
  unfold parse_yaml.
  assert (H0 : ~ In proto_key (map fst (@nil (str * value)))) by (simpl; tauto).
  revert H0. generalize (@nil (str * value)).
  induction (split_char nl yamlStr) as [|line lines IH]; intros fm Hfm;
    simpl; [exact Hfm|].
  apply IH. unfold parse_line.
  destruct (cut_at ":"%char line) as [[k v]|]; [|exact Hfm].
  destruct (trim v); [exact Hfm|]. now apply obj_set_no_proto.
Qed.

Lemma parseFrontmatter_no_proto (content : str) :
  ~ In proto_key (map fst (frontmatter (parseFrontmatter content))).
Proof.
  unfold parseFrontmatter.
  destruct (match_frontmatter content) as [[y b]|]; cbn [frontmatter].
  - apply parse_yaml_no_proto.
  - simpl. intros [H|[H|[]]]; discriminate H.
Qed.

(** X3: whatever the content, the front matter that [parseFrontmatter]
    returns has pairwise distinct keys; no key contains a colon or a line
    break, starts or ends with a blank, or is [__proto__]; and no string
    value or array element contains a line break. *)
Theorem parseFrontmatter_invariant (content : str) :
  let fm := frontmatter (parseFrontmatter content) in
  NoDup (map fst fm)
  /\ ~ In proto_key (map fst fm)
  /\ forall k v, In (k, v) fm ->
       ~ In ":"%char k /\ ~ In nl k /\ trim k = k
       /\ match v with
          | VStr s => ~ In nl s
          | VArr l => forall x, In x l -> ~ In nl x
          end.
Proof.
  intros fm. destruct (parseFrontmatter_clean content) as [Hd Ho].
  fold fm in Hd, Ho. split; [exact Hd|]. split.
  - apply parseFrontmatter_no_proto.
  - intros k v Hin. rewrite Forall_forall in Ho.
    destruct (Ho (k, v) Hin) as [[H1 [H2 H3]] Hv]. cbn [fst snd] in *.
    repeat split; try assumption.
    destruct v as [s|l]; [exact Hv|].
    intros x Hx. cbn [value_ok] in Hv. rewrite Forall_forall in Hv.
    now apply Hv.
Qed.

Lemma parseFrontmatter_invariant_witness :
  In (k_status, VStr (lit "pending"))
     (frontmatter (parseFrontmatter (front [lit "status:  pending "] (lit "# A"))))
  /\ trim k_status = k_status
  /\ ~ In nl (lit "pending").
Proof.
  assert (H : In (k_status, VStr (lit "pending"))
                 (frontmatter (parseFrontmatter
                                 (front [lit "status:  pending "] (lit "# A")))))
    by (vm_compute; left; reflexivity).
  split; [exact H|].
  destruct (proj2 (proj2 (parseFrontmatter_invariant
                            (front [lit "status:  pending "] (lit "# A"))))
              k_status (VStr (lit "pending")) H) as [_ [_ [H1 H2]]].
  split; assumption.
Defined.

(** ** Writing a front matter and reading it back *)

Lemma trimStart_blanks (pre s : str) :
  forallb is_ws pre = true -> trimStart (pre ++ s) = trimStart s.
Proof.
  induction pre as [|c pre IH]; intros H; [reflexivity|].
  simpl in H. apply andb_true_iff in H as [Hc Hp]. simpl. rewrite Hc.
  now apply IH.
Qed.

Lemma trim_blanks_quoted (pre x : str) :
  forallb is_ws pre = true -> trim (pre ++ quoted x) = quoted x.
Proof.
  intros H. unfold trim. rewrite trimStart_blanks by exact H.
  apply quoted_trimmed.
Qed.

Lemma strip_quotes_quoted (x : str) : strip_quotes (quoted x) = x.
Proof.
  unfold strip_quotes, quoted. change (is_quote dq) with true. cbn iota.
  unfold strip_last_quote. rewrite rev_app_distr. cbn [rev app].
  change (is_quote dq) with true. cbn iota. apply removelast_last.
Qed.

Lemma quoted_no_comma (x : str) : ~ In ","%char x -> ~ In ","%char (quoted x).
Proof.
  unfold quoted. intros H [E|Hin]; [discriminate E|].
  apply in_app_or in Hin as [Hin|[E|[]]]; [now apply H|discriminate E].
Qed.

Lemma split_quoted_list (l : list str) (pre : str) :
  l <> [] ->
  Forall (fun x => ~ In ","%char x) l ->
  forallb is_ws pre = true -> ~ In ","%char pre ->
  map (fun s => strip_quotes (trim s))
      (split_char ","%char (pre ++ join (lit ", ") (map quoted l)))
  = l.
Proof.
  intros Hne H. revert pre Hne.
  induction H as [|x l Hx H IH]; intros pre Hne Hws Hpre; [now elim Hne|].
  destruct l as [|y l].
  - cbn [map join]. rewrite split_char_single.
    + cbn [map]. now rewrite trim_blanks_quoted, strip_quotes_quoted.
    + intros Hin. apply in_app_or in Hin as [Hin|Hin]; [now apply Hpre|].
      now apply (quoted_no_comma x Hx).
  - change (join (lit ", ") (map quoted (x :: y :: l)))
      with (quoted x ++ ","%char :: ([" "%char] ++ join (lit ", ") (map quoted (y :: l)))).
    rewrite app_assoc. rewrite split_char_line.
    + cbn [map]. rewrite trim_blanks_quoted by exact Hws.
      rewrite strip_quotes_quoted. f_equal.
      apply IH; [discriminate|reflexivity|].
      intros [E|[]]. discriminate E.
    + intros Hin. apply in_app_or in Hin as [Hin|Hin]; [now apply Hpre|].
      now apply (quoted_no_comma x Hx).
Qed.

Lemma reparse_array (l : list str) :
  l <> [] -> Forall (fun x => ~ In ","%char x) l ->
  reparse (VArr l) = Some (VArr l).
Proof.
  intros Hne H. unfold reparse. cbn [ser_value].
  set (j := join (lit ", ") (map quoted l)).
  assert (Ht : trim (lit "[" ++ j ++ lit "]") = lit "[" ++ j ++ lit "]").
  { apply trimmed_trim. split; [reflexivity|].
    change (lit "[" ++ j ++ lit "]") with (("["%char :: j) ++ ["]"%char]).
    rewrite rev_app_distr. reflexivity. }
  rewrite Ht. change (lit "[" ++ j ++ lit "]") with ("["%char :: j ++ ["]"%char]).
  unfold parse_value. cbn [startsWith lit list_ascii_of_string].
  rewrite ascii_eqb_refl. cbn [andb]. unfold slice_1_m1. cbn [tl].
  rewrite removelast_last. f_equal. f_equal.
  unfold j. apply (split_quoted_list l [] Hne H); [reflexivity|simpl; tauto].
Qed.

Lemma reparse_stable (v : value) : stable_value v -> reparse v = Some v.
Proof.
  destruct v as [s|l]; cbn [stable_value].
  - apply reparse_plain.
  - intros [Hne H]. now apply reparse_array.
Qed.

Lemma obj_put_fresh (k : str) (v : value) (o : obj) :
  ~ In k (map fst o) -> obj_put k v o = o ++ [(k, v)].
Proof.
  induction o as [|[k' v'] o IH]; intros H; [reflexivity|].
  simpl. destruct (str_eqb k' k) eqn:E.
  - apply str_eqb_true in E. subst. exfalso. apply H. now left.
  - rewrite IH; [reflexivity|]. intros Hin. apply H. now right.
Qed.

Lemma fold_parse_stable (E acc : obj) :
  NoDup (map fst acc ++ map fst E) ->
  Forall (fun e => key_ok (fst e) /\ fst e <> proto_key
                   /\ stable_value (snd e)) E ->
  fold_left parse_line (map ser_line E) acc = acc ++ E.
Proof.
  intros Hd H. revert acc Hd.
  induction H as [|[k v] E [Hk [Hp Hv]] H IH]; intros acc Hd.
  - now rewrite app_nil_r.
  - cbn [map fold_left fst snd] in *.
    rewrite parse_line_ser by exact Hk. rewrite (reparse_stable v Hv).
    unfold obj_set. apply str_eqb_false in Hp. rewrite Hp.
    rewrite obj_put_fresh.
    + rewrite IH; [now rewrite <- app_assoc|].
      rewrite map_app. cbn [map fst]. now rewrite <- app_assoc.
    + apply NoDup_remove_2 in Hd. intros Hin. apply Hd.
      apply in_or_app. now left.
Qed.

(** X4: a front matter with distinct, well-formed keys and values that the
    syntax carries (one-line strings that contain a space or are plain
    tokens; non-empty arrays whose elements hold neither comma nor line
    break) survives the round trip: [parseFrontmatter] applied to the text
    that [serializeFrontmatter] produces returns the same entries, in the
    order of [Object.entries], and the body unchanged. *)
Theorem render_parse_roundtrip (fm : obj) (b : str) :
  clean fm -> fm <> [] ->
  ~ In proto_key (map fst fm) ->
  Forall (fun e => stable_value (snd e)) fm ->
  parseFrontmatter (render fm b) = mkParsed (entries fm) b.
Proof.
  intros Hc Hne Hp Hs.
  unfold parseFrontmatter. rewrite match_frontmatter_render by assumption.
  f_equal. unfold parse_yaml, serializeFrontmatter.
  destruct (clean_entries fm Hc) as [Hd Ho].
  pose proof (entries_perm fm) as Hperm.
  rewrite split_char_join.
  - rewrite fold_parse_stable; [reflexivity|exact Hd|].
    apply Forall_forall. intros e He.
    rewrite Forall_forall in Ho, Hs.
    assert (He' : In e fm) by (eapply Permutation_in; [symmetry|]; eassumption).
    destruct (Ho e He) as [Hk _]. split; [exact Hk|]. split; [|now apply Hs].
    intros E. apply Hp. rewrite <- E. now apply in_map.
  - intros E. apply map_eq_nil in E. apply Hne. apply Permutation_nil.
    rewrite <- E. now symmetry.
  - apply Forall_forall. intros line Hl.
    apply in_map_iff in Hl as [[k2 v2] [<- He]].
    rewrite Forall_forall in Ho. destruct (Ho (k2, v2) He) as [Hk2 Hv2].
    now apply ser_line_single.
Qed.

Lemma render_parse_roundtrip_witness :
  parseFrontmatter
    (render [(k_status, VStr (lit "pending"));
             (k_tags, VArr [lit "api"; lit "needs review"]);
             (lit "7", VStr (lit "seven"));
             (k_blocked_reason, VStr (lit "waiting for design"))]
            (lit "# Title"))
  = mkParsed
      (entries [(k_status, VStr (lit "pending"));
                (k_tags, VArr [lit "api"; lit "needs review"]);
                (lit "7", VStr (lit "seven"));
                (k_blocked_reason, VStr (lit "waiting for design"))])
      (lit "# Title").
Proof.
  assert (N : forall (c : ascii) (s : str),
             forallb (fun x => negb (ascii_eqb x c)) s = true -> ~ In c s).
  { intros c s H Hin. rewrite forallb_forall in H. specialize (H c Hin).
    now rewrite ascii_eqb_refl in H. }
  assert (K : forall k : str,
             forallb (fun x => negb (ascii_eqb x ":"%char)) k = true ->
             forallb (fun x => negb (ascii_eqb x nl)) k = true ->
             trim k = k -> key_ok k).
  { intros k H1 H2 H3. split; [now apply N|]. split; [now apply N|exact H3]. }
  apply render_parse_roundtrip.
  - split.
    + cbn [map fst]. repeat constructor; vm_compute; intuition discriminate.
    + repeat constructor; cbn [fst snd value_ok];
        try (apply K; reflexivity); try (apply N; reflexivity).
  - discriminate.
  - vm_compute. intuition discriminate.
  - apply Forall_cons; [|apply Forall_cons; [|apply Forall_cons;
      [|apply Forall_cons; [|apply Forall_nil]]]]; cbn [snd stable_value].
    + right. split; [reflexivity|]. eexists. eexists.
      split; [reflexivity|]. split; discriminate.
    + split; [discriminate|].
      apply Forall_cons; [|apply Forall_cons; [|apply Forall_nil]];
        apply N; reflexivity.
    + right. split; [reflexivity|]. eexists. eexists.
      split; [reflexivity|]. split; discriminate.
    + left. reflexivity.
Defined.

(** ** The title read from a body *)

Lemma take_while_stop (p : ascii -> bool) (a : str) (x : ascii) (t : str) :
  p x = false -> take_while p (a ++ x :: t) = take_while p a.
Proof.
  intros Hx. induction a as [|c a IH]; simpl; [now rewrite Hx|].
  destruct (p c); [now rewrite IH|reflexivity].
Qed.

Lemma take_while_all (p : ascii -> bool) (a : str) :
  forallb p a = true -> take_while p a = a.
Proof.
  induction a as [|c a IH]; simpl; [reflexivity|].
  intros H. apply andb_true_iff in H as [-> H]. now rewrite IH.
Qed.

Lemma take_while_holds (p : ascii -> bool) (s : str) (x : ascii) :
  In x (take_while p s) -> p x = true.
Proof.
  induction s as [|c s IH]; simpl; [tauto|].
  destruct (p c) eqn:E; [|intros []].
  intros [<-|H]; [exact E|now apply IH].
Qed.

Lemma trimStart_has_text (s : str) :
  has_text s -> exists c r, trimStart s = c :: r /\ is_ws c = false.
Proof.
  intros [x [Hin Hx]]. pose proof (trimStart_head s) as Hh.
  destruct (trimStart_split s) as [w [Hs Hw]].
  destruct (trimStart s) as [|c r].
  - exfalso. rewrite app_nil_r in Hs. subst w.
    rewrite forallb_forall in Hw. rewrite (Hw x Hin) in Hx. discriminate.
  - now exists c, r.
Qed.

Lemma is_lt_ws (c : ascii) : is_lt c = true -> is_ws c = true.
Proof.
  unfold is_lt. intros H. apply orb_true_iff in H as [H|H];
    apply ascii_eqb_true in H; subst c; reflexivity.
Qed.

Lemma title_at_text (w : str) (c : ascii) (r : str) :
  forallb is_ws w = true -> is_ws c = false ->
  title_at (" "%char :: w ++ c :: r)
  = Some (take_while (fun x => negb (is_lt x)) (c :: r)).
Proof.
  intros Hw Hc. unfold title_at.
  destruct (take_while_app is_ws (" "%char :: w) c r) as [E1 E2];
    [simpl; exact Hw|exact Hc|].
  change ((" "%char :: w) ++ c :: r) with (" "%char :: w ++ c :: r) in E1, E2.
  now rewrite E1, E2.
Qed.

Lemma new_body_head (options : CreateOptions) :
  exists tail,
    new_body options
    = nl :: "#"%char :: " "%char
      :: title options ++ [nl; nl] ++ lit "## Problem Statement" ++ nl :: tail.
Proof. eexists. unfold new_body. reflexivity. Qed.

(** X5: the body that [createTodo] writes gives the title back.  For a
    title with a character that is not a blank, [extractTitle] returns from
    [new_body] the first line of the title with the blanks at either end
    removed; that is the trimmed title itself when the title has no line
    break. *)
Theorem extractTitle_new_body (options : CreateOptions) :
  has_text (title options) ->
  extractTitle (new_body options)
  = trim (take_while (fun c => negb (is_lt c)) (trimStart (title options)))
  /\ (no_line_break (title options) ->
      extractTitle (new_body options) = trim (title options)).
Proof.
  intros Ht.
  assert (E : extractTitle (new_body options)
              = trim (take_while (fun c => negb (is_lt c))
                                 (trimStart (title options)))).
  { destruct (new_body_head options) as [tail ->].
    destruct (trimStart_has_text _ Ht) as [c [r [Hs Hc]]].
    destruct (trimStart_split (title options)) as [w [Hw1 Hw2]].
    rewrite Hs in *. rewrite Hw1 at 1.
    unfold extractTitle. cbn [title_scan andb].
    change (ascii_eqb nl "#"%char) with false. cbv iota.
    change (is_lt nl) with true. cbn [title_scan andb].
    rewrite ascii_eqb_refl. rewrite <- app_assoc.
    change ((c :: r) ++ [nl; nl] ++ lit "## Problem Statement" ++ nl :: tail)
      with (c :: r ++ nl :: (nl :: lit "## Problem Statement" ++ nl :: tail)).
    rewrite (title_at_text w c _ Hw2 Hc).
    change (c :: r ++ nl :: (nl :: lit "## Problem Statement" ++ nl :: tail))
      with ((c :: r) ++ nl :: (nl :: lit "## Problem Statement" ++ nl :: tail)).
    now rewrite take_while_stop by reflexivity. }
  split; [exact E|]. intros Hl. rewrite E.
  rewrite take_while_all.
  - unfold trim. now rewrite trimStart_idem.
  - apply forallb_forall. intros x Hx. apply trimStart_incl in Hx.
    now rewrite (Hl x Hx).
Qed.

Lemma extractTitle_new_body_witness :
  has_text (lit " Fix login ")
  /\ extractTitle
       (new_body (mkOptions P2 (lit " Fix login ") None None None None None None))
     = lit "Fix login".
Proof.
  assert (H : has_text (lit " Fix login ")).
  { exists "F"%char. split; [simpl; tauto|reflexivity]. }
  split; [exact H|].
  refine (proj2 (extractTitle_new_body
                   (mkOptions P2 (lit " Fix login ") None None None None None None)
                   H) _).
  intros c Hc. simpl in Hc.
  repeat (destruct Hc as [<-|Hc]; [reflexivity|]). destruct Hc.
Defined.

(** X6: a title made of blanks only gives no title line: [extractTitle]
    returns from the body that [createTodo] writes for it the heading of
    the next section. *)
Theorem extractTitle_blank_title (options : CreateOptions) :
  forallb is_ws (title options) = true ->
  extractTitle (new_body options) = lit "## Problem Statement".
Proof.
  intros Hb. destruct (new_body_head options) as [tail ->].
  unfold extractTitle. cbn [title_scan andb].
  change (ascii_eqb nl "#"%char) with false. cbv iota.
  change (is_lt nl) with true. cbn [title_scan andb].
  rewrite ascii_eqb_refl.
  change (title options ++ [nl; nl] ++ lit "## Problem Statement" ++ nl :: tail)
    with (title options
          ++ [nl; nl] ++ "#"%char :: (lit "# Problem Statement" ++ nl :: tail)).
  rewrite app_assoc.
  rewrite (title_at_text (title options ++ [nl; nl]) "#"%char
             (lit "# Problem Statement" ++ nl :: tail)).
  - change ("#"%char :: lit "# Problem Statement" ++ nl :: tail)
      with (lit "## Problem Statement" ++ nl :: tail).
    rewrite take_while_stop by reflexivity. reflexivity.
  - rewrite forallb_app, Hb. reflexivity.
  - reflexivity.
Qed.

Lemma extractTitle_blank_title_witness :
  extractTitle
    (new_body (mkOptions P2 (lit "  ") None None None None None None))
  = lit "## Problem Statement".
Proof.
  apply (extractTitle_blank_title
           (mkOptions P2 (lit "  ") None None None None None None)).
  reflexivity.
Defined.

Lemma title_at_line (s g : str) :
  title_at s = Some g -> forall x, In x g -> is_lt x = false.
Proof.
  unfold title_at. destruct (take_while is_ws s) as [|w0 w']; [discriminate|].
  destruct (drop_while is_ws s) as [|c r].
  - destruct (find (fun c => negb (is_lt c)) (rev w')) as [c|] eqn:F;
      [|discriminate].
    intros [= <-] x [<-|[]]. apply find_some in F as [_ F].
    now apply negb_true_iff.
  - intros [= <-] x Hx.
    apply (take_while_holds (fun c => negb (is_lt c)) (c :: r)) in Hx.
    now apply negb_true_iff.
Qed.

Lemma title_scan_line (s : str) (b : bool) (g : str) :
  title_scan b s = Some g -> forall x, In x g -> is_lt x = false.
Proof.
  revert b. induction s as [|c s IH]; intros b; simpl; [discriminate|].
  destruct (if b && ascii_eqb c "#"%char then title_at s else None) as [g'|] eqn:E.
  - intros [= <-]. destruct (b && ascii_eqb c "#"%char); [|discriminate].
    now apply title_at_line with s.
  - apply IH.
Qed.

Lemma title_scan_no_hash (s : str) (b : bool) :
  ~ In "#"%char s -> title_scan b s = None.
Proof.
  revert b. induction s as [|c s IH]; intros b H; simpl; [reflexivity|].
  destruct (ascii_eqb c "#"%char) eqn:E.
  - apply ascii_eqb_true in E. subst c. exfalso. apply H. now left.
  - rewrite andb_false_r. apply IH. intros Hin. apply H. now right.
Qed.

(** X7: the title that [extractTitle] returns never contains a line break
    and has no blank at either end, whatever the content; it is the word
    Untitled when the content has no hash sign. *)
Theorem extractTitle_shape (content : str) :
  no_line_break (extractTitle content)
  /\ trim (extractTitle content) = extractTitle content
  /\ (~ In "#"%char content -> extractTitle content = lit "Untitled").
Proof.
  unfold extractTitle. split; [|split].
  - destruct (title_scan true content) as [g|] eqn:E.
    + intros x Hx. apply trim_incl in Hx. now apply (title_scan_line _ _ _ E).
    + intros x Hx. simpl in Hx.
      repeat (destruct Hx as [<-|Hx]; [reflexivity|]). destruct Hx.
  - destruct (title_scan true content); [apply trim_idem|reflexivity].
  - intros H. now rewrite title_scan_no_hash.
Qed.

Lemma extractTitle_shape_witness :
  extractTitle (lit "Notes without a heading") = lit "Untitled".
Proof.
  apply (proj2 (proj2 (extractTitle_shape (lit "Notes without a heading")))).
  vm_compute. intuition discriminate.
Defined.

(** ** Listing without typing assumptions *)

Lemma compareTodos_outcome (a b : Todo) :
  if array_cycle a || array_cycle b
  then compareTodos a b = inl TypeError
  else exists v, compareTodos a b = inr v.
Proof.
  unfold compareTodos, array_cycle.
  destruct (obj_get k_linear_cycle (t_frontmatter a)) as [[[|xa sa]|la]|];
    destruct (obj_get k_linear_cycle (t_frontmatter b)) as [[[|xb sb]|lb]|];
    cbn [cycleOrder orb]; try reflexivity;
    repeat match goal with
      | |- context [if includes ?x ?y then _ else _] => destruct (includes x y)
      end;
    try reflexivity;
    match goal with
    | |- context [negb (?z =? 0)%Z] => destruct (negb (z =? 0)%Z)
    end;
    try (now eexists);
    match goal with
    | |- context [negb (num_is_zero ?d)] =>
        destruct (negb (num_is_zero d)); now eexists
    end.
Qed.

Lemma insert_by_perm {A : Type} (cmp : A -> A -> result num) (x : A)
      (l r : list A) :
  insert_by cmp x l = inr r -> Permutation (x :: l) r.
Proof.
  revert r. induction l as [|y l IH]; intros r; simpl.
  - intros [= <-]. apply Permutation_refl.
  - destruct (cmp x y) as [e|v]; [discriminate|].
    destruct (comes_after v).
    + destruct (insert_by cmp x l) as [e|r']; [discriminate|].
      intros [= <-]. eapply perm_trans; [apply perm_swap|].
      apply perm_skip. now apply IH.
    + intros [= <-]. apply Permutation_refl.
Qed.

Lemma sort_by_perm {A : Type} (cmp : A -> A -> result num) (l r : list A) :
  sort_by cmp l = inr r -> Permutation l r.
Proof.
  revert r. induction l as [|x l IH]; intros r; simpl.
  - intros [= <-]. apply perm_nil.
  - destruct (sort_by cmp l) as [e|s]; [discriminate|].
    intros H. apply insert_by_perm in H.
    eapply perm_trans; [|exact H]. apply perm_skip. now apply IH.
Qed.

Lemma insert_by_total (x : Todo) (l : list Todo) :
  array_cycle x = false -> existsb array_cycle l = false ->
  exists r, insert_by compareTodos x l = inr r.
Proof.
  intros Hx. induction l as [|y l IH]; simpl; intros Hl; [now eexists|].
  apply orb_false_iff in Hl as [Hy Hl].
  pose proof (compareTodos_outcome x y) as H. rewrite Hx, Hy in H.
  destruct H as [v ->]. destruct (comes_after v); [|now eexists].
  destruct (IH Hl) as [r ->]. now eexists.
Qed.

Lemma existsb_perm {A : Type} (p : A -> bool) (l r : list A) :
  Permutation l r -> existsb p l = existsb p r.
Proof.
  intros H. destruct (existsb p l) eqn:E; symmetry.
  - apply existsb_exists in E as [x [Hin Hp]]. apply existsb_exists.
    exists x. split; [|exact Hp]. now apply (Permutation_in _ H).
  - destruct (existsb p r) eqn:E'; [|reflexivity].
    apply existsb_exists in E' as [x [Hin Hp]].
    assert (E2 : existsb p l = true).
    { apply existsb_exists. exists x. split; [|exact Hp].
      apply (Permutation_in x (Permutation_sym H) Hin). }
    now rewrite E2 in E.
Qed.

Lemma sort_by_total (l : list Todo) :
  existsb array_cycle l = false -> exists r, sort_by compareTodos l = inr r.
Proof.
  induction l as [|x l IH]; simpl; intros H; [now eexists|].
  apply orb_false_iff in H as [Hx Hl].
  destruct (IH Hl) as [s Es]. rewrite Es.
  apply insert_by_total; [exact Hx|].
  now rewrite <- (existsb_perm array_cycle _ _ (sort_by_perm _ _ _ Es)).
Qed.

Lemma insert_by_array (x y : Todo) (l : list Todo) :
  array_cycle x || array_cycle y = true ->
  insert_by compareTodos x (y :: l) = inl TypeError.
Proof.
  intros H. simpl. pose proof (compareTodos_outcome x y) as Hc.
  rewrite H in Hc. now rewrite Hc.
Qed.

Lemma sort_by_array (l : list Todo) :
  2 <= length l -> existsb array_cycle l = true ->
  sort_by compareTodos l = inl TypeError.
Proof.
  induction l as [|x l IH]; simpl; intros Hlen Hex; [lia|].
  destruct (existsb array_cycle l) eqn:El.
  - destruct l as [|y [|z l]]; [discriminate El| |].
    + simpl in El. rewrite orb_false_r in El.
      cbn [sort_by insert_by].
      pose proof (compareTodos_outcome x y) as Hc.
      rewrite El, orb_true_r in Hc. now rewrite Hc.
    + rewrite IH; [reflexivity|simpl; lia|reflexivity].
  - rewrite orb_false_r in Hex.
    destruct (sort_by_total l El) as [s Es]. rewrite Es.
    pose proof (sort_by_perm _ _ _ Es) as Hp.
    destruct s as [|y s].
    + apply Permutation_sym, Permutation_nil in Hp. subst l. simpl in Hlen. lia.
    + apply insert_by_array. now rewrite Hex.
Qed.

Lemma sort_by_short {A : Type} (cmp : A -> A -> result num) (l : list A) :
  length l <= 1 -> sort_by cmp l = inr l.
Proof. destruct l as [|x [|y l]]; simpl; intros H; [reflexivity..|lia]. Qed.

Lemma sort_by_fails (l : list Todo) (e : exn) :
  sort_by compareTodos l = inl e ->
  e = TypeError /\ 2 <= length l /\ existsb array_cycle l = true.
Proof.
  intros He.
  assert (H : 2 <= length l /\ existsb array_cycle l = true).
  { destruct (existsb array_cycle l) eqn:Ex.
    - split; [|reflexivity].
      destruct (Nat.le_gt_cases (length l) 1) as [Hl|Hl]; [|lia].
      rewrite sort_by_short in He by exact Hl. discriminate.
    - destruct (sort_by_total l Ex) as [r Er]. rewrite Er in He.
      discriminate. }
  split; [|exact H]. destruct H as [H1 H2].
  rewrite (sort_by_array l H1 H2) in He. now injection He as <-.
Qed.

(** X8: [listTodos] on a todos directory that exists, without any
    assumption on the front matters.  It never changes a file.  Whenever it
    returns, the list is a rearrangement of the items of the directory that
    pass the filter, none lost and none added.  It throws a [TypeError]
    exactly when at least two items pass the filter and the [linear_cycle]
    of one of them is an array (the comparator then calls [toLowerCase] on
    it); it returns when no item has such a cycle, and a lone item is
    returned whatever it holds. *)
Theorem listTodos_outcome (D : str) (statusFilter : option str) (s : fs) :
  let items := dir_todos D statusFilter (files s) in
  files (snd (listTodos D statusFilter s)) = files s
  /\ (forall l, fst (listTodos D statusFilter s) = inr l -> Permutation items l)
  /\ (2 <= length items /\ existsb array_cycle items = true
      <-> fst (listTodos D statusFilter s) = inl TypeError)
  /\ (existsb array_cycle items = false ->
      exists l, fst (listTodos D statusFilter s) = inr l)
  /\ (length items <= 1 -> fst (listTodos D statusFilter s) = inr items).
Proof.
  intros items. rewrite listTodos_run. cbn [fst snd files]. fold items.
  split; [reflexivity|]. split; [apply sort_by_perm|]. split; [|split].
  - split; [intros [H1 H2]; now apply sort_by_array|].
    intros He. now apply sort_by_fails in He as [_ He].
  - apply sort_by_total.
  - apply sort_by_short.
Qed.

Lemma listTodos_outcome_witness :
  exists l,
    fst (listTodos sample_root (Some (lit "pending")) sample_fs) = inr l
    /\ Permutation
         (dir_todos sample_root (Some (lit "pending")) (files sample_fs)) l.
Proof.
  eexists. split; [vm_compute; reflexivity|].
  apply (proj1 (proj2 (listTodos_outcome sample_root (Some (lit "pending"))
                         sample_fs))).
  vm_compute. reflexivity.
Defined.

Lemma not_blank_spec (d : str) : not_blank d = negb (blank d).
Proof.
  unfold not_blank, blank. destruct d as [|c r]; [reflexivity|].
  destruct (forallb is_ws (c :: r)) eqn:E.
  - pose proof (trimStart_blanks (c :: r) [] E) as H.
    rewrite app_nil_r in H. unfold trim, trimEnd. rewrite H. reflexivity.
  - assert (Ht : has_text (c :: r)).
    { clear - E. induction (c :: r) as [|x l IH]; [discriminate|].
      simpl in E. destruct (is_ws x) eqn:Ex.
      - destruct (IH E) as [y [Hy Hw]]. exists y. split; [now right|exact Hw].
      - exists x. split; [now left|exact Ex]. }
    destruct (trimStart_has_text _ Ht) as [c1 [r1 [E1 H1]]].
    unfold trim, trimEnd. rewrite E1.
    assert (Ht2 : has_text (rev (c1 :: r1))).
    { exists c1. split; [apply in_rev; rewrite rev_involutive; now left|exact H1]. }
    destruct (trimStart_has_text _ Ht2) as [c2 [r2 [E2 _]]].
    rewrite E2. cbn [rev negb].
    destruct (rev r2 ++ [c2]) eqn:E3; [|reflexivity].
    apply app_eq_nil in E3 as [_ E3]. discriminate.
Qed.

Lemma waits_for_spec (t : Todo) : dependency_list t = waits_for t.
Proof.
  unfold dependency_list, waits_for.
  destruct (obj_get k_dependencies (t_frontmatter t)) as [[x|l]|];
    try reflexivity.
  apply filter_ext. intros d. apply not_blank_spec.
Qed.

Lemma waits_for_nonempty (t : Todo) (d : str) :
  In d (waits_for t) -> d <> [].
Proof.
  unfold waits_for.
  destruct (obj_get k_dependencies (t_frontmatter t)) as [[x|l]|];
    try contradiction.
  intros H. apply filter_In in H as [_ H]. intros ->. discriminate H.
Qed.

Lemma completedIds_bears (done : list Todo) (d : str) :
  d <> [] -> set_has (completedIds done) d = existsb (bears_id d) done.
Proof.
  intros Hd. unfold set_has.
  induction done as [|t done IH]; [reflexivity|].
  cbn [completedIds existsb]. unfold completed_id, bears_id at 1.
  destruct (obj_get k_issue_id (t_frontmatter t)) as [[[|c x]|l]|];
    cbn [existsb orb]; try exact IH.
  - destruct d; [congruence|exact IH].
  - rewrite IH. now rewrite (str_eqb_sym d (c :: x)).
Qed.

Lemma eligible_ready (done : list Todo) (t : Todo) :
  eligible (completedIds done) t = ready done t.
Proof.
  unfold eligible, ready. rewrite waits_for_spec.
  pose proof (waits_for_nonempty t) as Hn.
  induction (waits_for t) as [|d l IH]; [reflexivity|].
  cbn [forallb]. rewrite completedIds_bears by (apply Hn; now left).
  rewrite IH; [reflexivity|]. intros x Hx. apply Hn. now right.
Qed.

Lemma find_ext_eq {A : Type} (p q : A -> bool) (l : list A) :
  (forall x, p x = q x) -> find p l = find q l.
Proof.
  intros H. induction l as [|x l IH]; [reflexivity|].
  simpl. rewrite H, IH. reflexivity.
Qed.

Lemma scan_next_sound (ids : list str) (todos : list Todo) (t : Todo) :
  scan_next ids todos = inr (Some t) ->
  In t todos
  /\ exists deps, deps_of t = inr deps
                  /\ forall d, In d deps -> set_has ids d = true.
Proof.
  induction todos as [|u rest IH]; simpl; [discriminate|].
  destruct (deps_of u) as [e|deps] eqn:Ed; [discriminate|].
  destruct (unmetDeps ids deps) as [|x xs] eqn:Eu.
  - intros [= <-]. split; [now left|]. exists deps. split; [exact Ed|].
    intros d Hd. destruct (set_has ids d) eqn:Es; [reflexivity|].
    assert (Hin : In d (unmetDeps ids deps)).
    { unfold unmetDeps. apply filter_In. split; [exact Hd|]. now rewrite Es. }
    rewrite Eu in Hin. destruct Hin.
  - intros H. destruct (IH H) as [Hin Hd]. split; [now right|exact Hd].
Qed.

Lemma scan_next_error (ids : list str) (todos : list Todo) (e : exn) :
  scan_next ids todos = inl e -> e = TypeError.
Proof.
  induction todos as [|u rest IH]; simpl; [discriminate|].
  unfold deps_of.
  destruct (obj_get k_dependencies (t_frontmatter u)) as [[[|c r]|l]|].
  - cbn [unmetDeps filter]. discriminate.
  - now intros [= <-].
  - destruct (unmetDeps ids (filter not_blank l)); [discriminate|exact IH].
  - cbn [unmetDeps filter]. discriminate.
Qed.

(** X9: [getNextTodo] on a todos directory that exists, without any
    assumption on the front matters.  It never changes a file.  An item it
    returns is one of the files of the directory whose status is pending,
    its [dependencies] are absent, empty or an array, and every entry of
    that array that is not blank is the [issue_id] of an item of the
    directory whose status is completed. *)
Theorem getNextTodo_sound (D : str) (s : fs) :
  files (snd (getNextTodo D s)) = files s
  /\ forall t, fst (getNextTodo D s) = inr (Some t) ->
       In t (dir_todos D (Some (lit "pending")) (files s))
       /\ status_is (t_frontmatter t) (lit "pending") = true
       /\ deps_typed t
       /\ forall d, In d (waits_for t) ->
            exists u, In u (dir_todos D (Some (lit "completed")) (files s))
                      /\ status_is (t_frontmatter u) (lit "completed") = true
                      /\ bears_id d u = true.
Proof.
  unfold getNextTodo, bind. rewrite listTodos_run.
  destruct (sort_by compareTodos (dir_todos D (Some (lit "pending")) (files s)))
    as [e|queue] eqn:Eq.
  { cbn [fst snd files]. split; [reflexivity|discriminate]. }
  pose proof (sort_by_perm _ _ _ Eq) as Hp1.
  rewrite listTodos_run. cbn [files trace].
  destruct (sort_by compareTodos (dir_todos D (Some (lit "completed")) (files s)))
    as [e|done] eqn:Ed.
  { cbn [fst snd files]. split; [reflexivity|discriminate]. }
  pose proof (sort_by_perm _ _ _ Ed) as Hc1.
  unfold lift. cbn [fst snd files]. split; [reflexivity|].
  intros t Ht. apply scan_next_sound in Ht as [Hin [deps [Hd Hall]]].
  assert (Hin' : In t (dir_todos D (Some (lit "pending")) (files s))).
  { apply (Permutation_in t (Permutation_sym Hp1) Hin). }
  split; [exact Hin'|]. split.
  { apply dir_todos_in in Hin' as [f [c [_ [_ [_ [Hf ->]]]]]].
    cbn [t_frontmatter todo_of]. unfold filtered_out in Hf.
    now apply negb_false_iff in Hf. }
  assert (Ht : deps_typed t).
  { unfold deps_typed. unfold deps_of in Hd.
    destruct (obj_get k_dependencies (t_frontmatter t)) as [[[|c r]|l]|];
      try exact I. discriminate Hd. }
  split; [exact Ht|].
  intros d Hdin. rewrite <- waits_for_spec in Hdin.
  rewrite (deps_of_typed t Ht) in Hd. injection Hd as <-.
  pose proof (Hall d Hdin) as Hset.
  rewrite completedIds_bears in Hset.
  2:{ apply (waits_for_nonempty t). now rewrite <- waits_for_spec. }
  apply existsb_exists in Hset as [u [Hu Hid]].
  assert (Hu' : In u (dir_todos D (Some (lit "completed")) (files s))).
  { apply (Permutation_in u (Permutation_sym Hc1) Hu). }
  exists u. split; [exact Hu'|]. split; [|exact Hid].
  apply dir_todos_in in Hu' as [f [c [_ [_ [_ [Hf ->]]]]]].
  cbn [t_frontmatter todo_of]. unfold filtered_out in Hf.
  now apply negb_false_iff in Hf.
Qed.

Lemma getNextTodo_sound_witness :
  let t := todo_of sample_root (lit "002-pending-p3-refactor-api.md")
             (front [lit "status: pending"; lit "priority: p3";
                     lit "issue_id: 002"; lit "linear_cycle: Cycle 5";
                     lit "dependencies: [" ++ quoted (lit "004") ++ lit "]"]
                    (lit "# Refactor API")) in
  fst (getNextTodo sample_root sample_fs) = inr (Some t)
  /\ In t (dir_todos sample_root (Some (lit "pending")) (files sample_fs))
  /\ status_is (t_frontmatter t) (lit "pending") = true.
Proof.
  intros t.
  assert (H : fst (getNextTodo sample_root sample_fs) = inr (Some t))
    by (vm_compute; reflexivity).
  split; [exact H|].
  destruct (proj2 (getNextTodo_sound sample_root sample_fs) t H)
    as [H1 [H2 _]].
  split; assumption.
Defined.

(** ** The queue and its next item *)

(** C2, amended: when every pending and completed item has a priority
    among p1, p2, p3 and a cycle that is a string or absent, and the
    dependencies of every pending item are a list (or an empty string, or
    absent), [getNextTodo] lists the pending items in sorted order and
    returns the first of them whose dependencies, blank entries discarded,
    are all the [issue_id] of some completed item; it returns none when no
    pending item qualifies.  An item with a dependency that no completed
    item bears is never returned; an item all of whose dependencies are
    borne by completed items makes the call return an item: itself, or a
    ready item before it. *)
Theorem getNextTodo_first_eligible (D : str) (s : fs) :
  Forall sortable (dir_todos D (Some (lit "pending")) (files s)) ->
  Forall sortable (dir_todos D (Some (lit "completed")) (files s)) ->
  Forall deps_typed (dir_todos D (Some (lit "pending")) (files s)) ->
  exists queue done,
    fst (listTodos D (Some (lit "pending")) s) = inr queue
    /\ fst (listTodos D (Some (lit "completed")) s) = inr done
    /\ Permutation (dir_todos D (Some (lit "pending")) (files s)) queue
    /\ Permutation (dir_todos D (Some (lit "completed")) (files s)) done
    /\ StronglySorted key_le queue
    /\ Forall (fun t => status_is (t_frontmatter t) (lit "pending") = true) queue
    /\ Forall (fun t => status_is (t_frontmatter t) (lit "completed") = true) done
    /\ fst (getNextTodo D s) = inr (find (ready done) queue)
    /\ (forall t, fst (getNextTodo D s) = inr (Some t) ->
          exists l1 l2, queue = l1 ++ t :: l2
                        /\ ready done t = true
                        /\ Forall (fun u => ready done u = false) l1)
    /\ (fst (getNextTodo D s) = inr None ->
          Forall (fun u => ready done u = false) queue)
    /\ (forall a b, In b (waits_for a) ->
          (forall u, In u done -> bears_id b u = false) ->
          fst (getNextTodo D s) <> inr (Some a))
    /\ (forall l1 a l2, queue = l1 ++ a :: l2 ->
          (forall b, In b (waits_for a) ->
                     exists u, In u done /\ bears_id b u = true) ->
          exists t k1 k2, fst (getNextTodo D s) = inr (Some t)
                          /\ l1 ++ [a] = k1 ++ t :: k2).
Proof.
  intros Hp Hc Hd.
  pose proof (listTodos_keyed D (Some (lit "pending")) s Hp) as Rp.
  set (s1 := mkFs (files s) (trace s ++ list_trace (files s))) in *.
  assert (Hc1 : Forall sortable (dir_todos D (Some (lit "completed")) (files s1)))
    by exact Hc.
  pose proof (listTodos_keyed D (Some (lit "completed")) s1 Hc1) as Rc1.
  pose proof (listTodos_keyed D (Some (lit "completed")) s Hc) as Rc.
  set (queue := sort_keyed sort_key (dir_todos D (Some (lit "pending")) (files s))) in *.
  set (done := sort_keyed sort_key (dir_todos D (Some (lit "completed")) (files s))) in *.
  assert (Hq : Forall deps_typed queue).
  { apply (Permutation_Forall (sort_keyed_perm Todo sort_key _)). exact Hd. }
  assert (Hrun : fst (getNextTodo D s) = inr (find (ready done) queue)).
  { unfold getNextTodo, bind at 1. rewrite Rp. unfold bind at 1.
    cbn [files] in Rc1. rewrite Rc1. unfold lift. cbn [fst].
    rewrite (scan_next_find _ _ Hq). f_equal.
    apply find_ext_eq. intros t. apply eligible_ready. }
  exists queue, done.
  split; [now rewrite Rp|]. split; [now rewrite Rc|].
  split; [apply sort_keyed_perm|]. split; [apply sort_keyed_perm|].
  split; [apply sort_keyed_sorted|].
  split.
  { apply (Permutation_Forall (sort_keyed_perm Todo sort_key _)).
    now apply (dir_todos_status D (lit "pending") (files s) "p"%char (lit "ending")). }
  split.
  { apply (Permutation_Forall (sort_keyed_perm Todo sort_key _)).
    now apply (dir_todos_status D (lit "completed") (files s) "c"%char (lit "ompleted")). }
  split; [exact Hrun|]. rewrite Hrun.
  split.
  { intros t Ht. inversion Ht as [Hf]. now apply find_first. }
  split.
  { intros Hn. inversion Hn as [Hf]. now apply find_none_all. }
  split.
  { intros a b Hb Hnot Hres. inversion Hres as [Hf].
    apply find_some in Hf as [_ He]. unfold ready in He.
    rewrite forallb_forall in He. specialize (He b Hb).
    apply existsb_exists in He as [u [Hu Hbu]].
    rewrite (Hnot u Hu) in Hbu. discriminate. }
  intros l1 a l2 Hqa Hall.
  assert (Ha : ready done a = true).
  { unfold ready. apply forallb_forall. intros b Hb.
    apply existsb_exists. now apply Hall. }
  rewrite Hqa.
  destruct (find_some_before (ready done) l1 l2 a Ha)
    as [t [k1 [k2 [H1 [_ H3]]]]].
  exists t, k1, k2. split; [now rewrite H1|exact H3].
Qed.

Lemma getNextTodo_first_eligible_witness :
  exists queue done,
    fst (listTodos sample_root (Some (lit "pending")) sample_fs) = inr queue
    /\ fst (getNextTodo sample_root sample_fs)
       = inr (find (ready done) queue).
Proof.
  destruct (getNextTodo_first_eligible sample_root sample_fs)
    as [queue [done [Hq [_ [_ [_ [_ [_ [_ [Hrun _]]]]]]]]]].
  - vm_compute. repeat constructor; discriminate.
  - vm_compute. repeat constructor; discriminate.
  - vm_compute. repeat constructor.
  - exists queue, done. split; assumption.
Defined.

(** C2 as stated fails.  In the first directory the first pending item of
    the queue has the string 002 as its dependencies; the second is
    pending, waits for nothing and so qualifies; [getNextTodo] returns
    neither it nor none, it throws a [TypeError].  In the second directory
    no pending item has a dependency, one has an array as cycle, and the
    call throws as well.  In the third the two pending items have no
    priority line and no dependency, and the call returns the item 002,
    which is not the first in the order of the ids. *)
Lemma getNextTodo_untyped_items :
  (exists a b,
     fst (listTodos sample_root (Some (lit "pending"))
                    (mkFs scalar_deps_dir [])) = inr [a; b]
     /\ obj_get k_dependencies (t_frontmatter a) = Some (VStr (lit "002"))
     /\ obj_get k_dependencies (t_frontmatter b) = None
     /\ ready [] b = true
     /\ fst (getNextTodo sample_root (mkFs scalar_deps_dir []))
        = inl TypeError)
  /\ (Forall (fun t => waits_for t = [])
             (dir_todos sample_root (Some (lit "pending")) array_cycle_dir)
      /\ fst (getNextTodo sample_root (mkFs array_cycle_dir []))
         = inl TypeError)
  /\ (exists a b,
        dir_todos sample_root (Some (lit "pending")) unranked_dir = [b; a]
        /\ waits_for a = [] /\ waits_for b = []
        /\ (numeric_id a < numeric_id b)%Z
        /\ fst (getNextTodo sample_root (mkFs unranked_dir []))
           = inr (Some b)).
Proof.
  split; [|split].
  - eexists. eexists. split; [vm_compute; reflexivity|].
    split; [reflexivity|]. split; [reflexivity|]. split; [reflexivity|].
    vm_compute. reflexivity.
  - split; [|vm_compute; reflexivity].
    vm_compute. repeat constructor.
  - eexists. eexists. split; [vm_compute; reflexivity|].
    split; [reflexivity|]. split; [reflexivity|].
    split; vm_compute; reflexivity.
Qed.






(** C6, amended: a file whose content has no front-matter block is neither
    reported nor skipped.  When the listing takes every status or the
    status pending, that file is collected as an item with the default
    front matter (pending, p3) and its whole content as the body.  The
    listing returns exactly when no collected item has an array as
    [linear_cycle], which the unparsed file has not, and otherwise throws
    a [TypeError]; whenever it returns, the result holds that item and
    every other item that passes the filter. *)
Theorem listTodos_keeps_unparsed (D : str) (statusFilter : option str) (s : fs)
        (f c : str) :
  lookup f (files s) = Some c ->
  endsWith md_ext f = true ->
  match_frontmatter c = None ->
  filtered_out statusFilter default_frontmatter = false ->
  let items := dir_todos D statusFilter (files s) in
  let item := mkTodo f (filepath_of D f) default_frontmatter (extractTitle c) c
                     (fp_slug (parseFilename f)) (fp_number (parseFilename f)) in
  In item items
  /\ array_cycle item = false
  /\ (forall l, fst (listTodos D statusFilter s) = inr l ->
        In item l /\ forall t, In t items -> In t l)
  /\ (existsb array_cycle items = false ->
      exists l, fst (listTodos D statusFilter s) = inr l)
  /\ (existsb array_cycle items = true ->
      fst (listTodos D statusFilter s) = inl TypeError).
Proof.
  intros Hl Hmd Hm Hf items item.
  assert (Hin : In item items).
  { apply dir_todos_in. exists f, c.
    assert (Hp : parseFrontmatter c = mkParsed default_frontmatter c)
      by (unfold parseFrontmatter; now rewrite Hm).
    repeat split; try assumption.
    + clear - Hl. induction (files s) as [|[g c'] d IH]; [discriminate|].
      simpl in *. destruct (str_eqb g f) eqn:E.
      * left. now apply str_eqb_true.
      * right. now apply IH.
    + now rewrite Hp.
    + unfold item, todo_of. now rewrite Hp. }
  assert (Hitem : array_cycle item = false) by reflexivity.
  split; [exact Hin|]. split; [exact Hitem|]. split; [|split].
  - intros l Hres. rewrite listTodos_run in Hres. cbn [fst] in Hres.
    fold items in Hres. pose proof (sort_by_perm _ _ _ Hres) as Hperm.
    split; [apply (Permutation_in item Hperm Hin)|].
    intros t Ht. apply (Permutation_in t Hperm Ht).
  - intros Ha. rewrite listTodos_run. cbn [fst]. now apply sort_by_total.
  - intros Ha. rewrite listTodos_run. cbn [fst]. fold items.
    apply sort_by_array; [|exact Ha].
    apply existsb_exists in Ha as [u [Hu Hau]].
    assert (Hne : u <> item) by (intros ->; congruence).
    destruct items as [|x [|y l]]; [contradiction| |simpl; lia].
    destruct Hin as [<-|[]]. destruct Hu as [<-|[]]. congruence.
Qed.

Lemma listTodos_keeps_unparsed_witness :
  exists l,
    fst (listTodos sample_root None (mkFs unparsed_dir [])) = inr l
    /\ In (mkTodo (lit "002-pending-p2-b.md")
                  (filepath_of sample_root (lit "002-pending-p2-b.md"))
                  default_frontmatter
                  (extractTitle (lit "status: pending" ++ [nl] ++ lit "# B"))
                  (lit "status: pending" ++ [nl] ++ lit "# B")
                  (fp_slug (parseFilename (lit "002-pending-p2-b.md")))
                  (fp_number (parseFilename (lit "002-pending-p2-b.md")))) l.
Proof.
  destruct (listTodos_keeps_unparsed sample_root None (mkFs unparsed_dir [])
              (lit "002-pending-p2-b.md")
              (lit "status: pending" ++ [nl] ++ lit "# B")
              eq_refl eq_refl eq_refl eq_refl)
    as [_ [_ [Hall [Hret _]]]].
  destruct Hret as [l Hl]; [vm_compute; reflexivity|].
  exists l. split; [exact Hl|]. exact (proj1 (Hall l Hl)).
Defined.

(** C6 as stated fails: the file without a front-matter block appears in the
    returned sequence, as a pending p3 item. *)
Lemma listTodos_lists_unparsed_file :
  match_frontmatter (lit "status: pending" ++ [nl] ++ lit "# B") = None
  /\ exists a b,
       fst (listTodos sample_root None (mkFs unparsed_dir [])) = inr [a; b]
       /\ t_filename b = lit "002-pending-p2-b.md"
       /\ t_frontmatter b = default_frontmatter.
Proof.
  split; [reflexivity|].
  eexists. eexists. split; [vm_compute; reflexivity|]. split; reflexivity.
Qed.

(** ** Completing a todo *)

Lemma completed_frontmatter_clean (now : str) (prUrl : option str) (fm : obj) :
  single_line now ->
  match prUrl with Some u => single_line u | None => True end ->
  clean fm -> clean (completed_frontmatter now prUrl fm).
Proof.
  intros Hn Hu Hc. unfold completed_frontmatter.
  assert (H2 : clean (obj_put k_completed_at (VStr now)
                        (obj_put k_status (VStr (lit "completed")) fm))).
  { apply clean_put; [now apply literal_key_ok|exact Hn|].
    apply clean_put; [now apply literal_key_ok| |exact Hc].
    apply single_line_check. reflexivity. }
  destruct prUrl as [[|c u]|]; try exact H2.
  apply clean_put; [now apply literal_key_ok|exact Hu|exact H2].
Qed.

Lemma completed_frontmatter_keeps (now : str) (prUrl : option str) (fm : obj)
      (k : str) (v : value) :
  k <> k_status -> k <> k_completed_at -> k <> k_pr_url ->
  In (k, v) fm -> In (k, v) (completed_frontmatter now prUrl fm).
Proof.
  intros H1 H2 H3 Hin. unfold completed_frontmatter.
  assert (H : In (k, v) (obj_put k_completed_at (VStr now)
                           (obj_put k_status (VStr (lit "completed")) fm))).
  { apply obj_put_keeps; [exact H2|]. now apply obj_put_keeps. }
  destruct prUrl as [[|c u]|]; try exact H.
  now apply obj_put_keeps.
Qed.

Lemma completed_frontmatter_status (now : str) (prUrl : option str) (fm : obj) :
  In (k_status, VStr (lit "completed")) (completed_frontmatter now prUrl fm)
  /\ In (k_completed_at, VStr now) (completed_frontmatter now prUrl fm).
Proof.
  unfold completed_frontmatter.
  assert (H : In (k_status, VStr (lit "completed"))
                 (obj_put k_completed_at (VStr now)
                    (obj_put k_status (VStr (lit "completed")) fm))
              /\ In (k_completed_at, VStr now)
                    (obj_put k_completed_at (VStr now)
                       (obj_put k_status (VStr (lit "completed")) fm))).
  { split; [|apply obj_put_in].
    apply obj_put_keeps; [discriminate|apply obj_put_in]. }
  destruct prUrl as [[|c u]|]; try exact H.
  destruct H as [H1 H2].
  split; (apply obj_put_keeps; [discriminate|assumption]).
Qed.

Lemma completeTodo_run (now f content : str) (prUrl : option str) (s : fs) :
  lookup f (files s) = Some content ->
  let parts := parseFilename f in
  let newFilename :=
    buildFilename (fp_number parts) (lit "completed") (fp_priority parts)
                  (fp_slug parts) in
  let newContent :=
    render (completed_frontmatter now prUrl
              (frontmatter (parseFrontmatter content)))
           (body (parseFrontmatter content)) in
  completeTodo now f prUrl s
  = (inr newFilename,
     if str_eqb f newFilename
     then mkFs (store f newContent (files s))
               (trace s ++ [OpRead f; OpWrite f newContent])
     else mkFs (map (rename_entry f newFilename)
                    (remove_file newFilename (store f newContent (files s))))
               (trace s ++ [OpRead f; OpWrite f newContent;
                            OpRename f newFilename])).
Proof.
  intros Hlook parts newFilename newContent.
  unfold completeTodo, bind at 1, readFile. rewrite Hlook.
  unfold bind at 1.
  assert (E : render
                match prUrl with
                | Some (c :: u) =>
                    obj_put k_pr_url (VStr (c :: u))
                      (obj_put k_completed_at (VStr now)
                         (obj_put k_status (VStr (lit "completed"))
                            (frontmatter (parseFrontmatter content))))
                | _ =>
                    obj_put k_completed_at (VStr now)
                      (obj_put k_status (VStr (lit "completed"))
                         (frontmatter (parseFrontmatter content)))
                end (body (parseFrontmatter content)) = newContent)
    by reflexivity.
  rewrite E. fold parts. fold newFilename.
  rewrite write_and_rename_run. unfold ret, log. cbn [files trace].
  destruct (str_eqb f newFilename); now rewrite <- app_assoc.
Qed.

(** X10: for an existing file with a well-formed name and a one-line
    timestamp and pull-request address, [completeTodo] first writes the new
    content under the old name and then renames the file to
    number-completed-priority-slug.  A [get] of the new name returns an
    item with status completed, the body unchanged, the timestamp and a
    non-empty address when the front-matter syntax carries them, and every
    other entry of the old front matter that the syntax carries, the
    [issue_id] that dependants wait for among them. *)
Theorem completeTodo_transition (D now f content n st sl : str) (p : tier)
        (prUrl : option str) (s : fs) :
  lookup f (files s) = Some content ->
  f = buildFilename n st (tier_str p) sl ->
  well_formed_parts n st sl ->
  single_line now ->
  match prUrl with Some u => single_line u | None => True end ->
  let old := frontmatter (parseFrontmatter content) in
  let newFilename := buildFilename n (lit "completed") (tier_str p) sl in
  let newContent :=
    render (completed_frontmatter now prUrl old)
           (body (parseFrontmatter content)) in
  exists s',
    completeTodo now f prUrl s = (inr newFilename, s')
    /\ trace s' = trace s ++ [OpRead f; OpWrite f newContent]
                  ++ (if str_eqb f newFilename then []
                      else [OpRename f newFilename])
    /\ lookup newFilename (files s') = Some newContent
    /\ (f <> newFilename -> lookup f (files s') = None)
    /\ exists item s'',
         getTodo D newFilename s' = (inr item, s'')
         /\ t_number item = n
         /\ t_slug item = sl
         /\ t_content item = body (parseFrontmatter content)
         /\ obj_get k_status (t_frontmatter item) = Some (VStr (lit "completed"))
         /\ (plain_scalar now ->
             obj_get k_completed_at (t_frontmatter item) = Some (VStr now))
         /\ (forall u, prUrl = Some u -> plain_scalar u ->
             obj_get k_pr_url (t_frontmatter item) = Some (VStr u))
         /\ (forall k v, In (k, v) old -> stable_value v ->
             k <> k_status -> k <> k_completed_at -> k <> k_pr_url ->
             obj_get k (t_frontmatter item) = Some v).
Proof.
  intros Hlook Hf Hwf Hnow Hurl old newFilename newContent.
  assert (Hparts : parseFilename f = mkParts n st (tier_str p) sl)
    by (rewrite Hf; now apply parseFilename_build).
  assert (Hwf' : well_formed_parts n (lit "completed") sl).
  { destruct Hwf as [H1 [H2 [_ [_ [H5 H6]]]]].
    repeat split; try assumption; try discriminate; reflexivity. }
  assert (Hnew : parseFilename newFilename
                 = mkParts n (lit "completed") (tier_str p) sl)
    by now apply parseFilename_build.
  pose proof (completeTodo_run now f content prUrl s Hlook) as Hrun.
  cbv zeta in Hrun. rewrite Hparts in Hrun.
  cbn [fp_number fp_priority fp_slug] in Hrun.
  fold old in Hrun. fold newFilename in Hrun. fold newContent in Hrun.
  set (s' := snd (completeTodo now f prUrl s)).
  assert (Hlook' : lookup newFilename (files s') = Some newContent
                   /\ (f <> newFilename -> lookup f (files s') = None)).
  { unfold s'. rewrite Hrun. cbn [snd].
    destruct (str_eqb f newFilename) eqn:E; cbn [files].
    - apply str_eqb_true in E. rewrite <- E.
      split; [apply lookup_store_same|congruence].
    - apply str_eqb_false in E.
      destruct (lookup_renamed f newFilename newContent
                  (store f newContent (files s)) E
                  (lookup_store_same f newContent (files s))) as [H1 H2].
      split; [exact H1|now intros _]. }
  destruct Hlook' as [Hl1 Hl2].
  pose proof (parseFrontmatter_clean content) as Hclean. fold old in Hclean.
  pose proof (completed_frontmatter_clean now prUrl old Hnow Hurl Hclean) as Hc.
  destruct (completed_frontmatter_status now prUrl old) as [Hs1 Hs2].
  destruct (reread_get _ (body (parseFrontmatter content)) k_status
              (VStr (lit "completed")) (VStr (lit "completed")) Hc Hs1)
    as [Hst Hbody]; [discriminate|reflexivity|].
  fold newContent in Hst, Hbody.
  exists s'. split; [unfold s'; now rewrite Hrun|].
  split.
  { unfold s'. rewrite Hrun. cbn [snd].
    now destruct (str_eqb f newFilename). }
  split; [exact Hl1|]. split; [exact Hl2|].
  exists (todo_of D newFilename newContent), (log (OpRead newFilename) s').
  split.
  { unfold getTodo, bind, readFile. now rewrite Hl1. }
  unfold todo_of. cbn [t_filename t_number t_slug t_frontmatter t_content].
  rewrite Hnew. cbn [fp_number fp_slug].
  split; [reflexivity|]. split; [reflexivity|]. split; [exact Hbody|].
  split; [exact Hst|]. split; [|split].
  - intros Hp.
    apply (reread_get _ (body (parseFrontmatter content)) k_completed_at
             (VStr now) (VStr now) Hc Hs2); [discriminate|].
    now apply reparse_plain.
  - intros u -> Hp.
    assert (Hin : In (k_pr_url, VStr u) (completed_frontmatter now (Some u) old)).
    { unfold completed_frontmatter. destruct u as [|c u]; [|apply obj_put_in].
      exfalso. destruct Hp as [Hp|[_ [c [r [Hp _]]]]]; discriminate Hp. }
    apply (reread_get _ (body (parseFrontmatter content)) k_pr_url
             (VStr u) (VStr u) Hc Hin); [discriminate|].
    now apply reparse_plain.
  - intros k v Hin Hv H1 H2 H3.
    apply (reread_get _ (body (parseFrontmatter content)) k v v Hc).
    + now apply completed_frontmatter_keeps.
    + intros ->. apply (parseFrontmatter_no_proto content).
      fold old. change proto_key with (fst (proto_key, v)). now apply in_map.
    + now apply reparse_stable.
Qed.

Lemma completeTodo_transition_witness :
  exists s',
    completeTodo (lit "2026-01-05T10:00:00.000Z")
                 (lit "003-pending-p2-write-docs.md")
                 (Some (lit "https://example.org/pull/7")) sample_fs
    = (inr (lit "003-completed-p2-write-docs.md"), s')
    /\ exists item s'',
         getTodo sample_root (lit "003-completed-p2-write-docs.md") s'
         = (inr item, s'')
         /\ obj_get k_status (t_frontmatter item)
            = Some (VStr (lit "completed"))
         /\ obj_get k_pr_url (t_frontmatter item)
            = Some (VStr (lit "https://example.org/pull/7"))
         /\ obj_get k_issue_id (t_frontmatter item) = Some (VStr (lit "003")).
Proof.
  assert (N : forall (c : ascii) (x : str),
             forallb (fun y => negb (ascii_eqb y c)) x = true -> ~ In c x).
  { intros c x H Hin. rewrite forallb_forall in H. specialize (H c Hin).
    now rewrite ascii_eqb_refl in H. }
  destruct (completeTodo_transition sample_root
              (lit "2026-01-05T10:00:00.000Z")
              (lit "003-pending-p2-write-docs.md")
              (front [lit "status: pending"; lit "priority: p2";
                      lit "issue_id: 003"] (lit "# Write docs"))
              (lit "003") (lit "pending") (lit "write-docs") P2
              (Some (lit "https://example.org/pull/7")) sample_fs)
    as [s' [Hrun [_ [_ [_ [item [s'' [Hget [_ [_ [_ [Hst [_ [Hurl Hkeep]]]]]]]]]]]]]].
  - reflexivity.
  - reflexivity.
  - repeat split; try discriminate; reflexivity.
  - apply N. reflexivity.
  - apply N. reflexivity.
  - exists s'. split; [exact Hrun|]. exists item, s''.
    split; [exact Hget|]. split; [exact Hst|]. split.
    + apply (Hurl _ eq_refl). right. split; [reflexivity|].
      eexists. eexists. split; [reflexivity|]. split; discriminate.
    + apply Hkeep; try discriminate.
      * vm_compute. right. right. left. reflexivity.
      * right. split; [reflexivity|].
        eexists. eexists. split; [reflexivity|]. split; discriminate.
Defined.

(** ** A file that is not there *)

(** X11: on a file name that is one path segment and that the directory
    does not hold, [completeTodo], [blockTodo], [updateFromLinear] and the
    [get] command throw the file-not-found error of the read they start
    with, and [deleteTodo] ends the process with status 1 after the failed
    unlink; none of them writes, renames or removes anything. *)
Theorem missing_file_commands (D now f reason linearIssue linearUrl : str)
        (prUrl newTitle : option str) (s : fs) :
  plain_name f ->
  lookup f (files s) = None ->
  completeTodo now f prUrl s = (inl (ENOENT f), log (OpRead f) s)
  /\ blockTodo now f reason s = (inl (ENOENT f), log (OpRead f) s)
  /\ updateFromLinear f linearIssue linearUrl newTitle s
     = (inl (ENOENT f), log (OpRead f) s)
  /\ getTodo D f s = (inl (ENOENT f), log (OpRead f) s)
  /\ deleteTodo f s = (inl ExitFailure, log (OpUnlink f) s).
Proof.
  intros _ H.
  unfold completeTodo, blockTodo, updateFromLinear, getTodo, deleteTodo,
    try_catch, unlink, throw.
  unfold bind at 1 3 5 6. unfold readFile. rewrite H. repeat split.
Qed.

Lemma missing_file_commands_witness :
  completeTodo (lit "2026-01-05T10:00:00.000Z") (lit "009-pending-p1-gone.md")
               None sample_fs
  = (inl (ENOENT (lit "009-pending-p1-gone.md")),
     log (OpRead (lit "009-pending-p1-gone.md")) sample_fs).
Proof.
  apply (missing_file_commands sample_root (lit "2026-01-05T10:00:00.000Z")
           (lit "009-pending-p1-gone.md") [] [] [] None None sample_fs).
  - unfold plain_name. repeat split; try discriminate.
    + intros H. vm_compute in H. intuition discriminate.
    + intros H. vm_compute in H. intuition discriminate.
    + vm_compute. lia.
  - reflexivity.
Defined.

(** ** Looking items up by their Linear issue *)

Lemma issues_of_in (l : list Todo) (v : value) :
  In v (issues_of l) <-> exists t, In t l /\ linear_issue_of t = Some v.
Proof.
  induction l as [|t l IH]; simpl.
  - split; [tauto|now intros [t [[] _]]].
  - destruct (linear_issue_of t) as [w|] eqn:E; simpl; rewrite IH; split.
    + intros [<-|[u [Hu Hv]]]; [exists t; split; [now left|exact E]|].
      exists u. split; [now right|exact Hv].
    + intros [u [[<-|Hu] Hv]].
      * left. congruence.
      * right. now exists u.
    + intros [u [Hu Hv]]. exists u. split; [now right|exact Hv].
    + intros [u [[<-|Hu] Hv]]; [congruence|now exists u].
Qed.

Lemma issues_of_perm (l r : list Todo) :
  Permutation l r -> Permutation (issues_of l) (issues_of r).
Proof.
  induction 1 as [|x l r H IH|x y l|l m r H1 IH1 H2 IH2]; simpl.
  - apply perm_nil.
  - destruct (linear_issue_of x); [now apply perm_skip|exact IH].
  - destruct (linear_issue_of x), (linear_issue_of y);
      try apply Permutation_refl. apply perm_swap.
  - eapply perm_trans; eassumption.
Qed.

(** X12: [findByLinearIssue] on a todos directory that exists never
    changes a file.  The item it returns is an item of the directory whose
    [linear_issue] is the given string; when it returns none, no item of
    the directory bears that issue.  It returns when no item of the
    directory has an array as [linear_cycle]. *)
Theorem findByLinearIssue_spec (D linearIssue : str) (s : fs) :
  files (snd (findByLinearIssue D linearIssue s)) = files s
  /\ (existsb array_cycle (dir_todos D None (files s)) = false ->
      exists r, fst (findByLinearIssue D linearIssue s) = inr r)
  /\ (forall t, fst (findByLinearIssue D linearIssue s) = inr (Some t) ->
        In t (dir_todos D None (files s))
        /\ obj_get k_linear_issue (t_frontmatter t) = Some (VStr linearIssue))
  /\ (fst (findByLinearIssue D linearIssue s) = inr None ->
      forall t, In t (dir_todos D None (files s)) ->
        obj_get k_linear_issue (t_frontmatter t) <> Some (VStr linearIssue)).
Proof.
  unfold findByLinearIssue, bind. rewrite listTodos_run.
  destruct (sort_by compareTodos (dir_todos D None (files s)))
    as [e|l] eqn:E; cbn [fst snd files ret].
  { split; [reflexivity|]. split; [|split; discriminate].
    intros Ha. destruct (sort_by_total _ Ha) as [r Er]. congruence. }
  pose proof (sort_by_perm _ _ _ E) as Hp.
  split; [reflexivity|]. split; [intros _; now eexists|]. split.
  - intros t [= Hf]. apply find_some in Hf as [Hin Hh]. split.
    + apply (Permutation_in t (Permutation_sym Hp) Hin).
    + unfold has_linear_issue in Hh.
      destruct (obj_get k_linear_issue (t_frontmatter t)) as [[x|x]|];
        try discriminate.
      apply str_eqb_true in Hh. now subst.
  - intros [= Hf] t Hin Hget.
    apply (Permutation_in t Hp) in Hin.
    pose proof (find_none _ _ Hf t Hin) as Hn.
    unfold has_linear_issue in Hn. rewrite Hget in Hn.
    now rewrite str_eqb_refl in Hn.
Qed.

Lemma findByLinearIssue_spec_witness :
  let d := mkFs [(lit "001-pending-p1-a.md",
                  front [lit "status: pending"; lit "linear_issue: HOL-12"]
                        (lit "# A"))] [] in
  let t := todo_of sample_root (lit "001-pending-p1-a.md")
             (front [lit "status: pending"; lit "linear_issue: HOL-12"]
                    (lit "# A")) in
  fst (findByLinearIssue sample_root (lit "HOL-12") d) = inr (Some t)
  /\ In t (dir_todos sample_root None (files d)).
Proof.
  intros d t.
  assert (H : fst (findByLinearIssue sample_root (lit "HOL-12") d)
              = inr (Some t)) by (vm_compute; reflexivity).
  split; [exact H|].
  exact (proj1 (proj1 (proj2 (proj2 (findByLinearIssue_spec sample_root
                                       (lit "HOL-12") d))) t H)).
Defined.

(** X13: [listLinearIssues] on a todos directory that exists never changes
    a file.  What it returns is, up to the order, the truthy [linear_issue]
    of every item of the directory: one entry per item that has one, so an
    issue that two items bear is listed twice.  It returns when no item of
    the directory has an array as [linear_cycle]. *)
Theorem listLinearIssues_spec (D : str) (s : fs) :
  files (snd (listLinearIssues D s)) = files s
  /\ (existsb array_cycle (dir_todos D None (files s)) = false ->
      exists l, fst (listLinearIssues D s) = inr l)
  /\ forall l, fst (listLinearIssues D s) = inr l ->
       Permutation (issues_of (dir_todos D None (files s))) l
       /\ forall v, In v l <->
            exists t, In t (dir_todos D None (files s))
                      /\ linear_issue_of t = Some v.
Proof.
  unfold listLinearIssues, bind. rewrite listTodos_run.
  destruct (sort_by compareTodos (dir_todos D None (files s)))
    as [e|l] eqn:E; cbn [fst snd files ret].
  { split; [reflexivity|]. split; [|discriminate].
    intros Ha. destruct (sort_by_total _ Ha) as [r Er]. congruence. }
  pose proof (sort_by_perm _ _ _ E) as Hp.
  split; [reflexivity|]. split; [intros _; now eexists|].
  intros l' [= <-]. split; [now apply issues_of_perm|].
  intros v. rewrite issues_of_in. split; intros [t [Hin Hv]]; exists t;
    (split; [|exact Hv]).
  - apply (Permutation_in t (Permutation_sym Hp) Hin).
  - apply (Permutation_in t Hp Hin).
Qed.

Lemma listLinearIssues_spec_witness :
  let d := mkFs [(lit "001-pending-p1-a.md",
                  front [lit "status: pending"; lit "linear_issue: HOL-12"]
                        (lit "# A"));
                 (lit "002-pending-p1-b.md",
                  front [lit "status: pending"; lit "linear_issue: HOL-12"]
                        (lit "# B"))] [] in
  fst (listLinearIssues sample_root d)
  = inr [VStr (lit "HOL-12"); VStr (lit "HOL-12")]
  /\ Permutation (issues_of (dir_todos sample_root None (files d)))
                 [VStr (lit "HOL-12"); VStr (lit "HOL-12")].
Proof.
  intros d.
  assert (H : fst (listLinearIssues sample_root d)
              = inr [VStr (lit "HOL-12"); VStr (lit "HOL-12")])
    by (vm_compute; reflexivity).
  split; [exact H|].
  exact (proj1 (proj2 (proj2 (listLinearIssues_spec sample_root d)) _ H)).
Defined.

(** ** Replacing the title line *)

Lemma drop_while_head (p : ascii -> bool) (s : str) :
  match drop_while p s with
  | [] => True
  | x :: _ => p x = false
  end.
Proof.
  induction s as [|c s IH]; simpl; [exact I|].
  destruct (p c) eqn:E; [exact IH|exact E].
Qed.

Lemma skipn_take_while (p : ascii -> bool) (s : str) :
  skipn (length (take_while p s)) s = drop_while p s.
Proof.
  induction s as [|c s IH]; simpl; [reflexivity|].
  destruct (p c); [exact IH|reflexivity].
Qed.

Lemma skipn_app_plus (a b : str) (k : nat) :
  skipn (length a + k) (a ++ b) = skipn k b.
Proof. induction a as [|c a IH]; [reflexivity|exact IH]. Qed.

Lemma expand_go_plain (before matched after t : str) :
  ~ In "$"%char t -> expand_go before matched after false t = t.
Proof.
  induction t as [|c t IH]; intros H; [reflexivity|].
  cbn [expand_go]. destruct (ascii_eqb c "$"%char) eqn:E.
  - apply ascii_eqb_true in E. subst c. exfalso. apply H. now left.
  - rewrite IH; [reflexivity|]. intros Hin. apply H. now right.
Qed.

Lemma last_nonlt_none (w : str) (k : nat) (best : option nat) :
  last_nonlt k w best = None <-> best = None /\ forallb is_lt w = true.
Proof.
  revert k best. induction w as [|c w IH]; intros k best; simpl.
  - tauto.
  - rewrite IH. destruct (is_lt c); simpl; [tauto|].
    split; [intros [H _]; discriminate H|intros [_ H]; discriminate H].
Qed.

Lemma last_nonlt_some (w : str) (k : nat) (best : option nat) (i : nat) :
  last_nonlt k w best = Some i ->
  (best = Some i /\ forallb is_lt w = true)
  \/ (k <= i /\ i < k + length w
      /\ forallb is_lt (skipn (S (i - k)) w) = true).
Proof.
  revert k best. induction w as [|c w IH]; intros k best; simpl.
  - intros ->. now left.
  - intros H. apply IH in H as [[Hb Hall]|[H1 [H2 H3]]].
    + destruct (is_lt c) eqn:E.
      * left. now split.
      * right. injection Hb as <-. rewrite Nat.sub_diag.
        split; [lia|]. split; [lia|exact Hall].
    + right. split; [lia|]. split; [lia|].
      replace (i - k) with (S (i - S k)) by lia. exact H3.
Qed.

Lemma find_nonlt_none (l : str) :
  find (fun c => negb (is_lt c)) l = None <-> forallb is_lt l = true.
Proof.
  induction l as [|c l IH]; simpl; [tauto|].
  destruct (is_lt c); simpl; [exact IH|].
  split; discriminate.
Qed.

Lemma forallb_rev_lt (l : str) :
  forallb is_lt (rev l) = forallb is_lt l.
Proof.
  destruct (forallb is_lt l) eqn:E.
  - rewrite forallb_forall in *. intros x Hx. apply E. now apply in_rev.
  - destruct (forallb is_lt (rev l)) eqn:E'; [|reflexivity].
    rewrite <- E. symmetry. rewrite forallb_forall in *.
    intros x Hx. apply E'. now apply in_rev in Hx.
Qed.

Lemma title_extent_none (s : str) :
  title_extent s = None <-> title_at s = None.
Proof.
  unfold title_extent, title_at.
  destruct (take_while is_ws s) as [|w0 w']; [tauto|].
  destruct (drop_while is_ws s) as [|x r]; [|split; discriminate].
  destruct (last_nonlt 0 w' None) as [i|] eqn:E1;
    destruct (find (fun c => negb (is_lt c)) (rev w')) as [c|] eqn:E2;
    try tauto; try (split; discriminate); exfalso.
  - apply find_nonlt_none in E2. rewrite forallb_rev_lt in E2.
    assert (H : last_nonlt 0 w' None = None)
      by (apply last_nonlt_none; now split).
    rewrite H in E1. discriminate.
  - apply last_nonlt_none in E1 as [_ E1].
    rewrite <- forallb_rev_lt in E1. apply find_nonlt_none in E1.
    rewrite E1 in E2. discriminate.
Qed.

Lemma title_extent_after (s : str) (n : nat) :
  title_extent s = Some n ->
  match skipn n s with
  | [] => True
  | x :: _ => is_lt x = true
  end.
Proof.
  unfold title_extent.
  destruct (take_drop_while is_ws s) as [Hs _].
  destruct (take_while is_ws s) as [|w0 w'] eqn:Ew; [discriminate|].
  destruct (drop_while is_ws s) as [|x r] eqn:Ed.
  - destruct (last_nonlt 0 w' None) as [i|] eqn:El; [|discriminate].
    intros [= <-]. rewrite app_nil_r in Hs. rewrite Hs.
    apply last_nonlt_some in El as [[El _]|[_ [_ El]]]; [discriminate|].
    rewrite Nat.sub_0_r in El.
    replace (i + 2) with (S (S i)) by lia. cbn [skipn].
    change (match w' with [] => [] | _ :: l => skipn i l end)
      with (skipn (S i) w').
    destruct (skipn (S i) w') as [|y t]; [exact I|].
    simpl in El. now apply andb_true_iff in El as [El _].
  - remember (take_while (fun c => negb (is_lt c)) (x :: r)) as tw eqn:Etw.
    intros H. injection H as <-. rewrite Hs.
    change (S (length w' + length tw)) with (length (w0 :: w') + length tw).
    rewrite (skipn_app_plus (w0 :: w') (x :: r) (length tw)).
    rewrite Etw, skipn_take_while.
    pose proof (drop_while_head (fun c => negb (is_lt c)) (x :: r)) as Hh.
    destruct (drop_while (fun c => negb (is_lt c)) (x :: r)) as [|y t];
      [exact I|]. now apply negb_false_iff in Hh.
Qed.

Lemma title_extent_blocked (s : str) :
  title_extent s = None -> In "#"%char s ->
  exists x t, s = x :: t /\ is_ws x = false.
Proof.
  unfold title_extent. intros H Hin.
  destruct (take_drop_while is_ws s) as [Hs Hw].
  pose proof (drop_while_head is_ws s) as Hh.
  destruct (take_while is_ws s) as [|w0 w'] eqn:Ew.
  - cbn [app] in Hs. rewrite <- Hs in Hh.
    destruct s as [|x t]; [destruct Hin|]. now exists x, t.
  - destruct (drop_while is_ws s) as [|x r]; [|discriminate].
    rewrite app_nil_r in Hs. rewrite Hs in Hin.
    rewrite forallb_forall in Hw. specialize (Hw _ Hin). discriminate.
Qed.

Lemma title_at_nonblank (x : ascii) (t : str) :
  is_ws x = false -> title_at (x :: t) = None.
Proof. intros H. unfold title_at. cbn [take_while]. now rewrite H. Qed.

Lemma replace_scan_hash (tpl : str) (s : str) (b : bool) (br r : str) :
  replace_scan tpl b br s = Some r -> In "#"%char s.
Proof.
  revert b br. induction s as [|c s IH]; intros b br; cbn [replace_scan];
    [discriminate|].
  destruct (b && ascii_eqb c "#"%char) eqn:E.
  - apply andb_true_iff in E as [_ E]. apply ascii_eqb_true in E.
    subst c. intros _. now left.
  - intros H. right. now apply (IH _ _ H).
Qed.

Lemma replace_scan_none (tpl : str) (s : str) (b : bool) (br : str) :
  title_scan b s = None -> replace_scan tpl b br s = None.
Proof.
  revert b br. induction s as [|c s IH]; intros b br;
    cbn [replace_scan title_scan]; [reflexivity|].
  destruct (b && ascii_eqb c "#"%char).
  - destruct (title_at s) as [g|] eqn:E; [discriminate|].
    apply title_extent_none in E. rewrite E. apply IH.
  - apply IH.
Qed.

Lemma replace_scan_title (nt : str) (s : str) :
  ~ In "$"%char nt -> has_text nt ->
  forall (b : bool) (br r : str),
    replace_scan (lit "# " ++ nt) b br s = Some r ->
    exists pre post,
      r = rev br ++ pre ++ (lit "# " ++ nt) ++ post
      /\ hd_error (pre ++ (lit "# " ++ nt) ++ post) = hd_error s
      /\ title_scan b (pre ++ (lit "# " ++ nt) ++ post)
         = Some (take_while (fun c => negb (is_lt c)) (trimStart nt)).
Proof.
  intros Hd Ht.
  destruct (trimStart_has_text _ Ht) as [c0 [r0 [Hs Hc0]]].
  destruct (trimStart_split nt) as [w [Hw1 Hw2]]. rewrite Hs in Hw1.
  induction s as [|c s IH]; intros b br r; cbn [replace_scan];
    [discriminate|].
  destruct (b && ascii_eqb c "#"%char) eqn:E.
  - destruct (title_extent s) as [n|] eqn:En.
    + intros [= <-]. apply andb_true_iff in E as [-> E].
      apply ascii_eqb_true in E. subst c.
      rewrite expand_go_plain by exact Hd.
      exists [], (skipn n s). cbn [app]. split; [reflexivity|].
      split; [reflexivity|].
      change (lit "# " ++ nt) with ("#"%char :: " "%char :: nt).
      cbn [app title_scan andb]. rewrite ascii_eqb_refl.
      rewrite Hw1 at 1. rewrite <- app_assoc.
      change ((c0 :: r0) ++ skipn n s) with (c0 :: r0 ++ skipn n s).
      rewrite (title_at_text w c0 _ Hw2 Hc0). rewrite Hs. f_equal.
      pose proof (title_extent_after s n En) as Ha.
      destruct (skipn n s) as [|x t]; [now rewrite app_nil_r|].
      change (c0 :: r0 ++ x :: t) with ((c0 :: r0) ++ x :: t).
      apply take_while_stop. now rewrite Ha.
    + intros H. pose proof (replace_scan_hash _ _ _ _ _ H) as Hin.
      destruct (IH _ _ _ H) as [pre [post [Hr [Hh Hsc]]]].
      exists (c :: pre), post. split; [|split; [reflexivity|]].
      * rewrite Hr. cbn [rev]. now rewrite <- !app_assoc.
      * cbn [app title_scan]. rewrite E.
        destruct (title_extent_blocked s En Hin) as [x [t [-> Hx]]].
        cbn [hd_error] in Hh.
        destruct (pre ++ (lit "# " ++ nt) ++ post) as [|y u];
          [discriminate|].
        injection Hh as ->. rewrite (title_at_nonblank x u Hx). exact Hsc.
  - intros H. destruct (IH _ _ _ H) as [pre [post [Hr [Hh Hsc]]]].
    exists (c :: pre), post. split; [|split; [reflexivity|]].
    + rewrite Hr. cbn [rev]. now rewrite <- !app_assoc.
    + cbn [app title_scan]. rewrite E. exact Hsc.
Qed.

Lemma replace_scan_found (tpl : str) (s : str) (b : bool) (br : str) :
  replace_scan tpl b br s = None -> title_scan b s = None.
Proof.
  revert b br. induction s as [|c s IH]; intros b br;
    cbn [replace_scan title_scan]; [reflexivity|].
  destruct (b && ascii_eqb c "#"%char).
  - destruct (title_extent s) as [n|] eqn:En; [discriminate|].
    apply title_extent_none in En. rewrite En. apply IH.
  - apply IH.
Qed.

Lemma replace_title_reads (newTitle b : str) :
  title_scan true b <> None ->
  ~ In "$"%char newTitle -> no_line_break newTitle -> has_text newTitle ->
  extractTitle (replace_title newTitle b) = trim newTitle.
Proof.
  unfold replace_title. intros Hb Hd Hl Ht.
  destruct (replace_scan (lit "# " ++ newTitle) true [] b) as [r|] eqn:E.
  - destruct (replace_scan_title newTitle b Hd Ht _ _ _ E)
      as [pre [post [-> [_ Hsc]]]].
    cbn [rev app] in *. unfold extractTitle.
    change ("#"%char :: " "%char :: newTitle ++ post)
      with ((lit "# " ++ newTitle) ++ post).
    rewrite Hsc. rewrite take_while_all.
    + unfold trim. now rewrite trimStart_idem.
    + apply forallb_forall. intros x Hx. apply trimStart_incl in Hx.
      now rewrite (Hl x Hx).
  - exfalso. apply Hb. now apply (replace_scan_found _ _ _ _ E).
Qed.

(** X14: the replace call of [updateFromLinear].  A body with no title
    line is left as it is.  In a body with a title line, a new title that
    has no dollar sign, no line break and a character that is not a blank
    becomes the title that [extractTitle] reads from the new body, with the
    blanks at either end removed. *)
Theorem replace_title_extract (newTitle b : str) :
  (title_scan true b = None -> replace_title newTitle b = b)
  /\ (title_scan true b <> None ->
      ~ In "$"%char newTitle -> no_line_break newTitle -> has_text newTitle ->
      extractTitle (replace_title newTitle b) = trim newTitle).
Proof.
  split; [|apply replace_title_reads].
  unfold replace_title. intros H. now rewrite replace_scan_none.
Qed.

Lemma replace_title_extract_witness :
  extractTitle (replace_title (lit "Fix login")
                  (lit "intro" ++ [nl] ++ lit "#  Old title" ++ [nl]
                   ++ lit "text"))
  = lit "Fix login".
Proof.
  assert (N : forall (c : ascii) (x : str),
             forallb (fun y => negb (ascii_eqb y c)) x = true -> ~ In c x).
  { intros c x H Hin. rewrite forallb_forall in H. specialize (H c Hin).
    now rewrite ascii_eqb_refl in H. }
  apply (proj2 (replace_title_extract (lit "Fix login")
                  (lit "intro" ++ [nl] ++ lit "#  Old title" ++ [nl]
                   ++ lit "text"))).
  - vm_compute. discriminate.
  - apply N. reflexivity.
  - intros c Hc. simpl in Hc.
    repeat (destruct Hc as [<-|Hc]; [reflexivity|]). destruct Hc.
  - exists "F"%char. split; [simpl; tauto|reflexivity].
Defined.

(** ** Linking a todo to its Linear issue *)

Lemma store_names (f c c0 : str) (d : list (str * str)) :
  lookup f d = Some c0 -> map fst (store f c d) = map fst d.
Proof.
  induction d as [|[g c'] d IH]; simpl; [discriminate|].
  destruct (str_eqb g f) eqn:E.
  - intros _. apply str_eqb_true in E. now subst.
  - intros H. simpl. now rewrite IH.
Qed.

Lemma lookup_store_other (f g c : str) (d : list (str * str)) :
  g <> f -> lookup g (store f c d) = lookup g d.
Proof.
  intros Hn. induction d as [|[h c'] d IH]; simpl.
  - apply str_eqb_false in Hn. rewrite str_eqb_sym in Hn. now rewrite Hn.
  - destruct (str_eqb h f) eqn:E; simpl.
    + apply str_eqb_true in E. subst h.
      assert (E1 : str_eqb f g = false)
        by (apply str_eqb_false; congruence).
      now rewrite E1.
    + now rewrite IH.
Qed.

Lemma obj_put_nonempty (k : str) (v : value) (o : obj) : obj_put k v o <> [].
Proof.
  destruct o as [|[k' v'] o]; simpl; [discriminate|].
  destruct (str_eqb k' k); discriminate.
Qed.

Lemma linear_frontmatter_clean (li lu : str) (fm : obj) :
  single_line li -> single_line lu -> clean fm ->
  clean (linear_frontmatter li lu fm).
Proof.
  intros H1 H2 Hc. unfold linear_frontmatter.
  apply clean_put; [now apply literal_key_ok|exact H2|].
  apply clean_put; [now apply literal_key_ok|exact H1|exact Hc].
Qed.

Lemma body_render (fm : obj) (b : str) :
  clean fm -> fm <> [] -> body (parseFrontmatter (render fm b)) = b.
Proof.
  intros Hc Hn. unfold parseFrontmatter.
  now rewrite match_frontmatter_render.
Qed.

Lemma updateFromLinear_run (f content li lu : str) (nt : option str) (s : fs) :
  lookup f (files s) = Some content ->
  let p := parseFrontmatter content in
  let newBody := match truthy nt with
                 | Some t => replace_title t (body p)
                 | None => body p
                 end in
  let newContent := render (linear_frontmatter li lu (frontmatter p)) newBody in
  updateFromLinear f li lu nt s
  = (inr tt, mkFs (store f newContent (files s))
                  (trace s ++ [OpRead f; OpWrite f newContent])).
Proof.
  intros H p newBody newContent.
  unfold updateFromLinear, bind, readFile. rewrite H.
  unfold writeFile, log. cbn [files trace]. now rewrite <- app_assoc.
Qed.

(** X15: on an existing file and one-line arguments, [updateFromLinear]
    rewrites that file in place and touches no other: no name changes.  A
    [get] of the file then returns the issue and the address when the
    front-matter syntax carries them, every other entry of the old front
    matter that the syntax carries, and the old body, in which a new title
    that has no dollar sign, no line break and some text has replaced the
    title line when there was one. *)
Theorem updateFromLinear_readback (D f content li lu : str) (nt : option str)
        (s : fs) :
  lookup f (files s) = Some content ->
  single_line li -> single_line lu ->
  let p := parseFrontmatter content in
  let newBody := match truthy nt with
                 | Some t => replace_title t (body p)
                 | None => body p
                 end in
  let newContent := render (linear_frontmatter li lu (frontmatter p)) newBody in
  exists s',
    updateFromLinear f li lu nt s = (inr tt, s')
    /\ trace s' = trace s ++ [OpRead f; OpWrite f newContent]
    /\ map fst (files s') = map fst (files s)
    /\ (forall g, g <> f -> lookup g (files s') = lookup g (files s))
    /\ exists item s'',
         getTodo D f s' = (inr item, s'')
         /\ t_content item = newBody
         /\ (truthy nt = None -> t_content item = body p)
         /\ (plain_scalar li ->
             obj_get k_linear_issue (t_frontmatter item) = Some (VStr li))
         /\ (plain_scalar lu ->
             obj_get k_linear_url (t_frontmatter item) = Some (VStr lu))
         /\ (forall k v, In (k, v) (frontmatter p) -> stable_value v ->
             k <> k_linear_issue -> k <> k_linear_url ->
             obj_get k (t_frontmatter item) = Some v)
         /\ (forall t, nt = Some t -> title_scan true (body p) <> None ->
             ~ In "$"%char t -> no_line_break t -> has_text t ->
             t_title item = trim t).
Proof.
  intros Hlook H1 H2 p newBody newContent.
  pose proof (updateFromLinear_run f content li lu nt s Hlook) as Hrun.
  cbv zeta in Hrun. fold p in Hrun. fold newBody in Hrun.
  fold newContent in Hrun.
  set (s' := mkFs (store f newContent (files s))
                  (trace s ++ [OpRead f; OpWrite f newContent])) in *.
  pose proof (parseFrontmatter_clean content) as Hclean. fold p in Hclean.
  pose proof (linear_frontmatter_clean li lu _ H1 H2 Hclean) as Hc.
  assert (Hbody : body (parseFrontmatter newContent) = newBody).
  { unfold newContent. apply body_render; [exact Hc|].
    unfold linear_frontmatter. apply obj_put_nonempty. }
  exists s'. split; [exact Hrun|]. split; [reflexivity|].
  split; [apply (store_names f newContent content _ Hlook)|].
  split; [intros g Hg; now apply lookup_store_other|].
  exists (todo_of D f newContent), (log (OpRead f) s').
  split.
  { unfold getTodo, bind, readFile. unfold s' at 1. cbn [files].
    now rewrite lookup_store_same. }
  unfold todo_of. cbn [t_title t_frontmatter t_content].
  split; [exact Hbody|]. split.
  { intros Hn. rewrite Hbody. unfold newBody. now rewrite Hn. }
  split; [|split; [|split]].
  - intros Hp.
    apply (reread_get _ newBody k_linear_issue (VStr li) (VStr li) Hc).
    + unfold linear_frontmatter. apply obj_put_keeps; [discriminate|].
      apply obj_put_in.
    + discriminate.
    + now apply reparse_plain.
  - intros Hp.
    apply (reread_get _ newBody k_linear_url (VStr lu) (VStr lu) Hc).
    + unfold linear_frontmatter. apply obj_put_in.
    + discriminate.
    + now apply reparse_plain.
  - intros k v Hin Hv Hk1 Hk2.
    apply (reread_get _ newBody k v v Hc).
    + unfold linear_frontmatter. apply obj_put_keeps; [exact Hk2|].
      now apply obj_put_keeps.
    + intros ->. apply (parseFrontmatter_no_proto content).
      fold p. change proto_key with (fst (proto_key, v)). now apply in_map.
    + now apply reparse_stable.
  - intros t -> Hb Hd Hl Ht. rewrite Hbody. unfold newBody.
    assert (Et : truthy (Some t) = Some t).
    { destruct Ht as [c [Hin _]]. destruct t; [destruct Hin|reflexivity]. }
    rewrite Et. now apply replace_title_reads.
Qed.

Lemma updateFromLinear_readback_witness :
  exists s' item s'',
    updateFromLinear (lit "003-pending-p2-write-docs.md") (lit "HOL-12")
                     (lit "https://linear.app/x/HOL-12")
                     (Some (lit "Write the docs")) sample_fs
    = (inr tt, s')
    /\ getTodo sample_root (lit "003-pending-p2-write-docs.md") s'
       = (inr item, s'')
    /\ obj_get k_linear_issue (t_frontmatter item) = Some (VStr (lit "HOL-12"))
    /\ t_title item = lit "Write the docs".
Proof.
  assert (N : forall (c : ascii) (x : str),
             forallb (fun y => negb (ascii_eqb y c)) x = true -> ~ In c x).
  { intros c x H Hin. rewrite forallb_forall in H. specialize (H c Hin).
    now rewrite ascii_eqb_refl in H. }
  destruct (updateFromLinear_readback sample_root
              (lit "003-pending-p2-write-docs.md")
              (front [lit "status: pending"; lit "priority: p2";
                      lit "issue_id: 003"] (lit "# Write docs"))
              (lit "HOL-12") (lit "https://linear.app/x/HOL-12")
              (Some (lit "Write the docs")) sample_fs)
    as [s' [Hrun [_ [_ [_ [item [s'' [Hget [_ [_ [Hli [_ [_ Ht]]]]]]]]]]]]].
  - reflexivity.
  - apply N. reflexivity.
  - apply N. reflexivity.
  - exists s', item, s''. split; [exact Hrun|]. split; [exact Hget|]. split.
    + apply Hli. right. split; [reflexivity|].
      eexists. eexists. split; [reflexivity|]. split; discriminate.
    + apply (Ht _ eq_refl).
      * vm_compute. discriminate.
      * apply N. reflexivity.
      * intros c Hc. simpl in Hc.
        repeat (destruct Hc as [<-|Hc]; [reflexivity|]). destruct Hc.
      * exists "W"%char. split; [simpl; tauto|reflexivity].
Defined.

(** ** Ids and file names of successive creations *)

Lemma next_number_facts (m : Z) :
  (0 <= m)%Z -> (m + 1 < two53)%Z ->
  let number := padStart0 3 (String_of_Z (m + 1)) in
  forallb is_digit number = true
  /\ number <> []
  /\ digits_go 0 number = (m + 1)%Z
  /\ parseInt number = Some (m + 1)%Z.
Proof.
  intros Hm Hb number.
  destruct (String_of_Z_digits (m + 1)%Z) as [D1 [D2 D3]]; [lia|].
  destruct (padStart0_number 3 (String_of_Z (m + 1)) D1 D3)
    as [P1 [P2 [P3 _]]].
  assert (Hne : number <> []).
  { intros E. unfold number in E. rewrite E in P3. simpl in P3. lia. }
  split; [exact P1|]. split; [exact Hne|]. split.
  - unfold number, padStart0. now rewrite digits_go_zeros.
  - unfold number. rewrite P2, D2. now rewrite to_double_small.
Qed.

Lemma next_number_shape (n : Z) :
  number_shape (padStart0 3 (String_of_Z n)).
Proof. apply padStart0_shape, String_of_double_shape. Qed.

Lemma number_shape_chars (s : str) :
  number_shape s ->
  forallb is_number_char s = true
  /\ exists c r, s = c :: r /\ is_digit c = true.
Proof.
  intros [ds [rest [-> [H1 [H2 H3]]]]]. split.
  - rewrite forallb_app. apply andb_true_iff. split.
    + apply forallb_forall. intros c Hc. rewrite forallb_forall in H1.
      unfold is_number_char. now rewrite (H1 c Hc).
    + destruct H3 as [->|[c [r [_ [_ [_ H3]]]]]]; [reflexivity|exact H3].
  - destruct ds as [|c r]; [congruence|]. exists c, (r ++ rest).
    split; [reflexivity|]. simpl in H1.
    now apply andb_true_iff in H1 as [H1 _].
Qed.

Lemma maxNumber_of_app (names : list str) (f : str) :
  maxNumber_of (names ++ [f]) = max_step f (maxNumber_of names).
Proof. unfold maxNumber_of. now rewrite fold_left_app. Qed.

Lemma store_fresh (f c : str) (d : list (str * str)) :
  ~ In f (map fst d) -> store f c d = d ++ [(f, c)].
Proof.
  induction d as [|[g c'] d IH]; simpl; intros H; [reflexivity|].
  destruct (str_eqb g f) eqn:E.
  - apply str_eqb_true in E. exfalso. apply H. now left.
  - rewrite IH; [reflexivity|]. intros Hin. apply H. now right.
Qed.

Lemma lookup_none_names (f : str) (d : list (str * str)) :
  lookup f d = None -> ~ In f (map fst d).
Proof. intros H Hin. now apply lookup_in_names in Hin. Qed.

Lemma lookup_some_names (f c : str) (d : list (str * str)) :
  lookup f d = Some c -> In f (map fst d).
Proof.
  induction d as [|[g c'] d IH]; simpl; [discriminate|].
  destruct (str_eqb g f) eqn:Eg.
  - intros _. left. now apply str_eqb_true.
  - intros H. right. now apply IH.
Qed.

Lemma buildFilename_number (n1 n2 st1 st2 p1 p2 sl1 sl2 : str) :
  forallb is_digit n1 = true -> forallb is_digit n2 = true ->
  buildFilename n1 st1 p1 sl1 = buildFilename n2 st2 p2 sl2 -> n1 = n2.
Proof.
  intros H1 H2 E. unfold buildFilename in E.
  apply (f_equal (take_while is_digit)) in E.
  change (n1 ++ lit "-" ++ st1 ++ lit "-" ++ p1 ++ lit "-" ++ sl1 ++ md_ext)
    with (n1 ++ "-"%char :: (st1 ++ lit "-" ++ p1 ++ lit "-" ++ sl1 ++ md_ext))
    in E.
  change (n2 ++ lit "-" ++ st2 ++ lit "-" ++ p2 ++ lit "-" ++ sl2 ++ md_ext)
    with (n2 ++ "-"%char :: (st2 ++ lit "-" ++ p2 ++ lit "-" ++ sl2 ++ md_ext))
    in E.
  destruct (take_while_app is_digit n1 "-"%char
              (st1 ++ lit "-" ++ p1 ++ lit "-" ++ sl1 ++ md_ext) H1 eq_refl)
    as [E1 _].
  destruct (take_while_app is_digit n2 "-"%char
              (st2 ++ lit "-" ++ p2 ++ lit "-" ++ sl2 ++ md_ext) H2 eq_refl)
    as [E2 _].
  now rewrite E1, E2 in E.
Qed.

Lemma slug_well_formed (number : str) (t : str) :
  forallb is_digit number = true -> number <> [] -> slugify t <> [] ->
  well_formed_parts number (lit "pending") (slugify t).
Proof.
  intros H1 H2 H3. destruct (slugify_shape t) as [_ [S2 _]].
  repeat split; try assumption; try discriminate.
  apply forallb_forall. intros c Hc.
  rewrite forallb_forall in S2. specialize (S2 c Hc).
  destruct (is_lt c) eqn:El; [|reflexivity].
  apply orb_true_iff in El as [El|El]; apply ascii_eqb_true in El;
    subst c; discriminate S2.
Qed.

Lemma not_dash_unknown (ds : str) (c : ascii) (r f : str) :
  c <> "-"%char ->
  match ds, c :: r with
  | _ :: _, "-"%char :: r2 =>
      let st := take_while is_word r2 in
      match st, drop_while is_word r2 with
      | _ :: _, "-"%char :: "p"%char :: d :: "-"%char :: r4 =>
          if is_tier_digit d && endsWith md_ext r4 && (4 <=? length r4)
             && forallb (fun c => negb (is_lt c)) r4
          then mkParts ds st ["p"%char; d] (firstn (length r4 - 3) r4)
          else unknown_parts f
      | _, _ => unknown_parts f
      end
  | _, _ => unknown_parts f
  end = unknown_parts f.
Proof.
  intros H. destruct ds as [|d0 ds]; [reflexivity|].
  destruct c as [[] [] [] [] [] [] [] []]; try reflexivity. congruence.
Qed.

(** A file name with an empty slug is not one that [parseFilename]
    recognises, whatever the number. *)
Lemma parseFilename_empty_slug (number : str) (p : tier) :
  number_shape number ->
  parseFilename (buildFilename number (lit "pending") (tier_str p) [])
  = unknown_parts (buildFilename number (lit "pending") (tier_str p) []).
Proof.
  intros [ds [rest [E [Hd [Hne Hr]]]]]. unfold parseFilename.
  set (f := buildFilename number (lit "pending") (tier_str p) []).
  destruct Hr as [->|[c [r [-> [Hc [Hdash _]]]]]].
  - rewrite app_nil_r in E. subst number.
    assert (Hf : f = ds ++ "-"%char
                       :: (lit "pending-" ++ tier_str p ++ lit "-.md"))
      by reflexivity.
    destruct (take_while_app is_digit ds "-"%char
                (lit "pending-" ++ tier_str p ++ lit "-.md") Hd eq_refl)
      as [E1 E2].
    rewrite <- Hf in E1, E2. rewrite E1, E2.
    destruct ds as [|n0 n']; [reflexivity|].
    destruct p; reflexivity.
  - assert (Hf : f = ds ++ c :: (r ++ lit "-pending-" ++ tier_str p
                                   ++ lit "-.md")).
    { unfold f, buildFilename. rewrite E. rewrite <- !app_assoc.
      reflexivity. }
    destruct (take_while_app is_digit ds c
                (r ++ lit "-pending-" ++ tier_str p ++ lit "-.md") Hd Hc)
      as [E1 E2].
    rewrite <- Hf in E1, E2. rewrite E1, E2.
    now apply not_dash_unknown.
Qed.

(** X16: in a directory whose ids are all below 2^53 - 2, a creation whose
    title gives a slug never overwrites a file: the name it writes is new
    to the directory, and the other files stay as they were.  The next
    number is then one more, so a second creation, whatever its options,
    gets the following id and another file name, and leaves the first file
    as it was written. *)
Theorem createTodo_fresh (D : str) (options : CreateOptions) (s : fs) :
  slugify (title options) <> [] ->
  (forall f, In f (map fst (files s)) -> endsWith md_ext f = true ->
             (file_id f + 2 < two53)%Z) ->
  let m := maxNumber_of (map fst (files s)) in
  let number := padStart0 3 (String_of_Z (m + 1)) in
  let filename := buildFilename number (lit "pending")
                                (tier_str (priority options))
                                (slugify (title options)) in
  let content := render (new_frontmatter number options) (new_body options) in
  let s' := snd (createTodo D options s) in
  (forall f, In f (map fst (files s)) -> endsWith md_ext f = true ->
             (file_id f <= m)%Z)
  /\ parseInt number = Some (m + 1)%Z
  /\ lookup filename (files s) = None
  /\ lookup filename (files s') = Some content
  /\ (forall g, g <> filename -> lookup g (files s') = lookup g (files s))
  /\ fst (getNextNumber s') = inr (padStart0 3 (String_of_Z (m + 2)))
  /\ forall options2,
       exists c2 s2,
         createTodo D options2 s' = (inr c2, s2)
         /\ parseInt (c_number c2) = Some (m + 2)%Z
         /\ c_filename c2 <> filename
         /\ lookup filename (files s2) = Some content.
Proof.
  intros Hslug Hids m number filename content s'.
  destruct (maxNumber_of_exact (map fst (files s)) (two53 - 2))
    as [[M0 Mb] [M1 _]].
  { unfold two53. lia. }
  { intros f Hf Hmd. specialize (Hids f Hf Hmd). lia. }
  fold m in M0, Mb, M1.
  destruct (next_number_facts m M0) as [N1 [N2 [_ N3]]]; [lia|].
  fold number in N1, N2, N3.
  pose proof (slug_well_formed number (title options) N1 N2 Hslug) as Hwf.
  pose proof (parseFilename_build number (lit "pending")
                (slugify (title options)) (priority options) Hwf) as Hparts.
  fold filename in Hparts.
  assert (Hmd : endsWith md_ext filename = true).
  { unfold filename, buildFilename. rewrite !app_assoc. apply endsWith_app. }
  assert (Hid : file_id filename = (m + 1)%Z).
  { unfold file_id. rewrite Hparts. cbn [fp_number].
    unfold number, padStart0. rewrite digits_go_zeros.
    apply String_of_Z_digits. lia. }
  assert (Hnew : ~ In filename (map fst (files s))).
  { intros Hin. specialize (M1 filename Hin Hmd). lia. }
  assert (Hlook : lookup filename (files s) = None).
  { destruct (lookup filename (files s)) as [c|] eqn:E; [|reflexivity].
    exfalso. apply Hnew. now apply (lookup_some_names _ _ _ E). }
  assert (Hfiles : files s' = store filename content (files s)).
  { unfold s'. now rewrite createTodo_run. }
  assert (Hmax : maxNumber_of (map fst (files s')) = (m + 1)%Z).
  { rewrite Hfiles, store_fresh by exact Hnew.
    rewrite map_app. cbn [map fst]. rewrite maxNumber_of_app.
    fold m. unfold max_step. rewrite Hmd. cbn [negb].
    rewrite Hparts. cbn [fp_number]. rewrite N3.
    assert (E : (m <? m + 1)%Z = true) by (apply Z.ltb_lt; lia).
    now rewrite E. }
  split; [exact M1|]. split; [exact N3|]. split; [exact Hlook|].
  split; [rewrite Hfiles; apply lookup_store_same|].
  split; [intros g Hg; rewrite Hfiles; now apply lookup_store_other|].
  split.
  { unfold getNextNumber, bind, readdir, ret. cbn [fst files log].
    rewrite Hmax. now replace (m + 1 + 1)%Z with (m + 2)%Z by lia. }
  intros options2. rewrite createTodo_run. rewrite Hmax.
  replace (m + 1 + 1)%Z with (m + 2)%Z by lia.
  destruct (next_number_facts (m + 1)%Z) as [Q1 [Q2 [_ Q3]]]; [lia|lia|].
  replace (m + 1 + 1)%Z with (m + 2)%Z in Q1, Q2, Q3 by lia.
  eexists. eexists. split; [reflexivity|]. cbn [c_number c_filename files].
  split; [exact Q3|].
  assert (Hne : buildFilename (padStart0 3 (String_of_Z (m + 2)))
                  (lit "pending") (tier_str (priority options2))
                  (slugify (title options2)) <> filename).
  { intros E. apply buildFilename_number in E; [|exact Q1|exact N1].
    rewrite E in Q3. rewrite N3 in Q3. injection Q3 as Q3. lia. }
  split; [exact Hne|].
  rewrite lookup_store_other by congruence.
  rewrite Hfiles. apply lookup_store_same.
Qed.

Lemma createTodo_fresh_witness :
  fst (getNextNumber
         (snd (createTodo sample_root
                 (mkOptions P2 (lit "Fix login") None None None None None None)
                 sample_fs)))
  = inr (lit "006").
Proof.
  refine (proj1 (proj2 (proj2 (proj2 (proj2 (proj2
            (createTodo_fresh sample_root
               (mkOptions P2 (lit "Fix login") None None None None None None)
               sample_fs _ _))))))).
  - vm_compute. discriminate.
  - intros f Hf _.
    assert (B : forallb (fun g => (file_id g + 2 <? two53)%Z)
                        (map fst (files sample_fs)) = true)
      by (vm_compute; reflexivity).
    rewrite forallb_forall in B. apply Z.ltb_lt. now apply B.
Defined.

(** X17: a title with no letter and no digit gives an empty slug, and the
    file name written for it, number-pending-priority-.md, is one that
    [parseFilename] does not recognise: the file counts as number 000, the
    next number stays the same, and a second such creation with the same
    priority gets the same id and the same file name and replaces the
    content of the first. *)
Theorem createTodo_empty_slug (D : str) (options options2 : CreateOptions)
        (s : fs) :
  slugify (title options) = [] ->
  slugify (title options2) = [] ->
  priority options2 = priority options ->
  let m := maxNumber_of (map fst (files s)) in
  let number := padStart0 3 (String_of_Z (m + 1)) in
  let filename := buildFilename number (lit "pending")
                                (tier_str (priority options)) [] in
  exists c s' c2 s2,
    createTodo D options s = (inr c, s')
    /\ c_filename c = filename
    /\ parseFilename filename = unknown_parts filename
    /\ fst (getNextNumber s') = inr number
    /\ createTodo D options2 s' = (inr c2, s2)
    /\ c_number c2 = c_number c
    /\ c_filename c2 = filename
    /\ map fst (files s2) = map fst (files s')
    /\ lookup filename (files s2)
       = Some (render (new_frontmatter number options2) (new_body options2)).
Proof.
  intros Hs1 Hs2 Hp m number filename.
  destruct (maxNumber_of_spec (map fst (files s))) as [M0 _]. fold m in M0.
  pose proof (parseFilename_empty_slug number (priority options)
                (next_number_shape (m + 1))) as Hparts.
  fold filename in Hparts.
  set (content := render (new_frontmatter number options) (new_body options)).
  assert (Hmd : endsWith md_ext filename = true).
  { unfold filename, buildFilename. rewrite !app_assoc. apply endsWith_app. }
  assert (Hstep : max_step filename m = m).
  { unfold max_step. rewrite Hmd, Hparts. cbn [negb fp_number unknown_parts].
    change (parseInt (lit "000")) with (Some 0%Z). cbv iota beta.
    assert (E : (m <? 0)%Z = false) by (apply Z.ltb_ge; lia).
    now rewrite E. }
  assert (Hmax : maxNumber_of (map fst (store filename content (files s))) = m).
  { destruct (lookup filename (files s)) as [c0|] eqn:E.
    - now rewrite (store_names filename content c0 _ E).
    - rewrite store_fresh by now apply lookup_none_names.
      rewrite map_app. cbn [map fst]. now rewrite maxNumber_of_app. }
  pose proof (createTodo_run D options s) as Hrun. cbv zeta in Hrun.
  rewrite Hs1 in Hrun. fold m in Hrun. fold number in Hrun.
  fold filename in Hrun. fold content in Hrun.
  eexists. eexists. eexists. eexists.
  split; [exact Hrun|]. split; [reflexivity|]. split; [exact Hparts|].
  split.
  { unfold getNextNumber, bind, readdir, ret. cbn [fst files log].
    now rewrite Hmax. }
  rewrite createTodo_run. cbn [files]. rewrite Hmax, Hs2, Hp.
  fold number. fold filename.
  split; [reflexivity|]. split; [reflexivity|]. split; [reflexivity|].
  cbn [files]. split.
  - apply (store_names filename _ content). apply lookup_store_same.
  - apply lookup_store_same.
Qed.

Lemma createTodo_empty_slug_witness :
  let o1 := mkOptions P2 (lit "???") None None None None None None in
  let o2 := mkOptions P2 (lit "!") None None None None None None in
  exists c s' c2 s2,
    createTodo sample_root o1 sample_fs = (inr c, s')
    /\ createTodo sample_root o2 s' = (inr c2, s2)
    /\ c_filename c2 = c_filename c
    /\ c_filename c = lit "005-pending-p2-.md".
Proof.
  intros o1 o2.
  destruct (createTodo_empty_slug sample_root o1 o2 sample_fs
              eq_refl eq_refl eq_refl)
    as [c [s' [c2 [s2 [H1 [H2 [_ [_ [H3 [_ [H4 _]]]]]]]]]]].
  exists c, s', c2, s2. split; [exact H1|]. split; [exact H3|].
  split; [now rewrite H2, H4|]. rewrite H2. reflexivity.
Defined.

(** ** The arguments of the create command *)







(** ** Deleting and probing worktrees *)

Section WorktreeOutcomes.

Variable World : Type.
Variable perform : effect -> World -> result str * World.
Variable REPO_ROOT : str.
Variable WORKTREES_DIR : str.

Lemma deleteWorktree_cases (name : str) (w : World * list effect) :
  let path := worktree_path WORKTREES_DIR name in
  let e_list := Shell cmd_list REPO_ROOT in
  let e_remove := Shell (cmd_remove path) REPO_ROOT in
  let e_prune := Shell cmd_prune REPO_ROOT in
  let e_branch b := Shell (cmd_branch_delete b) REPO_ROOT in
  let failed e := failure (lit "Failed to delete worktree: " ++ message e) in
  let manual (e : exn) (w1 : World) (done : list effect) :=
    match perform (Rm path) w1 with
    | (inl _, w2) => (inr (failed e), (w2, done ++ [Rm path]))
    | (inr _, w2) =>
        match perform e_prune w2 with
        | (inl _, w3) => (inr (failed e), (w3, done ++ [Rm path; e_prune]))
        | (inr _, w3) =>
            (inr (mkResult true (Some (DataDeleted name true)) None),
             (w3, done ++ [Rm path; e_prune]))
        end
    end in
  deleteWorktree perform REPO_ROOT WORKTREES_DIR name w
  = match perform e_list (fst w) with
    | (inl e, w1) => manual e w1 (snd w ++ [e_list])
    | (inr out, w1) =>
        match find_name name (parse_listing true (trim out)) with
        | None =>
            (inr (failure (lit "Worktree " ++ name ++ lit " does not exist")),
             (w1, snd w ++ [e_list]))
        | Some worktree =>
            match perform e_remove w1 with
            | (inl e, w2) => manual e w2 (snd w ++ [e_list; e_remove])
            | (inr _, w2) =>
                match perform e_prune w2 with
                | (inl e, w3) =>
                    manual e w3 (snd w ++ [e_list; e_remove; e_prune])
                | (inr _, w3) =>
                    (inr (mkResult true (Some (DataDeleted name false)) None),
                     (snd (perform (e_branch (w_branch worktree)) w3),
                      snd w ++ [e_list; e_remove; e_prune;
                                e_branch (w_branch worktree)]))
                end
            end
        end
    end.
Proof.
  intros path e_list e_remove e_prune e_branch failed manual.
  assert (Hman : forall e w1 done,
            try_catch
              (rm perform path ;;;
               run perform REPO_ROOT cmd_prune None ;;;
               ret (mkResult true (Some (DataDeleted name true)) None))
              (fun _ => ret (failed e)) (w1, done)
            = manual e w1 done).
  { intros e w1 done. unfold manual, try_catch, bind, rm, run, bind,
      do_effect, ret. cbn [truthy fst snd].
    destruct (perform (Rm path) w1) as [[e1|o1] w2]; [reflexivity|].
    cbn [fst snd]. fold e_prune.
    destruct (perform e_prune w2) as [[e2|o2] w3]; cbn [fst snd];
      now rewrite <- app_assoc. }
  unfold deleteWorktree. fold path. unfold try_catch at 1.
  unfold bind at 1. rewrite listWorktrees_run. fold e_list.
  destruct (perform e_list (fst w)) as [[e|out] w1] eqn:El; cbn [fst snd].
  { apply Hman. }
  destruct (find_name name (parse_listing true (trim out))) as [wt|];
    [|reflexivity].
  unfold bind at 1. rewrite run_root. cbn [fst snd]. fold e_remove.
  destruct (perform e_remove w1) as [[e|o2] w2]; cbn [fst snd].
  { cbv beta. rewrite <- app_assoc. apply Hman. }
  unfold bind at 1. rewrite run_root. cbn [fst snd]. fold e_prune.
  destruct (perform e_prune w2) as [[e|o3] w3]; cbn [fst snd].
  { cbv beta. rewrite <- !app_assoc. apply Hman. }
  unfold bind at 1. unfold try_catch at 1. unfold bind at 1.
  rewrite run_root. cbn [fst snd]. fold (e_branch (w_branch wt)).
  destruct (perform (e_branch (w_branch wt)) w3) as [[e|o4] w4];
    cbn [fst snd]; unfold ret; now rewrite <- !app_assoc.
Qed.

(** X19: [deleteWorktree] never throws, and its run is decided by the
    outcomes of its commands as follows.  When the listing does not show
    the name it reports that the worktree does not exist, having run the
    listing only.  When the listing command itself fails, or the name is
    listed and the removal fails, or the removal succeeds and the pruning
    fails, it falls back: it removes the directory under [WORKTREES_DIR]
    and prunes, and reports a success with [manualCleanup] if both go
    through, else a failure with the message of the error that started the
    fallback.  Otherwise it deletes the branch, ignores the result of that,
    and reports a success without [manualCleanup]; such a success means
    that the name was listed and that removal and pruning succeeded, in
    that order. *)
Theorem deleteWorktree_outcome (name : str) (w : World * list effect) :
  let path := worktree_path WORKTREES_DIR name in
  let e_list := Shell cmd_list REPO_ROOT in
  let e_remove := Shell (cmd_remove path) REPO_ROOT in
  let e_prune := Shell cmd_prune REPO_ROOT in
  let e_branch b := Shell (cmd_branch_delete b) REPO_ROOT in
  let failed e := failure (lit "Failed to delete worktree: " ++ message e) in
  let fallback (e : exn) (w1 : World) (done : list effect) :=
    match perform (Rm path) w1 with
    | (inl _, w2) => (inr (failed e), (w2, done ++ [Rm path]))
    | (inr _, w2) =>
        match perform e_prune w2 with
        | (inl _, w3) => (inr (failed e), (w3, done ++ [Rm path; e_prune]))
        | (inr _, w3) =>
            (inr (mkResult true (Some (DataDeleted name true)) None),
             (w3, done ++ [Rm path; e_prune]))
        end
    end in
  let delete := deleteWorktree perform REPO_ROOT WORKTREES_DIR name in
  (exists res w', delete w = (inr res, w'))
  /\ delete w
     = match perform e_list (fst w) with
       | (inl e, w1) => fallback e w1 (snd w ++ [e_list])
       | (inr out, w1) =>
           match find_name name (parse_listing true (trim out)) with
           | None =>
               (inr (failure (lit "Worktree " ++ name
                              ++ lit " does not exist")),
                (w1, snd w ++ [e_list]))
           | Some worktree =>
               match perform e_remove w1 with
               | (inl e, w2) => fallback e w2 (snd w ++ [e_list; e_remove])
               | (inr _, w2) =>
                   match perform e_prune w2 with
                   | (inl e, w3) =>
                       fallback e w3 (snd w ++ [e_list; e_remove; e_prune])
                   | (inr _, w3) =>
                       (inr (mkResult true (Some (DataDeleted name false))
                                      None),
                        (snd (perform (e_branch (w_branch worktree)) w3),
                         snd w ++ [e_list; e_remove; e_prune;
                                   e_branch (w_branch worktree)]))
                   end
               end
           end
       end
  /\ (forall res w',
        delete w = (inr res, w') ->
        data res = Some (DataDeleted name false) ->
        exists out w1 wt o2 w2 o3 w3,
          perform e_list (fst w) = (inr out, w1)
          /\ find_name name (parse_listing true (trim out)) = Some wt
          /\ perform e_remove w1 = (inr o2, w2)
          /\ perform e_prune w2 = (inr o3, w3)
          /\ snd w' = snd w ++ [e_list; e_remove; e_prune;
                                e_branch (w_branch wt)]).
Proof.
  intros path e_list e_remove e_prune e_branch failed fallback delete.
  pose proof (deleteWorktree_cases name w) as Hc. cbv beta zeta in Hc.
  fold path in Hc. fold e_list in Hc. fold e_remove in Hc.
  fold e_prune in Hc. fold delete in Hc.
  split; [apply deleteWorktree_returns|]. split; [exact Hc|].
  intros res w' Hrun Hdata. rewrite Hc in Hrun.
  destruct (perform e_list (fst w)) as [[e|out] w1] eqn:E1.
  { destruct (perform (Rm path) w1) as [[e1|o1] w2];
      [injection Hrun as <- _; discriminate Hdata|].
    destruct (perform e_prune w2) as [[e2|o2] w3];
      injection Hrun as <- _; discriminate Hdata. }
  destruct (find_name name (parse_listing true (trim out))) as [wt|] eqn:E2.
  2:{ injection Hrun as <- _. discriminate Hdata. }
  destruct (perform e_remove w1) as [[e|o2] w2] eqn:E3.
  { destruct (perform (Rm path) w2) as [[e1|o1] w3];
      [injection Hrun as <- _; discriminate Hdata|].
    destruct (perform e_prune w3) as [[e2|o3] w4];
      injection Hrun as <- _; discriminate Hdata. }
  destruct (perform e_prune w2) as [[e|o3] w3] eqn:E4.
  { destruct (perform (Rm path) w3) as [[e1|o1] w4];
      [injection Hrun as <- _; discriminate Hdata|].
    destruct (perform e_prune w4) as [[e2|o4] w5];
      injection Hrun as <- _; discriminate Hdata. }
  injection Hrun as _ <-. cbn [snd].
  exists out, w1, wt, o2, w2, o3, w3.
  split; [reflexivity|]. split; [exact E2|]. split; [exact E3|].
  split; [exact E4|reflexivity].
Qed.

(** X20: [worktreeExists] never throws and always reports success.  It
    answers that the worktree exists exactly when the directory under
    [WORKTREES_DIR] can be accessed and the listing command succeeds,
    whether or not the listing shows the name; the branch it reports is
    that of the listed worktree of that name, and none when the name is not
    listed. *)
Theorem worktreeExists_outcome (name : str) (w : World * list effect) :
  let path := worktree_path WORKTREES_DIR name in
  let e_list := Shell cmd_list REPO_ROOT in
  let probe := worktreeExists perform REPO_ROOT WORKTREES_DIR name in
  (exists d w', probe w = (inr d, w') /\ x_name d = name)
  /\ (forall e w1, perform (Access path) (fst w) = (inl e, w1) ->
        probe w = (inr (mkExists false name None None),
                   (w1, snd w ++ [Access path])))
  /\ (forall o w1 e w2,
        perform (Access path) (fst w) = (inr o, w1) ->
        perform e_list w1 = (inl e, w2) ->
        probe w = (inr (mkExists false name None None),
                   (w2, snd w ++ [Access path; e_list])))
  /\ (forall o w1 out w2,
        perform (Access path) (fst w) = (inr o, w1) ->
        perform e_list w1 = (inr out, w2) ->
        probe w
        = (inr (mkExists true name (Some path)
                  (option_map w_branch
                     (find_name name (parse_listing true (trim out))))),
           (w2, snd w ++ [Access path; e_list]))).
Proof.
  intros path e_list probe.
  assert (Hrun : probe w
            = match perform (Access path) (fst w) with
              | (inl _, w1) =>
                  (inr (mkExists false name None None),
                   (w1, snd w ++ [Access path]))
              | (inr _, w1) =>
                  match perform e_list w1 with
                  | (inl _, w2) =>
                      (inr (mkExists false name None None),
                       (w2, snd w ++ [Access path; e_list]))
                  | (inr out, w2) =>
                      (inr (mkExists true name (Some path)
                              (option_map w_branch
                                 (find_name name
                                    (parse_listing true (trim out))))),
                       (w2, snd w ++ [Access path; e_list]))
                  end
              end).
  { unfold probe, worktreeExists. fold path.
    unfold try_catch, bind at 1, access, bind at 1, do_effect, ret.
    destruct (perform (Access path) (fst w)) as [[e|o] w1]; [reflexivity|].
    unfold bind. rewrite listWorktrees_run. cbn [fst snd]. fold e_list.
    destruct (perform e_list w1) as [[e|out] w2]; cbn [fst snd];
      now rewrite <- app_assoc. }
  split; [|split; [|split]].
  - rewrite Hrun.
    destruct (perform (Access path) (fst w)) as [[e|o] w1]; [now eauto|].
    destruct (perform e_list w1) as [[e|out] w2]; now eauto.
  - intros e w1 H. now rewrite Hrun, H.
  - intros o w1 e w2 H1 H2. now rewrite Hrun, H1, H2.
  - intros o w1 out w2 H1 H2. now rewrite Hrun, H1, H2.
Qed.

End WorktreeOutcomes.

Lemma deleteWorktree_outcome_witness :
  deleteWorktree Scripted.perform sample_repo sample_worktrees
    (lit "ralph-HOL-1")
    (Scripted.mkWorld sample_listing [lit "git worktree remove"], [])
  = (inr (mkResult true (Some (DataDeleted (lit "ralph-HOL-1") true)) None),
     (Scripted.mkWorld sample_listing [lit "git worktree remove"],
      [Shell cmd_list sample_repo;
       Shell (cmd_remove (worktree_path sample_worktrees (lit "ralph-HOL-1")))
             sample_repo;
       Rm (worktree_path sample_worktrees (lit "ralph-HOL-1"));
       Shell cmd_prune sample_repo])).
Proof.
  etransitivity.
  - apply (proj1 (proj2 (deleteWorktree_outcome Scripted.world
                           Scripted.perform sample_repo sample_worktrees
                           (lit "ralph-HOL-1")
                           (Scripted.mkWorld sample_listing
                              [lit "git worktree remove"], [])))).
  - vm_compute. reflexivity.
Defined.

Lemma worktreeExists_outcome_witness :
  worktreeExists Scripted.perform sample_repo sample_worktrees
    (lit "ralph-HOL-1") (Scripted.mkWorld sample_listing [], [])
  = (inr (mkExists true (lit "ralph-HOL-1")
            (Some (lit "/repo/.worktrees/ralph-HOL-1"))
            (Some (lit "feature/x"))),
     (Scripted.mkWorld sample_listing [],
      [Access (lit "/repo/.worktrees/ralph-HOL-1");
       Shell cmd_list sample_repo])).
Proof.
  apply (proj2 (proj2 (proj2 (worktreeExists_outcome Scripted.world
                                Scripted.perform sample_repo sample_worktrees
                                (lit "ralph-HOL-1")
                                (Scripted.mkWorld sample_listing [], []))))
           [] (Scripted.mkWorld sample_listing [])
           sample_listing (Scripted.mkWorld sample_listing [])).
  - reflexivity.
  - reflexivity.
Defined.

(** ** The names of the listed worktrees *)

Lemma last_in {A : Type} (l : list A) (d : A) : l <> [] -> In (last l d) l.
Proof.
  induction l as [|x l IH]; [congruence|]. intros _.
  destruct l as [|y l]; [now left|].
  right. apply IH. discriminate.
Qed.

Lemma last_segment_no_slash (path : str) : ~ In "/"%char (last_segment path).
Proof.
  unfold last_segment.
  pose proof (split_char_pieces "/"%char path) as Hp.
  rewrite Forall_forall in Hp.
  apply (Hp _ (last_in _ [] (split_char_nonempty "/"%char path))).
Qed.

Lemma parse_entry_name (entry : str) (x : WorktreeInfo) :
  parse_entry entry = Some x ->
  w_name x = last_segment (w_path x)
  /\ w_isRalph x = startsWith ralph_prefix (w_name x).
Proof.
  unfold parse_entry.
  destruct (find (startsWith (lit "worktree ")) (split_char nl entry));
    [|discriminate].
  intros [= <-]. now split.
Qed.

Lemma parse_entries_names (all : bool) (l : list str) :
  Forall (fun x => w_name x = last_segment (w_path x)
                   /\ w_isRalph x = startsWith ralph_prefix (w_name x)
                   /\ (all = false -> w_isRalph x = true))
         (parse_entries all l).
Proof.
  induction l as [|entry l IH]; cbn [parse_entries]; [constructor|].
  destruct (parse_entry entry) as [x|] eqn:E; [|exact IH].
  destruct (all || w_isRalph x) eqn:Ea; [|exact IH].
  constructor; [|exact IH].
  destruct (parse_entry_name _ _ E) as [H1 H2].
  split; [exact H1|]. split; [exact H2|].
  intros ->. exact Ea.
Qed.

(** X21: what [listWorktrees] can list.  The name of a listed worktree is
    the last segment of its path, so it never contains a slash, and the
    worktree is flagged as managed exactly when that name starts with
    ralph-; the default listing is the full listing restricted to the
    managed worktrees.  Hence a name with a slash is never found in a
    listing: the guards of [createWorktree] and [deleteWorktree] cannot
    match it. *)
Theorem parse_listing_names (all : bool) (output : str) :
  Forall (fun x => w_name x = last_segment (w_path x)
                   /\ ~ In "/"%char (w_name x)
                   /\ w_isRalph x = startsWith ralph_prefix (w_name x)
                   /\ (all = false -> w_isRalph x = true))
         (parse_listing all output)
  /\ parse_listing false output = filter w_isRalph (parse_listing true output)
  /\ (forall name, In "/"%char name ->
        has_name name (parse_listing all output) = false
        /\ find_name name (parse_listing all output) = None).
Proof.
  assert (H : Forall (fun x => w_name x = last_segment (w_path x)
                   /\ ~ In "/"%char (w_name x)
                   /\ w_isRalph x = startsWith ralph_prefix (w_name x)
                   /\ (all = false -> w_isRalph x = true))
                (parse_listing all output)).
  { unfold parse_listing.
    eapply Forall_impl; [|apply parse_entries_names].
    intros x [H1 [H2 H3]]. split; [exact H1|]. split; [|now split].
    rewrite H1. apply last_segment_no_slash. }
  split; [exact H|]. split.
  - rewrite parse_listing_filter. apply filter_ext_in.
    intros x Hx.
    pose proof (parse_entries_names true
                  (filter is_nonempty (split [nl; nl] output))) as Hn.
    rewrite Forall_forall in Hn. destruct (Hn x Hx) as [_ [Hr _]].
    now rewrite Hr.
  - intros name Hname. rewrite Forall_forall in H.
    assert (Hno : forall x, In x (parse_listing all output) ->
                            str_eqb (w_name x) name = false).
    { intros x Hx. apply str_eqb_false. intros E.
      destruct (H x Hx) as [_ [Hs _]]. apply Hs. now rewrite E. }
    split.
    + unfold has_name. destruct (existsb _ _) eqn:E; [|reflexivity].
      apply existsb_exists in E as [x [Hx Hn]]. now rewrite (Hno x Hx) in Hn.
    + unfold find_name.
      destruct (find _ _) as [x|] eqn:E; [|reflexivity].
      apply find_some in E as [Hx Hn]. now rewrite (Hno x Hx) in Hn.
Qed.

Lemma parse_listing_names_witness :
  has_name (lit "team/ralph-HOL-1") (parse_listing true sample_listing) = false.
Proof.
  apply (proj2 (proj2 (parse_listing_names true sample_listing))
           (lit "team/ralph-HOL-1")).
  simpl. tauto.
Defined.

(** ** Completed items and the dependencies that wait for them *)

Lemma plain_scalar_nonempty (v : str) : plain_scalar v -> v <> [].
Proof.
  intros [H|[_ [c [r [-> _]]]]]; [|discriminate].
  intros ->. discriminate H.
Qed.

(** X22: completing a todo makes its [issue_id] count as completed.  For
    an existing file with a well-formed name, a timestamp and a
    pull-request address that are each on one line, and an [issue_id] that
    the front-matter syntax carries, after
    [completeTodo] the file under its new name is among the items of the
    directory with status completed, with that [issue_id], and every
    listing of the completed items that returns has this id in the set
    that [getNextTodo] checks dependencies against. *)
Theorem completeTodo_then_listed (D now f content n st sl i : str) (p : tier)
        (prUrl : option str) (s : fs) :
  lookup f (files s) = Some content ->
  f = buildFilename n st (tier_str p) sl ->
  well_formed_parts n st sl ->
  single_line now ->
  match prUrl with Some u => single_line u | None => True end ->
  In (k_issue_id, VStr i) (frontmatter (parseFrontmatter content)) ->
  plain_scalar i ->
  let newFilename := buildFilename n (lit "completed") (tier_str p) sl in
  let s' := snd (completeTodo now f prUrl s) in
  (exists item,
     In item (dir_todos D (Some (lit "completed")) (files s'))
     /\ t_filename item = newFilename
     /\ completed_id item = Some i)
  /\ forall l, fst (listTodos D (Some (lit "completed")) s') = inr l ->
       set_has (completedIds l) i = true.
Proof.
  intros Hlook Hf Hwf Hnow Hurl Hid Hplain newFilename s'.
  set (old := frontmatter (parseFrontmatter content)) in *.
  set (newContent := render (completed_frontmatter now prUrl old)
                            (body (parseFrontmatter content))).
  assert (Hparts : parseFilename f = mkParts n st (tier_str p) sl)
    by (rewrite Hf; now apply parseFilename_build).
  pose proof (completeTodo_run now f content prUrl s Hlook) as Hrun.
  cbv zeta in Hrun. rewrite Hparts in Hrun.
  cbn [fp_number fp_priority fp_slug] in Hrun.
  fold old in Hrun. fold newFilename in Hrun. fold newContent in Hrun.
  assert (Hl : lookup newFilename (files s') = Some newContent).
  { unfold s'. rewrite Hrun. cbn [snd].
    destruct (str_eqb f newFilename) eqn:E; cbn [files].
    - apply str_eqb_true in E. rewrite <- E. apply lookup_store_same.
    - apply str_eqb_false in E.
      apply (lookup_renamed f newFilename newContent
               (store f newContent (files s)) E
               (lookup_store_same f newContent (files s))). }
  pose proof (parseFrontmatter_clean content) as Hclean. fold old in Hclean.
  pose proof (completed_frontmatter_clean now prUrl old Hnow Hurl Hclean) as Hc.
  destruct (completed_frontmatter_status now prUrl old) as [Hs1 _].
  destruct (reread_get _ (body (parseFrontmatter content)) k_status
              (VStr (lit "completed")) (VStr (lit "completed")) Hc Hs1)
    as [Hst _]; [discriminate|reflexivity|].
  assert (Hin : In (k_issue_id, VStr i) (completed_frontmatter now prUrl old))
    by (apply completed_frontmatter_keeps; [discriminate..|exact Hid]).
  destruct (reread_get _ (body (parseFrontmatter content)) k_issue_id
              (VStr i) (VStr i) Hc Hin) as [Hi _];
    [discriminate|now apply reparse_plain|].
  fold newContent in Hst, Hi.
  set (item := todo_of D newFilename newContent).
  assert (Hitem : In item (dir_todos D (Some (lit "completed")) (files s'))).
  { apply dir_todos_in. exists newFilename, newContent.
    split; [now apply (lookup_some_names _ _ _ Hl)|]. split; [exact Hl|].
    split.
    - unfold newFilename, buildFilename. rewrite !app_assoc.
      apply endsWith_app.
    - split; [|reflexivity].
      unfold filtered_out, status_is. cbn [lit list_ascii_of_string].
      change ("c"%char :: "o"%char :: "m"%char :: "p"%char :: "l"%char
              :: "e"%char :: "t"%char :: "e"%char :: "d"%char :: [])
        with (lit "completed").
      rewrite Hst. now rewrite str_eqb_refl. }
  assert (Hcid : completed_id item = Some i).
  { unfold completed_id, item, todo_of. cbn [t_frontmatter]. rewrite Hi.
    pose proof (plain_scalar_nonempty i Hplain) as Hne.
    destruct i; [congruence|reflexivity]. }
  split; [exists item; now repeat split|].
  intros l Hlist. rewrite listTodos_run in Hlist. cbn [fst] in Hlist.
  apply sort_by_perm in Hlist.
  apply completedIds_has. exists item. split; [|exact Hcid].
  apply (Permutation_in item Hlist Hitem).
Qed.

Lemma completeTodo_then_listed_witness :
  exists item,
    In item (dir_todos sample_root (Some (lit "completed"))
               (files (snd (completeTodo (lit "2026-01-05T10:00:00.000Z")
                              (lit "003-pending-p2-write-docs.md") None
                              sample_fs))))
    /\ t_filename item = lit "003-completed-p2-write-docs.md"
    /\ completed_id item = Some (lit "003").
Proof.
  assert (N : forall (c : ascii) (x : str),
             forallb (fun y => negb (ascii_eqb y c)) x = true -> ~ In c x).
  { intros c x H Hin. rewrite forallb_forall in H. specialize (H c Hin).
    now rewrite ascii_eqb_refl in H. }
  refine (proj1 (completeTodo_then_listed sample_root
                   (lit "2026-01-05T10:00:00.000Z")
                   (lit "003-pending-p2-write-docs.md")
                   (front [lit "status: pending"; lit "priority: p2";
                           lit "issue_id: 003"] (lit "# Write docs"))
                   (lit "003") (lit "pending") (lit "write-docs") (lit "003")
                   P2 None sample_fs _ _ _ _ _ _ _)).
  - reflexivity.
  - reflexivity.
  - repeat split; try discriminate; reflexivity.
  - apply N. reflexivity.
  - exact I.
  - vm_compute. right. right. left. reflexivity.
  - right. split; [reflexivity|].
    eexists. eexists. split; [reflexivity|]. split; discriminate.
Defined.

(** ** Reading a created todo *)

Lemma number_trimmed (s : str) :
  forallb is_number_char s = true -> trim s = s.
Proof.
  intros H. apply trimmed_trim.
  assert (G : forall u, forallb is_number_char u = true -> trimStart u = u).
  { intros [|c u] Hu; [reflexivity|]. simpl in Hu.
    apply andb_true_iff in Hu as [Hc _]. apply trimStart_fixed.
    destruct (is_ws c) eqn:E; [|reflexivity].
    destruct c as [[] [] [] [] [] [] [] []]; discriminate. }
  split; [now apply G|]. apply G.
  apply forallb_forall. intros x Hx. apply in_rev in Hx.
  rewrite forallb_forall in H. now apply H.
Qed.

Lemma number_plain (s : str) :
  number_shape s -> plain_scalar s /\ single_line s.
Proof.
  intros H. destruct (number_shape_chars s H) as [Hc [c [r [E Hd]]]]. split.
  - right. split; [now apply number_trimmed|].
    exists c, r. split; [exact E|]. split; intros ->; discriminate Hd.
  - intros Hin. rewrite forallb_forall in Hc. specialize (Hc _ Hin).
    discriminate Hc.
Qed.

Lemma tier_plain (p : tier) :
  plain_scalar (tier_str p) /\ single_line (tier_str p).
Proof.
  split.
  - right. split; [now destruct p|].
    destruct p; eexists; eexists; (split; [reflexivity|]); split; discriminate.
  - destruct p; apply single_line_check; reflexivity.
Qed.

Lemma new_frontmatter_clean (number : str) (options : CreateOptions) :
  single_line number ->
  match tags options with Some l => Forall single_line l | None => True end ->
  match linearIssue options with Some v => single_line v | None => True end ->
  match linearUrl options with Some v => single_line v | None => True end ->
  match dependencies options with
  | Some l => Forall single_line l
  | None => True
  end ->
  clean (new_frontmatter number options).
Proof.
  intros Hn Ht Hi Hu Hd. unfold new_frontmatter.
  set (fm0 := [(k_status, VStr (lit "pending"));
               (k_priority, VStr (tier_str (priority options)));
               (k_issue_id, VStr number);
               (k_tags, VArr (match tags options with
                              | Some l => l
                              | None => []
                              end))]).
  set (fm1 := match truthy (linearIssue options) with
              | Some i => obj_put k_linear_issue (VStr i) fm0
              | None => fm0
              end).
  set (fm2 := match truthy (linearUrl options) with
              | Some u => obj_put k_linear_url (VStr u) fm1
              | None => fm1
              end).
  assert (H0 : clean fm0).
  { split.
    - cbn [map fst fm0]. repeat constructor; simpl; intuition discriminate.
    - apply Forall_cons; [|apply Forall_cons; [|apply Forall_cons;
        [|apply Forall_cons; [|apply Forall_nil]]]];
        (split; [now apply literal_key_ok|]); cbn [snd value_ok].
      + apply single_line_check. reflexivity.
      + apply tier_plain.
      + exact Hn.
      + destruct (tags options); [exact Ht|constructor]. }
  assert (H1 : clean fm1).
  { unfold fm1.
    destruct (linearIssue options) as [[|c v]|]; cbn [truthy]; try exact H0.
    apply clean_put; [now apply literal_key_ok|exact Hi|exact H0]. }
  assert (H2 : clean fm2).
  { unfold fm2.
    destruct (linearUrl options) as [[|c v]|]; cbn [truthy]; try exact H1.
    apply clean_put; [now apply literal_key_ok|exact Hu|exact H1]. }
  destruct (dependencies options) as [[|d ds]|]; try exact H2.
  apply clean_put; [now apply literal_key_ok|exact Hd|exact H2].
Qed.

Lemma new_frontmatter_entries (number : str) (options : CreateOptions) :
  let fm := new_frontmatter number options in
  In (k_status, VStr (lit "pending")) fm
  /\ In (k_priority, VStr (tier_str (priority options))) fm
  /\ In (k_issue_id, VStr number) fm
  /\ In (k_tags, VArr (match tags options with Some l => l | None => [] end)) fm
  /\ (forall d ds, dependencies options = Some (d :: ds) ->
        In (k_dependencies, VArr (d :: ds)) fm).
Proof.
  intros fm. unfold fm, new_frontmatter.
  set (fm0 := [(k_status, VStr (lit "pending"));
               (k_priority, VStr (tier_str (priority options)));
               (k_issue_id, VStr number);
               (k_tags, VArr (match tags options with
                              | Some l => l
                              | None => []
                              end))]).
  set (fm1 := match truthy (linearIssue options) with
              | Some i => obj_put k_linear_issue (VStr i) fm0
              | None => fm0
              end).
  set (fm2 := match truthy (linearUrl options) with
              | Some u => obj_put k_linear_url (VStr u) fm1
              | None => fm1
              end).
  assert (K : forall k v, In (k, v) fm0 -> k <> k_linear_issue ->
              k <> k_linear_url -> k <> k_dependencies ->
              In (k, v) match dependencies options with
                        | Some (d :: ds) =>
                            obj_put k_dependencies (VArr (d :: ds)) fm2
                        | _ => fm2
                        end).
  { intros k v Hin N1 N2 N3.
    assert (I1 : In (k, v) fm1).
    { unfold fm1. destruct (truthy (linearIssue options)); [|exact Hin].
      now apply obj_put_keeps. }
    assert (I2 : In (k, v) fm2).
    { unfold fm2. destruct (truthy (linearUrl options)); [|exact I1].
      now apply obj_put_keeps. }
    destruct (dependencies options) as [[|d ds]|]; try exact I2.
    now apply obj_put_keeps. }
  split; [apply K; [now left|discriminate..]|].
  split; [apply K; [right; now left|discriminate..]|].
  split; [apply K; [right; right; now left|discriminate..]|].
  split; [apply K; [right; right; right; now left|discriminate..]|].
  intros d ds ->. apply obj_put_in.
Qed.

(** What [get] returns for the file that [createTodo] wrote. *)
Lemma createTodo_reads (D : str) (options : CreateOptions) (s : fs) :
  match tags options with Some l => Forall single_line l | None => True end ->
  match linearIssue options with Some v => single_line v | None => True end ->
  match linearUrl options with Some v => single_line v | None => True end ->
  match dependencies options with
  | Some l => Forall single_line l
  | None => True
  end ->
  exists c s' item s'',
    createTodo D options s = (inr c, s')
    /\ getTodo D (c_filename c) s' = (inr item, s'')
    /\ t_content item = new_body options
    /\ obj_get k_status (t_frontmatter item) = Some (VStr (lit "pending"))
    /\ obj_get k_priority (t_frontmatter item)
       = Some (VStr (tier_str (priority options)))
    /\ obj_get k_issue_id (t_frontmatter item) = Some (VStr (c_number c))
    /\ (has_text (title options) -> no_line_break (title options) ->
        t_title item = trim (title options))
    /\ (forall d ds, dependencies options = Some (d :: ds) ->
        Forall (fun x => ~ In ","%char x) (d :: ds) ->
        obj_get k_dependencies (t_frontmatter item) = Some (VArr (d :: ds)))
    /\ (forall l, tags options = Some l -> l <> [] ->
        Forall (fun x => ~ In ","%char x) l ->
        obj_get k_tags (t_frontmatter item) = Some (VArr l))
    /\ (tags options = None \/ tags options = Some [] ->
        obj_get k_tags (t_frontmatter item) = Some (VArr [[]])).
Proof.
  intros Ht Hi Hu Hd.
  set (m := maxNumber_of (map fst (files s))).
  set (number := padStart0 3 (String_of_Z (m + 1))).
  set (fm := new_frontmatter number options).
  set (content := render fm (new_body options)).
  set (filename := buildFilename number (lit "pending")
                     (tier_str (priority options)) (slugify (title options))).
  destruct (number_plain number (next_number_shape (m + 1))) as [Np Ns].
  pose proof (new_frontmatter_clean number options Ns Ht Hi Hu Hd) as Hc.
  fold fm in Hc.
  destruct (new_frontmatter_entries number options) as [E1 [E2 [E3 [E4 E5]]]].
  fold fm in E1, E2, E3, E4, E5.
  pose proof (createTodo_run D options s) as Hrun. cbv zeta in Hrun.
  fold m in Hrun. fold number in Hrun. fold fm in Hrun.
  fold content in Hrun. fold filename in Hrun.
  assert (Hne : fm <> []) by (intros E; rewrite E in E1; destruct E1).
  eexists. eexists.
  exists (todo_of D filename content).
  eexists.
  split; [exact Hrun|]. cbn [c_filename c_number].
  split.
  { unfold getTodo, bind, readFile. cbn [files].
    rewrite lookup_store_same. reflexivity. }
  unfold todo_of. cbn [t_title t_frontmatter t_content].
  assert (Hbody : body (parseFrontmatter content) = new_body options)
    by now apply body_render.
  split; [exact Hbody|]. split.
  { apply (reread_get fm (new_body options) k_status _ _ Hc E1);
      [discriminate|reflexivity]. }
  split.
  { apply (reread_get fm (new_body options) k_priority _ _ Hc E2);
      [discriminate|]. apply reparse_plain, tier_plain. }
  split.
  { apply (reread_get fm (new_body options) k_issue_id _ _ Hc E3);
      [discriminate|]. now apply reparse_plain. }
  split.
  { intros Hx Hl. rewrite Hbody.
    destruct (new_body_head options) as [tail Eb].
    destruct (trimStart_has_text _ Hx) as [c0 [r0 [Hs Hc0]]].
    destruct (trimStart_split (title options)) as [w [Hw1 Hw2]].
    rewrite Hs in Hw1. rewrite Eb. rewrite Hw1 at 1.
    unfold extractTitle. cbn [title_scan andb].
    change (ascii_eqb nl "#"%char) with false. cbv iota.
    change (is_lt nl) with true. cbn [title_scan andb].
    rewrite ascii_eqb_refl. rewrite <- app_assoc.
    change ((c0 :: r0) ++ [nl; nl] ++ lit "## Problem Statement" ++ nl :: tail)
      with (c0 :: r0 ++ nl :: (nl :: lit "## Problem Statement" ++ nl :: tail)).
    rewrite (title_at_text w c0 _ Hw2 Hc0).
    change (c0 :: r0 ++ nl :: (nl :: lit "## Problem Statement" ++ nl :: tail))
      with ((c0 :: r0) ++ nl :: (nl :: lit "## Problem Statement" ++ nl :: tail)).
    rewrite take_while_stop by reflexivity. rewrite <- Hs.
    rewrite take_while_all.
    - unfold trim. now rewrite trimStart_idem.
    - apply forallb_forall. intros x Hin. apply trimStart_incl in Hin.
      now rewrite (Hl x Hin). }
  split.
  { intros d ds Ed Hcomma.
    apply (reread_get fm (new_body options) k_dependencies _ _ Hc (E5 d ds Ed));
      [discriminate|]. apply reparse_array; [discriminate|exact Hcomma]. }
  split.
  { intros l El Hn Hcomma. rewrite El in E4.
    apply (reread_get fm (new_body options) k_tags _ _ Hc E4);
      [discriminate|]. now apply reparse_array. }
  intros Hnone.
  assert (E4' : In (k_tags, VArr []) fm).
  { destruct Hnone as [En|En]; now rewrite En in E4. }
  apply (reread_get fm (new_body options) k_tags _ _ Hc E4');
    [discriminate|reflexivity].
Qed.

(** X23: a created todo read back.  For options whose texts are on one
    line, a [get] of the file that [createTodo] wrote returns an item with
    status pending, the priority of the options and the new number as
    [issue_id]; its title is the trimmed title of the options when that has
    some text and no line break; its dependencies are those of the options
    when they hold no comma.  Tags without a comma come back as given, but
    an item created without tags comes back with one tag, the empty
    string. *)
Theorem createTodo_then_get (D : str) (options : CreateOptions) (s : fs) :
  match tags options with Some l => Forall single_line l | None => True end ->
  match linearIssue options with Some v => single_line v | None => True end ->
  match linearUrl options with Some v => single_line v | None => True end ->
  match dependencies options with
  | Some l => Forall single_line l
  | None => True
  end ->
  exists c s' item s'',
    createTodo D options s = (inr c, s')
    /\ getTodo D (c_filename c) s' = (inr item, s'')
    /\ t_content item = new_body options
    /\ obj_get k_status (t_frontmatter item) = Some (VStr (lit "pending"))
    /\ obj_get k_priority (t_frontmatter item)
       = Some (VStr (tier_str (priority options)))
    /\ obj_get k_issue_id (t_frontmatter item) = Some (VStr (c_number c))
    /\ (has_text (title options) -> no_line_break (title options) ->
        t_title item = trim (title options))
    /\ (forall d ds, dependencies options = Some (d :: ds) ->
        Forall (fun x => ~ In ","%char x) (d :: ds) ->
        obj_get k_dependencies (t_frontmatter item) = Some (VArr (d :: ds)))
    /\ (forall l, tags options = Some l -> l <> [] ->
        Forall (fun x => ~ In ","%char x) l ->
        obj_get k_tags (t_frontmatter item) = Some (VArr l))
    /\ (tags options = None \/ tags options = Some [] ->
        obj_get k_tags (t_frontmatter item) = Some (VArr [[]])).
Proof. exact (createTodo_reads D options s). Qed.

Lemma createTodo_then_get_witness :
  exists c s' item s'',
    createTodo sample_root
      (mkOptions P1 (lit "Fix login") None None None None None
                 (Some [lit "004"])) sample_fs = (inr c, s')
    /\ getTodo sample_root (c_filename c) s' = (inr item, s'')
    /\ obj_get k_dependencies (t_frontmatter item) = Some (VArr [lit "004"])
    /\ obj_get k_tags (t_frontmatter item) = Some (VArr [[]]).
Proof.
  assert (N : forall (c : ascii) (x : str),
             forallb (fun y => negb (ascii_eqb y c)) x = true -> ~ In c x).
  { intros c x H Hin. rewrite forallb_forall in H. specialize (H c Hin).
    now rewrite ascii_eqb_refl in H. }
  destruct (createTodo_then_get sample_root
              (mkOptions P1 (lit "Fix login") None None None None None
                         (Some [lit "004"])) sample_fs)
    as [c [s' [item [s'' [H1 [H2 [_ [_ [_ [_ [_ [H3 [_ H4]]]]]]]]]]]]].
  - exact I.
  - exact I.
  - exact I.
  - constructor; [|constructor]. apply N. reflexivity.
  - exists c, s', item, s''. split; [exact H1|]. split; [exact H2|]. split.
    + apply (H3 _ _ eq_refl). constructor; [|constructor].
      apply N. reflexivity.
    + apply H4. now left.
Defined.

(** ** The id, the slug and the dependencies of a new todo *)














(** ** Finding a todo after it was linked *)

(** X24: once [updateFromLinear] has linked an existing todo file to an
    issue, given an issue and an address that are each on one line and an
    issue that the front-matter syntax carries, [findByLinearIssue] for
    that issue, whenever it returns, returns an item of the directory that
    bears the issue; it no longer answers that there is none. *)
Theorem updateFromLinear_then_find (D f content li lu : str)
        (nt : option str) (s : fs) :
  lookup f (files s) = Some content ->
  endsWith md_ext f = true ->
  single_line li -> single_line lu -> plain_scalar li ->
  let s' := snd (updateFromLinear f li lu nt s) in
  forall r, fst (findByLinearIssue D li s') = inr r ->
    exists t, r = Some t
              /\ In t (dir_todos D None (files s'))
              /\ obj_get k_linear_issue (t_frontmatter t) = Some (VStr li).
Proof.
  intros Hlook Hmd H1 H2 Hp s' r Hr.
  pose proof (updateFromLinear_run f content li lu nt s Hlook) as Hrun.
  cbv zeta in Hrun.
  set (newBody := match truthy nt with
                  | Some t => replace_title t (body (parseFrontmatter content))
                  | None => body (parseFrontmatter content)
                  end) in *.
  set (newContent := render (linear_frontmatter li lu
                               (frontmatter (parseFrontmatter content)))
                            newBody) in *.
  assert (Hfiles : files s' = store f newContent (files s))
    by (unfold s'; now rewrite Hrun).
  pose proof (linear_frontmatter_clean li lu _ H1 H2
                (parseFrontmatter_clean content)) as Hc.
  assert (Hli : obj_get k_linear_issue
                  (frontmatter (parseFrontmatter newContent))
                = Some (VStr li)).
  { apply (reread_get _ newBody k_linear_issue (VStr li) (VStr li) Hc).
    - unfold linear_frontmatter. apply obj_put_keeps; [discriminate|].
      apply obj_put_in.
    - discriminate.
    - now apply reparse_plain. }
  set (item := todo_of D f newContent).
  assert (Hitem : In item (dir_todos D None (files s'))).
  { apply dir_todos_in. exists f, newContent. rewrite Hfiles.
    split; [apply (lookup_some_names f newContent), lookup_store_same|].
    split; [apply lookup_store_same|]. now repeat split. }
  unfold findByLinearIssue, bind in Hr. rewrite listTodos_run in Hr.
  destruct (sort_by compareTodos (dir_todos D None (files s'))) as [e|l] eqn:E;
    cbn [fst ret] in Hr; [discriminate|].
  injection Hr as <-.
  pose proof (sort_by_perm _ _ _ E) as Hperm.
  destruct (find (has_linear_issue li) l) as [t|] eqn:Ef.
  - exists t. split; [reflexivity|].
    apply find_some in Ef as [Hin Hh]. split.
    + apply (Permutation_in t (Permutation_sym Hperm) Hin).
    + unfold has_linear_issue in Hh.
      destruct (obj_get k_linear_issue (t_frontmatter t)) as [[x|x]|];
        try discriminate.
      apply str_eqb_true in Hh. now subst.
  - exfalso.
    pose proof (find_none _ _ Ef item (Permutation_in item Hperm Hitem)) as Hn.
    unfold has_linear_issue, item, todo_of in Hn. cbn [t_frontmatter] in Hn.
    rewrite Hli in Hn. now rewrite str_eqb_refl in Hn.
Qed.

Lemma updateFromLinear_then_find_witness :
  exists t,
    fst (findByLinearIssue sample_root (lit "HOL-12")
           (snd (updateFromLinear (lit "003-pending-p2-write-docs.md")
                   (lit "HOL-12") (lit "https://linear.app/x/HOL-12") None
                   sample_fs)))
    = inr (Some t)
    /\ obj_get k_linear_issue (t_frontmatter t) = Some (VStr (lit "HOL-12")).
Proof.
  assert (N : forall (c : ascii) (x : str),
             forallb (fun y => negb (ascii_eqb y c)) x = true -> ~ In c x).
  { intros c x H Hin. rewrite forallb_forall in H. specialize (H c Hin).
    now rewrite ascii_eqb_refl in H. }
  assert (H3 : single_line (lit "HOL-12")) by (apply N; reflexivity).
  assert (H4 : single_line (lit "https://linear.app/x/HOL-12"))
    by (apply N; reflexivity).
  assert (H5 : plain_scalar (lit "HOL-12")).
  { right. split; [reflexivity|].
    eexists. eexists. split; [reflexivity|]. split; discriminate. }
  destruct (fst (findByLinearIssue sample_root (lit "HOL-12")
                   (snd (updateFromLinear (lit "003-pending-p2-write-docs.md")
                           (lit "HOL-12") (lit "https://linear.app/x/HOL-12")
                           None sample_fs)))) as [e|r] eqn:E.
  - exfalso. vm_compute in E. discriminate E.
  - destruct (updateFromLinear_then_find sample_root
                (lit "003-pending-p2-write-docs.md")
                (front [lit "status: pending"; lit "priority: p2";
                        lit "issue_id: 003"] (lit "# Write docs"))
                (lit "HOL-12") (lit "https://linear.app/x/HOL-12") None
                sample_fs eq_refl eq_refl H3 H4 H5 r E) as [t [-> [_ Ht]]].
    exists t. split; [reflexivity|exact Ht].
Defined.

(** ** Deleting a todo *)

Lemma lookup_remove_same (f : str) (d : list (str * str)) :
  lookup f (remove_file f d) = None.
Proof.
  induction d as [|[g c] d IH]; simpl; [reflexivity|].
  destruct (str_eqb g f) eqn:E; simpl; [exact IH|]. now rewrite E.
Qed.

Lemma lookup_remove_other (f g : str) (d : list (str * str)) :
  g <> f -> lookup g (remove_file f d) = lookup g d.
Proof.
  intros Hn. induction d as [|[h c] d IH]; simpl; [reflexivity|].
  destruct (str_eqb h f) eqn:E; simpl.
  - apply str_eqb_true in E. subst h.
    assert (E1 : str_eqb f g = false) by (apply str_eqb_false; congruence).
    now rewrite E1.
  - now rewrite IH.
Qed.

(** X25: [deleteTodo] on an existing file removes that file and leaves
    every other file as it was; afterwards a [get] of the name fails with
    the file-not-found error and a second [deleteTodo] ends the process
    with status 1. *)
Theorem deleteTodo_removes (D f content : str) (s : fs) :
  lookup f (files s) = Some content ->
  exists s',
    deleteTodo f s = (inr tt, s')
    /\ trace s' = trace s ++ [OpUnlink f]
    /\ lookup f (files s') = None
    /\ (forall g, g <> f -> lookup g (files s') = lookup g (files s))
    /\ fst (getTodo D f s') = inl (ENOENT f)
    /\ fst (deleteTodo f s') = inl ExitFailure.
Proof.
  intros H.
  exists (mkFs (remove_file f (files s)) (trace s ++ [OpUnlink f])).
  assert (Hl : lookup f (remove_file f (files s)) = None)
    by apply lookup_remove_same.
  split.
  { unfold deleteTodo, try_catch, unlink. now rewrite H. }
  split; [reflexivity|]. split; [exact Hl|]. split.
  { intros g Hg. now apply lookup_remove_other. }
  split.
  - unfold getTodo, bind, readFile. cbn [files]. now rewrite Hl.
  - unfold deleteTodo, try_catch, unlink, throw. cbn [files]. now rewrite Hl.
Qed.

Lemma deleteTodo_removes_witness :
  exists s',
    deleteTodo (lit "003-pending-p2-write-docs.md") sample_fs = (inr tt, s')
    /\ lookup (lit "003-pending-p2-write-docs.md") (files s') = None.
Proof.
  destruct (deleteTodo_removes sample_root
              (lit "003-pending-p2-write-docs.md")
              (front [lit "status: pending"; lit "priority: p2";
                      lit "issue_id: 003"] (lit "# Write docs"))
              sample_fs eq_refl) as [s' [H1 [_ [H2 _]]]].
  exists s'. now split.
Defined.

(** ** Archived items leave the queue *)

Lemma getNextTodo_pending (D : str) (s : fs) (t : Todo) :
  fst (getNextTodo D s) = inr (Some t) ->
  exists f c, lookup f (files s) = Some c
              /\ status_is (frontmatter (parseFrontmatter c)) (lit "pending")
                 = true
              /\ t = todo_of D f c.
Proof.
  unfold getNextTodo, bind. rewrite listTodos_run.
  destruct (sort_by compareTodos (dir_todos D (Some (lit "pending")) (files s)))
    as [e|queue] eqn:Eq; [discriminate|].
  rewrite listTodos_run. cbn [files trace].
  destruct (sort_by compareTodos (dir_todos D (Some (lit "completed")) (files s)))
    as [e|done] eqn:Ed; [discriminate|].
  unfold lift. cbn [fst]. intros H.
  apply scan_next_sound in H as [Hin _].
  apply (Permutation_in t (Permutation_sym (sort_by_perm _ _ _ Eq))) in Hin.
  apply dir_todos_in in Hin as [f [c [_ [Hl [_ [Hf ->]]]]]].
  exists f, c. split; [exact Hl|]. split; [|reflexivity].
  unfold filtered_out in Hf. now apply negb_false_iff in Hf.
Qed.

Lemma blockTodo_run (now f reason content : str) (s : fs) :
  lookup f (files s) = Some content ->
  let parts := parseFilename f in
  let newFilename :=
    buildFilename (fp_number parts) (lit "blocked") (fp_priority parts)
                  (fp_slug parts) in
  let newContent :=
    render (blocked_frontmatter now reason
              (frontmatter (parseFrontmatter content)))
           (body (parseFrontmatter content)) in
  blockTodo now f reason s
  = (inr newFilename,
     if str_eqb f newFilename
     then mkFs (store f newContent (files s))
               (trace s ++ [OpRead f; OpWrite f newContent])
     else mkFs (map (rename_entry f newFilename)
                    (remove_file newFilename (store f newContent (files s))))
               (trace s ++ [OpRead f; OpWrite f newContent;
                            OpRename f newFilename])).
Proof.
  intros Hlook parts newFilename newContent.
  unfold blockTodo, bind at 1, readFile. rewrite Hlook.
  unfold bind at 1. fold parts. fold newFilename. fold newContent.
  rewrite write_and_rename_run. unfold ret, log. cbn [files trace].
  destruct (str_eqb f newFilename); now rewrite <- app_assoc.
Qed.

Lemma renamed_lookup (f newFilename newContent : str) (d : list (str * str)) :
  let d' := if str_eqb f newFilename
            then store f newContent d
            else map (rename_entry f newFilename)
                     (remove_file newFilename (store f newContent d)) in
  lookup newFilename d' = Some newContent
  /\ (f <> newFilename -> lookup f d' = None).
Proof.
  intros d'. unfold d'. destruct (str_eqb f newFilename) eqn:E.
  - apply str_eqb_true in E. rewrite <- E.
    split; [apply lookup_store_same|congruence].
  - apply str_eqb_false in E.
    destruct (lookup_renamed f newFilename newContent
                (store f newContent d) E
                (lookup_store_same f newContent d)) as [H1 H2].
    split; [exact H1|now intros _].
Qed.

Lemma not_next_after (D f newFilename newContent st : str) (s' : fs)
      (t : Todo) :
  lookup newFilename (files s') = Some newContent ->
  (f <> newFilename -> lookup f (files s') = None) ->
  obj_get k_status (frontmatter (parseFrontmatter newContent))
  = Some (VStr st) ->
  st <> lit "pending" ->
  fst (getNextTodo D s') = inr (Some t) ->
  t_filename t <> newFilename /\ t_filename t <> f.
Proof.
  intros Hl1 Hl2 Hst Hne Hnext.
  apply getNextTodo_pending in Hnext as [g [c [Hl [Hp ->]]]].
  cbn [t_filename todo_of].
  assert (Hnew : g <> newFilename).
  { intros ->. rewrite Hl1 in Hl. injection Hl as <-.
    unfold status_is in Hp. rewrite Hst in Hp.
    apply str_eqb_true in Hp. contradiction. }
  split; [exact Hnew|].
  intros ->. destruct (str_eqb f newFilename) eqn:E.
  - apply str_eqb_true in E. contradiction.
  - apply str_eqb_false in E. rewrite (Hl2 E) in Hl. discriminate.
Qed.

(** X26: a todo that was blocked or completed is out of the queue.  For an
    existing file with a well-formed name and one-line arguments, after
    [blockTodo], and likewise after [completeTodo], [getNextTodo] never
    returns the file, under its new name or under its old one. *)
Theorem archived_not_next (D now f reason content n st sl : str) (p : tier)
        (prUrl : option str) (s : fs) :
  lookup f (files s) = Some content ->
  f = buildFilename n st (tier_str p) sl ->
  well_formed_parts n st sl ->
  single_line now -> single_line reason ->
  match prUrl with Some u => single_line u | None => True end ->
  (forall t,
     fst (getNextTodo D (snd (blockTodo now f reason s))) = inr (Some t) ->
     t_filename t <> buildFilename n (lit "blocked") (tier_str p) sl
     /\ t_filename t <> f)
  /\ (forall t,
        fst (getNextTodo D (snd (completeTodo now f prUrl s))) = inr (Some t) ->
        t_filename t <> buildFilename n (lit "completed") (tier_str p) sl
        /\ t_filename t <> f).
Proof.
  intros Hlook Hf Hwf Hnow Hreason Hurl.
  assert (Hparts : parseFilename f = mkParts n st (tier_str p) sl)
    by (rewrite Hf; now apply parseFilename_build).
  pose proof (parseFrontmatter_clean content) as Hclean.
  split; intros t Hnext.
  - pose proof (blockTodo_run now f reason content s Hlook) as Hrun.
    cbv zeta in Hrun. rewrite Hparts in Hrun.
    cbn [fp_number fp_priority fp_slug] in Hrun.
    rewrite Hrun in Hnext. cbn [snd] in Hnext.
    set (newFilename := buildFilename n (lit "blocked") (tier_str p) sl) in *.
    set (newContent := render (blocked_frontmatter now reason
                                 (frontmatter (parseFrontmatter content)))
                              (body (parseFrontmatter content))) in *.
    destruct (renamed_lookup f newFilename newContent (files s)) as [H1 H2].
    pose proof (blocked_frontmatter_clean now reason _ Hnow Hreason Hclean)
      as Hc.
    destruct (reread_get _ (body (parseFrontmatter content)) k_status
                (VStr (lit "blocked")) (VStr (lit "blocked")) Hc
                (blocked_frontmatter_status now reason _)) as [Hst _];
      [discriminate|reflexivity|].
    fold newContent in Hst.
    refine (not_next_after D f newFilename newContent (lit "blocked")
              _ t _ _ Hst _ Hnext); [| |discriminate].
    + now destruct (str_eqb f newFilename).
    + now destruct (str_eqb f newFilename).
  - pose proof (completeTodo_run now f content prUrl s Hlook) as Hrun.
    cbv zeta in Hrun. rewrite Hparts in Hrun.
    cbn [fp_number fp_priority fp_slug] in Hrun.
    rewrite Hrun in Hnext. cbn [snd] in Hnext.
    set (newFilename := buildFilename n (lit "completed") (tier_str p) sl) in *.
    set (newContent := render (completed_frontmatter now prUrl
                                 (frontmatter (parseFrontmatter content)))
                              (body (parseFrontmatter content))) in *.
    destruct (renamed_lookup f newFilename newContent (files s)) as [H1 H2].
    pose proof (completed_frontmatter_clean now prUrl _ Hnow Hurl Hclean)
      as Hc.
    destruct (completed_frontmatter_status now prUrl
                (frontmatter (parseFrontmatter content))) as [Hs1 _].
    destruct (reread_get _ (body (parseFrontmatter content)) k_status
                (VStr (lit "completed")) (VStr (lit "completed")) Hc Hs1)
      as [Hst _]; [discriminate|reflexivity|].
    fold newContent in Hst.
    refine (not_next_after D f newFilename newContent (lit "completed")
              _ t _ _ Hst _ Hnext); [| |discriminate].
    + now destruct (str_eqb f newFilename).
    + now destruct (str_eqb f newFilename).
Qed.

Lemma archived_not_next_witness :
  exists t,
    fst (getNextTodo sample_root
           (snd (blockTodo (lit "2026-01-05T10:00:00.000Z")
                   (lit "002-pending-p3-refactor-api.md")
                   (lit "waiting") sample_fs)))
    = inr (Some t)
    /\ t_filename t <> lit "002-blocked-p3-refactor-api.md"
    /\ t_filename t <> lit "002-pending-p3-refactor-api.md".
Proof.
  assert (N : forall (c : ascii) (x : str),
             forallb (fun y => negb (ascii_eqb y c)) x = true -> ~ In c x).
  { intros c x H Hin. rewrite forallb_forall in H. specialize (H c Hin).
    now rewrite ascii_eqb_refl in H. }
  eexists. split; [vm_compute; reflexivity|].
  refine (proj1 (archived_not_next sample_root
                   (lit "2026-01-05T10:00:00.000Z")
                   (lit "002-pending-p3-refactor-api.md") (lit "waiting")
                   (front [lit "status: pending"; lit "priority: p3";
                           lit "issue_id: 002"; lit "linear_cycle: Cycle 5";
                           lit "dependencies: [" ++ quoted (lit "004")
                           ++ lit "]"] (lit "# Refactor API"))
                   (lit "002") (lit "pending") (lit "refactor-api") P3 None
                   sample_fs _ _ _ _ _ _) _ _).
  - reflexivity.
  - reflexivity.
  - repeat split; try discriminate; reflexivity.
  - apply N. reflexivity.
  - apply N. reflexivity.
  - exact I.
  - vm_compute. reflexivity.
Defined.
